(** * Telegram client of the agent runtime: text utilities, template
      compositor, response-decision engine and dispatch pipeline.

    Shallow embedding of [utils.ts] (composeRandomUser, generateShouldRespond,
    composeContext, cosineSimilarity, escapeMarkdown, splitMessage,
    stringToUuid) and of [telegramClient.ts] (isGroupAuthorized, the handlers
    registered by setupMessageHandlers, _isMessageForMe,
    _shouldRespondBasedOnContext, _shouldRespond, handleMessage, processImage,
    _generateResponse, sendMessageInChunks, splitMessage).

    Modelling conventions.
    - A JavaScript string is a [string]: a sequence of code units, one
      [ascii] each, so the model covers the code units 0..255.  [length],
      [split], [includes], [slice] count code units as the source does.
    - An integer-valued JavaScript number is a [Z]; the 32-bit wrap-around of
      the bit operators is written out ([toInt32]).  The numbers of
      [cosineSimilarity] are IEEE binary64 ([float]), as the program computes
      them.
    - A plain object is a list of its own fields; what it inherits from its
      prototype is written out where the code can reach it (the names
      [constructor] and [__proto__] of a frequency table) or taken from the
      platform ([Platform]).
    - [async]/[await] code is sequential: every awaited call is a step of a
      state-and-exception monad over the client's state, the state of the
      external collaborators and the trace of what was logged and called. *)

From Stdlib Require Import ZArith Lia String Ascii List Bool Floats.
From Stdlib Require Import DecimalString.
From stdpp Require Import gmap strings list.

Set Warnings "-register-all".

Local Open Scope string_scope.
Local Open Scope list_scope.
Local Open Scope Z_scope.

(* ================================================================== *)
(** * String primitives of the platform *)
(* ================================================================== *)

Module JsString.

(** JavaScript truthiness of a string: every string but the empty one. *)
Definition truthy (s : string) : bool :=
  match s with
  | EmptyString => false
  | String _ _ => true
  end.

Definition charCodeOf (c : ascii) : Z := Z.of_nat (nat_of_ascii c).

Definition newline : ascii := ascii_of_nat 10.
Definition nl : string := String newline EmptyString.

(** [s.split(sep)] for a one-character separator: the pieces between the
    occurrences of [sep]; never the empty list. *)
Fixpoint split (sep : ascii) (s : string) : list string :=
  match s with
  | EmptyString => [EmptyString]
  | String c rest =>
      if Ascii.eqb c sep then EmptyString :: split sep rest
      else match split sep rest with
           | [] => [String c EmptyString]
           | piece :: pieces => String c piece :: pieces
           end
  end.

(** [pieces.join(sep)]. *)
Fixpoint join (sep : string) (pieces : list string) : string :=
  match pieces with
  | [] => EmptyString
  | [p] => p
  | p :: rest => p +:+ sep +:+ join sep rest
  end.

(** [s.slice(from, to)] for [0 <= from <= to]. *)
Definition slice (s : string) (from to : nat) : string :=
  substring from (to - from) s.

Fixpoint replicate (n : nat) (c : ascii) : string :=
  match n with
  | O => EmptyString
  | S k => String c (replicate k c)
  end.

(** [s.padStart(target, fill)] for a one-character [fill]. *)
Definition padStart (s : string) (target : nat) (fill : ascii) : string :=
  replicate (target - String.length s) fill +:+ s.

(** [s.startsWith(p)] and [s.includes(p)]. *)
Definition startsWith (s p : string) : bool := String.prefix p s.

Fixpoint includes (s p : string) : bool :=
  startsWith s p ||
  match s with
  | EmptyString => false
  | String _ rest => includes rest p
  end.

(** White space of the regular-expression class [\s] and of [trim], among
    the code units 0..255: TAB, LF, VT, FF, CR, SPACE and NBSP. *)
Definition isSpace (c : ascii) : bool :=
  let n := nat_of_ascii c in
  ((9 <=? n) && (n <=? 13))%nat || (n =? 32)%nat || (n =? 160)%nat.

Fixpoint trimStart (s : string) : string :=
  match s with
  | EmptyString => EmptyString
  | String c rest => if isSpace c then trimStart rest else s
  end.

(** Drops the trailing white space: a suffix made of white space only
    contributes nothing. *)
Fixpoint trimEnd (s : string) : string :=
  match s with
  | EmptyString => EmptyString
  | String c rest =>
      match trimEnd rest with
      | EmptyString => if isSpace c then EmptyString else String c EmptyString
      | kept => String c kept
      end
  end.

Definition trim (s : string) : string := trimEnd (trimStart s).

Definition isUpperAscii (c : ascii) : bool :=
  let n := nat_of_ascii c in ((65 <=? n) && (n <=? 90))%nat.
Definition isLowerAscii (c : ascii) : bool :=
  let n := nat_of_ascii c in ((97 <=? n) && (n <=? 122))%nat.
Definition isDigit (c : ascii) : bool :=
  let n := nat_of_ascii c in ((48 <=? n) && (n <=? 57))%nat.

(** Upper-case Latin-1 letters other than the ASCII ones (the multiplication
    sign 215 is not a letter). *)
Definition isUpperLatin1 (c : ascii) : bool :=
  let n := nat_of_ascii c in
  ((192 <=? n) && (n <=? 222) && negb (n =? 215))%nat.
Definition isLowerLatin1 (c : ascii) : bool :=
  let n := nat_of_ascii c in
  ((224 <=? n) && (n <=? 254) && negb (n =? 247))%nat.

Definition lowerChar (c : ascii) : ascii :=
  if isUpperAscii c || isUpperLatin1 c
  then ascii_of_nat (nat_of_ascii c + 32) else c.

Fixpoint toLowerCase (s : string) : string :=
  match s with
  | EmptyString => EmptyString
  | String c rest => String (lowerChar c) (toLowerCase rest)
  end.

(** [toUpperCase] one code unit at a time.  The sharp s (223) becomes two
    letters; the upper-case forms of 181 and 255 lie beyond code unit 255 and
    those two are kept as they are (neither form is an ASCII letter). *)
Definition upperChar (c : ascii) : string :=
  if isLowerAscii c || isLowerLatin1 c
  then String (ascii_of_nat (nat_of_ascii c - 32)) EmptyString
  else if (nat_of_ascii c =? 223)%nat then "SS"
  else String c EmptyString.

Fixpoint toUpperCase (s : string) : string :=
  match s with
  | EmptyString => EmptyString
  | String c rest => upperChar c +:+ toUpperCase rest
  end.

(** Every character of [s] satisfies [p]. *)
Fixpoint allChars (p : ascii -> bool) (s : string) : bool :=
  match s with
  | EmptyString => true
  | String c rest => p c && allChars p rest
  end.

(** [n.toString()] of an integer. *)
Definition ofZ (n : Z) : string := NilZero.string_of_int (Z.to_int n).

End JsString.

Import JsString.

(* ================================================================== *)
(** * stringToUuid *)
(* ================================================================== *)

(** [ToInt32]: the value modulo 2^32 read as a signed 32-bit integer. *)
Definition toInt32 (x : Z) : Z := (x + 2 ^ 31) mod 2 ^ 32 - 2 ^ 31.

(** [x << k] and [x & y] on numbers: both operands go through [ToInt32] and
    the result is a signed 32-bit integer. *)
Definition shl32 (x k : Z) : Z := toInt32 (Z.shiftl (toInt32 x) (k mod 32)).
Definition and32 (x y : Z) : Z := Z.land (toInt32 x) (toInt32 y).

(** One turn of the loop of [stringToUuid]:
    [hash = ((hash << 5) - hash) + char; hash = hash & hash]. *)
Definition hashStep (hash : Z) (char : Z) : Z :=
  let hash1 := (shl32 hash 5 - hash) + char in
  and32 hash1 hash1.

Fixpoint hashLoop (hash : Z) (str : string) : Z :=
  match str with
  | EmptyString => hash
  | String c rest => hashLoop (hashStep hash (charCodeOf c)) rest
  end.

Definition hexDigit (d : Z) : ascii :=
  match String.get (Z.to_nat d) "0123456789abcdef" with
  | Some c => c
  | None => "0"%char
  end.

(** The digits of [n] in base 16, most significant first, in front of [acc]. *)
Fixpoint toHexDigits (fuel : nat) (n : Z) (acc : string) : string :=
  match fuel with
  | O => acc
  | S fuel' =>
      let acc' := String (hexDigit (n mod 16)) acc in
      if (n / 16 =? 0)%Z then acc' else toHexDigits fuel' (n / 16) acc'
  end.

(** [n.toString(16)] for a non-negative integer [n]: a number below
    [2 ^ (log2 n + 1)] has at most [log2 n + 1] hexadecimal digits. *)
Definition toString16 (n : Z) : string :=
  toHexDigits (S (Z.to_nat (Z.log2 n))) n EmptyString.

Definition stringToUuid (str : string) : string :=
  let hash := hashLoop 0 str in
  let hashHex := padStart (toString16 (Z.abs hash)) 32 "0"%char in
  slice hashHex 0 8 +:+ "-" +:+ slice hashHex 8 12 +:+ "-" +:+
  slice hashHex 12 16 +:+ "-" +:+ slice hashHex 16 20 +:+ "-" +:+
  slice hashHex 20 32.

(** The canonical identifier format, decided: 36 characters, a dash at the
    positions 8, 13, 18 and 23, a lower-case hexadecimal digit elsewhere. *)
Definition isLowerHex (c : ascii) : bool :=
  isDigit c || (let n := nat_of_ascii c in ((97 <=? n) && (n <=? 102))%nat).

Definition isDashPosition (i : nat) : bool :=
  ((i =? 8) || (i =? 13) || (i =? 18) || (i =? 23))%nat.

Fixpoint uuidShapeFrom (i : nat) (s : string) : bool :=
  match s with
  | EmptyString => (i =? 36)%nat
  | String c rest =>
      (if isDashPosition i then Ascii.eqb c "-"%char else isLowerHex c)
      && uuidShapeFrom (S i) rest
  end.

Definition isCanonicalUuid (s : string) : bool := uuidShapeFrom 0 s.

(* ================================================================== *)
(** * splitMessage *)
(* ================================================================== *)

(** The state of the loop of [splitMessage]: the chunks pushed so far and
    [currentChunk]. *)
Definition splitStep (maxLength : Z) (st : list string * string)
    (line : string) : list string * string :=
  let '(chunks, currentChunk) := st in
  if (Z.of_nat (String.length currentChunk) + Z.of_nat (String.length line) + 1
        <=? maxLength)%Z
  then (chunks, currentChunk +:+ ((if truthy currentChunk then nl else "") +:+ line))
  else ((if truthy currentChunk then chunks ++ [currentChunk] else chunks), line).

Definition flushChunk (st : list string * string) : list string :=
  let '(chunks, currentChunk) := st in
  if truthy currentChunk then chunks ++ [currentChunk] else chunks.

Definition splitMessage (text : string) (maxLength : Z) : list string :=
  let lines := split newline text in
  flushChunk (fold_left (splitStep maxLength) lines ([], EmptyString)).

(** What the chunking invariant asks of one chunk: it fits in [maxLength],
    or it is one whole line of the text that is itself longer. *)
Definition chunkWithinLimit (lines : list string) (maxLength : Z)
    (chunk : string) : Prop :=
  Z.of_nat (String.length chunk) <= maxLength \/
  (In chunk lines /\ maxLength < Z.of_nat (String.length chunk)).

(** The chunking invariant as the specification words it. *)
Definition chunkingInvariant (text : string) (maxLength : Z) : Prop :=
  join nl (splitMessage text maxLength) = text /\
  Forall (chunkWithinLimit (split newline text) maxLength)
         (splitMessage text maxLength).

(** The lines carried by a list of chunks, and the non-empty ones. *)
Definition linesOf (chunks : list string) : list string :=
  flat_map (split newline) chunks.
Definition nonEmptyLines (lines : list string) : list string :=
  List.filter truthy lines.

(* ================================================================== *)
(** * cosineSimilarity *)
(* ================================================================== *)

(** The numbers of the program are IEEE binary64.  [Math.max] gives NaN when
    an argument is NaN and prefers +0 to -0. *)
Definition floatMax (a b : float) : float :=
  if PrimFloat.ltb a b then b
  else if PrimFloat.ltb b a then a
  else if PrimFloat.eqb a b
       then match PrimFloat.classify a with
            | FloatClass.NZero => b
            | _ => a
            end
       else PrimFloat.nan.

(** [x === 0], and the truthiness of a number: neither 0 nor NaN. *)
Definition isZeroNumber (x : float) : bool := PrimFloat.eqb x 0%float.
Definition truthyNumber (x : float) : bool :=
  negb (PrimFloat.eqb x 0%float) && negb (PrimFloat.is_nan x).

Fixpoint mapChars (f : ascii -> ascii) (s : string) : string :=
  match s with
  | EmptyString => EmptyString
  | String c rest => String (f c) (mapChars f rest)
  end.

(** The class [\w] and the complement class of [/[^\w\s'_-]/]. *)
Definition isWordChar (c : ascii) : bool :=
  isUpperAscii c || isLowerAscii c || isDigit c || Ascii.eqb c "_"%char.

Definition keptByPreprocess (c : ascii) : bool :=
  isWordChar c || isSpace c || Ascii.eqb c "'"%char || Ascii.eqb c "_"%char
  || Ascii.eqb c "-"%char.

(** [s.replace(/\s+/g, ' ')]: every maximal run of white space becomes one
    space; [inRun] tells that the previous character was white space. *)
Fixpoint collapseSpaces (inRun : bool) (s : string) : string :=
  match s with
  | EmptyString => EmptyString
  | String c rest =>
      if isSpace c
      then if inRun then collapseSpaces true rest
           else String " "%char (collapseSpaces true rest)
      else String c (collapseSpaces false rest)
  end.

Definition preprocessText (text : string) : string :=
  trim
    (collapseSpaces false
       (mapChars (fun c => if keptByPreprocess c then c else " "%char)
          (toLowerCase text))).

Definition getWords (text : string) : list string :=
  List.filter (fun word => (1 <? String.length word)%nat) (split " "%char text).

(** The frequency tables are plain objects, and [freq[word]] also finds what
    a plain object inherits.  Two inherited names are in lower case and can
    be words: [constructor] (the function [Object]) and [__proto__] (the
    prototype itself); every other inherited name has an upper-case letter,
    which a lower-cased word has not. *)
Definition inheritedName (word : string) : bool :=
  String.eqb word "constructor" || String.eqb word "__proto__".

(** What [freq[word]] can be when it is not [undefined]: a number, or a value
    that is not a number (the inherited function or object, or the string
    that adding 1 to one of them leaves).  Such a value is truthy, and
    arithmetic reads it as NaN. *)
Inductive FreqValue : Type :=
| Counted (n : float)
| NotNumber.

(** A frequency table [{ [key: string]: number }]: its own entries, in the
    order of their insertion. *)
Definition FreqTable : Type := list (string * FreqValue).

Fixpoint ownFreq (freq : FreqTable) (word : string) : option FreqValue :=
  match freq with
  | [] => None
  | (key, v) :: rest =>
      if String.eqb key word then Some v else ownFreq rest word
  end.

(** [freq[word]]: the own entry, or else what the object inherits under that
    name; [None] is [undefined]. *)
Definition lookupFreq (freq : FreqTable) (word : string) : option FreqValue :=
  match ownFreq freq word with
  | Some v => Some v
  | None => if inheritedName word then Some NotNumber else None
  end.

(** [v || 0]. *)
Definition orZero (v : option FreqValue) : FreqValue :=
  match v with
  | Some (Counted x) => if truthyNumber x then Counted x else Counted 0%float
  | Some NotNumber => NotNumber
  | None => Counted 0%float
  end.

(** [v + 1]: the next count, or a string when [v] is not a number. *)
Definition plusOne (v : FreqValue) : FreqValue :=
  match v with
  | Counted x => Counted (PrimFloat.add x 1%float)
  | NotNumber => NotNumber
  end.

(** The number that the arithmetic operators read in a value. *)
Definition toNumber (v : FreqValue) : float :=
  match v with
  | Counted x => x
  | NotNumber => PrimFloat.nan
  end.

(** [freq[word] = v] on an own entry: overwrites it in place or appends a
    new one. *)
Fixpoint setFreq (freq : FreqTable) (word : string) (v : FreqValue) : FreqTable :=
  match freq with
  | [] => [(word, v)]
  | (key, old) :: rest =>
      if String.eqb key word then (key, v) :: rest
      else (key, old) :: setFreq rest word v
  end.

(** [freq[word] = (freq[word] || 0) + 1].  Under the name [__proto__] the
    assignment reaches the inherited setter, which ignores a value that is
    not an object: the table is left as it is. *)
Definition countWord (freq : FreqTable) (word : string) : FreqTable :=
  if String.eqb word "__proto__" then freq
  else setFreq freq word (plusOne (orZero (lookupFreq freq word))).

Definition buildFreq (words : list string) : FreqTable :=
  fold_left countWord words [].

(** An integer-like key: the canonical decimal form of an integer below
    2^32 - 1. *)
Fixpoint digitsOf (acc : Z) (s : string) : option Z :=
  match s with
  | EmptyString => Some acc
  | String c rest =>
      if isDigit c then digitsOf (10 * acc + (charCodeOf c - 48)) rest
      else None
  end.

Definition indexOfKey (key : string) : option Z :=
  match key with
  | EmptyString => None
  | _ => match digitsOf 0 key with
         | Some n =>
             if String.eqb (ofZ n) key && (n <? 4294967295) then Some n
             else None
         | None => None
         end
  end.

Fixpoint insertIndex (n : Z) (key : string) (sorted : list (Z * string))
    : list (Z * string) :=
  match sorted with
  | [] => [(n, key)]
  | (m, other) :: rest =>
      if n <? m then (n, key) :: sorted
      else (m, other) :: insertIndex n key rest
  end.

Definition indexKeys (freq : FreqTable) : list (Z * string) :=
  fold_left (fun sorted entry =>
               match indexOfKey (fst entry) with
               | Some n => insertIndex n (fst entry) sorted
               | None => sorted
               end) freq [].

Definition isNamedKey (key : string) : bool :=
  match indexOfKey key with
  | Some _ => false
  | None => true
  end.

(** [Object.keys(freq)]: the integer-like keys in ascending order, then the
    other keys in the order of their insertion. *)
Definition objectKeys (freq : FreqTable) : list string :=
  map snd (indexKeys freq) ++ List.filter isNamedKey (map fst freq).

(** [new Set([...])]: the distinct elements in the order of first insertion. *)
Definition addToSet (set : list string) (word : string) : list string :=
  if existsb (String.eqb word) set then set else set ++ [word].

Definition newSet (words : list string) : list string :=
  fold_left addToSet words [].

Record Sums : Type := {
  dotProduct : float;
  magnitude1 : float;
  magnitude2 : float;
  magnitude3 : float;
}.

(** The body of [uniqueWords.forEach]; [three] is [words3.length] as a
    condition. *)
Definition accumulate (three : bool) (freq1 freq2 freq3 : FreqTable)
    (sums : Sums) (word : string) : Sums :=
  let val1 := toNumber (orZero (lookupFreq freq1 word)) in
  let val2 := toNumber (orZero (lookupFreq freq2 word)) in
  let val3 := toNumber (orZero (lookupFreq freq3 word)) in
  {| dotProduct :=
       if three
       then let sim12 := PrimFloat.mul val1 val2 in
            let sim23 := PrimFloat.mul val2 val3 in
            let sim13 := PrimFloat.mul val1 val3 in
            PrimFloat.add (dotProduct sums) (floatMax (floatMax sim12 sim23) sim13)
       else PrimFloat.add (dotProduct sums) (PrimFloat.mul val1 val2);
     magnitude1 := PrimFloat.add (magnitude1 sums) (PrimFloat.mul val1 val1);
     magnitude2 := PrimFloat.add (magnitude2 sums) (PrimFloat.mul val2 val2);
     magnitude3 :=
       if three then PrimFloat.add (magnitude3 sums) (PrimFloat.mul val3 val3)
       else magnitude3 sums |}.

Definition nonEmptyList {A : Type} (l : list A) : bool :=
  match l with
  | [] => false
  | _ :: _ => true
  end.

Definition noSums : Sums :=
  {| dotProduct := 0%float; magnitude1 := 0%float;
     magnitude2 := 0%float; magnitude3 := 0%float |}.

(** The computation of [cosineSimilarity] from the three word lists on. *)
Definition similarityOfWords (words1 words2 words3 : list string) : float :=
  let freq1 := buildFreq words1 in
  let freq2 := buildFreq words2 in
  let three := nonEmptyList words3 in
  let freq3 := if three then buildFreq words3 else [] in
  let uniqueWords :=
    newSet (objectKeys freq1 ++ objectKeys freq2 ++
            (if three then objectKeys freq3 else [])) in
  let sums := fold_left (accumulate three freq1 freq2 freq3) uniqueWords noSums in
  let magnitude1 := PrimFloat.sqrt (magnitude1 sums) in
  let magnitude2 := PrimFloat.sqrt (magnitude2 sums) in
  let magnitude3 := if three then PrimFloat.sqrt (magnitude3 sums) else 1%float in
  if isZeroNumber magnitude1 || isZeroNumber magnitude2
     || (three && isZeroNumber magnitude3)
  then 0%float
  else if negb three
  then PrimFloat.div (dotProduct sums) (PrimFloat.mul magnitude1 magnitude2)
  else
    let maxMagnitude :=
      floatMax (floatMax (PrimFloat.mul magnitude1 magnitude2)
                         (PrimFloat.mul magnitude2 magnitude3))
               (PrimFloat.mul magnitude1 magnitude3) in
    PrimFloat.div (dotProduct sums) maxMagnitude.

(** [text3] is optional; an absent or empty [text3] gives no third list. *)
Definition cosineSimilarity (text1 text2 : string) (text3 : option string) : float :=
  let words1 := getWords (preprocessText text1) in
  let words2 := getWords (preprocessText text2) in
  let words3 :=
    match text3 with
    | Some t => if truthy t then getWords (preprocessText t) else []
    | None => []
    end in
  similarityOfWords words1 words2 words3.

(** The tokens of the three texts. *)
Definition tokensOf (text1 text2 : string) (text3 : option string) : list string :=
  getWords (preprocessText text1) ++ getWords (preprocessText text2) ++
  match text3 with
  | Some t => getWords (preprocessText t)
  | None => []
  end.

(** None of the tokens is [constructor], the inherited name that a table
    can come to own. *)
Definition ordinaryTokens (text1 text2 : string) (text3 : option string) : bool :=
  forallb (fun word => negb (String.eqb word "constructor"))
          (tokensOf text1 text2 text3).

(** Membership in the closed unit interval, decided on binary64. *)
Definition inUnitInterval (x : float) : bool :=
  PrimFloat.leb 0%float x && PrimFloat.leb x 1%float.

(** The sign of a number as its specification gives it: not negative (NaN
    has no sign), and zero or NaN. *)
Definition notNegative (x : spec_float) : bool :=
  match x with
  | S754_zero s | S754_infinity s | S754_finite s _ _ => negb s
  | S754_nan => true
  end.

Definition zeroOrNaN (x : spec_float) : bool :=
  match x with
  | S754_zero _ | S754_nan => true
  | _ => false
  end.

(* ================================================================== *)
(** * Values, exceptions and diagnostics *)
(* ================================================================== *)

(** The values that a state object holds (the type [any] of the source
    restricted to data).  A number is a [VNum] when it is an integer and a
    [VFrac] otherwise (NaN and the infinities with the fractions); objects
    keep their fields in insertion order.  [VPlatform] is a function or an
    object of the platform itself, which the data never holds but a path can
    reach through a prototype; [callable] tells a function from an object. *)
Inductive value : Type :=
| VUndefined
| VNull
| VBool (b : bool)
| VNum (n : Z)
| VFrac (x : float)
| VStr (s : string)
| VArr (items : list value)
| VObj (fields : list (string * value))
| VPlatform (callable : bool) (name : string).

Inductive exn : Type :=
| TypeError (msg : string)            (* raised by the language itself *)
| ServiceError (code : Z) (msg : string).  (* raised by a collaborator *)

Inductive outcome (A : Type) : Type :=
| Ret (a : A)
| Throw (e : exn).
Arguments Ret {A} a.
Arguments Throw {A} e.

Inductive level : Type := LLog | LInfo | LWarn | LError | LDebug | LSuccess.

(** A computation that can raise and that writes diagnostics on the way. *)
Definition Logged (A : Type) : Type := outcome A * list (level * string).

Definition retL {A : Type} (a : A) : Logged A := (Ret a, []).

Definition bindL {A B : Type} (m : Logged A) (k : A -> Logged B) : Logged B :=
  match m with
  | (Ret a, logs) => let '(r, logs') := k a in (r, logs ++ logs')
  | (Throw e, logs) => (Throw e, logs)
  end.

Definition warnL (msg : string) : Logged unit := (Ret tt, [(LWarn, msg)]).

(** What the platform brings to [composeContext] beyond the data: its
    serializer, its prototype chains and its printing of what is not data. *)
Record Platform : Type := {
  (** [JSON.stringify] *)
  JSON_stringify : value -> string;
  (** [v[key]] for a [key] that [v] does not own: what the prototype chain of
      [v] has under that name, [undefined] when it has nothing. *)
  inheritedProperty : value -> string -> outcome value;
  (** A name that [in] finds on the prototype chain of the formatters
      object, called as a formatter: the replacement text it leaves. *)
  inheritedFormatter : string -> option (value -> outcome string);
  (** [String(v)] of a platform value, by its name. *)
  platformToString : string -> string;
  (** [String(n)] of an integer of 22 digits or more: the exponent form. *)
  exponentForm : Z -> string;
  (** [String(x)] of a number that is no integer. *)
  fractionToString : float -> string;
}.

(* ================================================================== *)
(** * composeContext *)
(* ================================================================== *)

(** The own field of an object under a key, if it has one. *)
Fixpoint ownField (fields : list (string * value)) (key : string) : option value :=
  match fields with
  | [] => None
  | (name, v) :: rest =>
      if String.eqb name key then Some v else ownField rest key
  end.

Fixpoint digitsValue (acc : nat) (s : string) : option nat :=
  match s with
  | EmptyString => Some acc
  | String c rest =>
      if isDigit c then digitsValue (10 * acc + (nat_of_ascii c - 48)) rest
      else None
  end.

(** A key is an array index when it is the decimal form of a natural
    number. *)
Definition arrayIndex (key : string) : option nat :=
  match key with
  | EmptyString => None
  | _ => match digitsValue 0 key with
         | Some n => if String.eqb (ofZ (Z.of_nat n)) key then Some n else None
         | None => None
         end
  end.

(** The TypeError of a property read on [null] or [undefined], with the
    text that V8, the engine of the runtime, gives it. *)
Definition readError (what key : string) : exn :=
  TypeError ("Cannot read properties of " +:+ what +:+ " (reading '" +:+ key
             +:+ "')").

Definition isUndefined (v : value) : bool :=
  match v with
  | VUndefined => true
  | _ => false
  end.

(** The longest prefix of [s] whose characters satisfy [p], and the rest. *)
Fixpoint spanChars (p : ascii -> bool) (s : string) : string * string :=
  match s with
  | EmptyString => (EmptyString, EmptyString)
  | String c rest =>
      if p c then let '(run, tail) := spanChars p rest in (String c run, tail)
      else (EmptyString, s)
  end.

Definition variableChar (c : ascii) : bool :=
  negb (Ascii.eqb c "}"%char) && negb (Ascii.eqb c "|"%char).
Definition formatterChar (c : ascii) : bool := negb (Ascii.eqb c "}"%char).

(** The text of a placeholder with the given groups. *)
Definition placeholderText (variable : string) (formatter : option string) : string :=
  "{{" +:+ variable +:+
  match formatter with
  | Some name => "|" +:+ name +:+ "}}"
  | None => "}}"
  end.

(** A match of [/\{\{([^}|]+)(?:\|([^}]+))?\}\}/] at the start of [s]: the
    two groups.  Both runs are greedy and a shorter run is followed by a
    character of the same class, so the first attempt is the only one. *)
Definition matchPlaceholder (s : string) : option (string * option string) :=
  match s with
  | String "{" (String "{" s1) =>
      let '(variable, s2) := spanChars variableChar s1 in
      if truthy variable then
        match s2 with
        | String "}" (String "}" _) => Some (variable, None)
        | String "|" s3 =>
            let '(formatter, s4) := spanChars formatterChar s3 in
            if truthy formatter then
              match s4 with
              | String "}" (String "}" _) => Some (variable, Some formatter)
              | _ => None
              end
            else None
        | _ => None
        end
      else None
  | _ => None
  end.

Section ComposeContext.

Variable platform : Platform.

Variable state : value.
Variable defaultValues : value.
Variable formatters : gmap string (value -> string).

(** [acc[key]].  An object owns its fields, an array and a string own
    [length] and their elements; a key that the value does not own goes to
    its prototype chain.  Reading a property of [null] or [undefined]
    raises. *)
Definition getProp (acc : value) (key : string) : outcome value :=
  match acc with
  | VUndefined => Throw (readError "undefined" key)
  | VNull => Throw (readError "null" key)
  | VObj fields =>
      match ownField fields key with
      | Some v => Ret v
      | None => inheritedProperty platform acc key
      end
  | VArr items =>
      if String.eqb key "length" then Ret (VNum (Z.of_nat (List.length items)))
      else match arrayIndex key with
           | Some i => match nth_error items i with
                       | Some v => Ret v
                       | None => inheritedProperty platform acc key
                       end
           | None => inheritedProperty platform acc key
           end
  | VStr s =>
      if String.eqb key "length" then Ret (VNum (Z.of_nat (String.length s)))
      else match arrayIndex key with
           | Some i => match String.get i s with
                       | Some c => Ret (VStr (String c EmptyString))
                       | None => inheritedProperty platform acc key
                       end
           | None => inheritedProperty platform acc key
           end
  | VBool _ | VNum _ | VFrac _ | VPlatform _ _ =>
      inheritedProperty platform acc key
  end.

(** [path.reduce((acc, key) => acc === undefined ? undefined : acc[key], obj)];
    an exception raised by a step ends the reduction. *)
Definition getNestedStep (acc : outcome value) (key : string) : outcome value :=
  match acc with
  | Throw e => Throw e
  | Ret VUndefined => Ret VUndefined
  | Ret v => getProp v key
  end.

Definition getNestedValue (obj : value) (path : list string) : outcome value :=
  fold_left getNestedStep path (Ret obj).

(** [String(v)].  An integer prints with all its digits below 10^21; the
    elements [null] and [undefined] of an array print as nothing. *)
Fixpoint toStringValue (v : value) : string :=
  match v with
  | VUndefined => "undefined"
  | VNull => "null"
  | VBool true => "true"
  | VBool false => "false"
  | VNum n =>
      if Z.abs n <? 10 ^ 21 then ofZ n else exponentForm platform n
  | VFrac x => fractionToString platform x
  | VStr s => s
  | VArr items =>
      join ","
        (map (fun item => match item with
                          | VUndefined | VNull => EmptyString
                          | _ => toStringValue item
                          end) items)
  | VObj _ => "[object Object]"
  | VPlatform _ name => platformToString platform name
  end.

(** [items.join(sep)]. *)
Definition joinValues (sep : string) (items : list value) : string :=
  join sep
    (map (fun item => match item with
                      | VUndefined | VNull => EmptyString
                      | _ => toStringValue item
                      end) items).

(** The default stringification of [formatValue], by the type of the
    value. *)
Definition stringifyValue (v : value) : string :=
  match v with
  | VNull | VUndefined => EmptyString
  | VArr items => joinValues ", " items
  | VObj _ | VPlatform false _ => JSON_stringify platform v
  | VBool _ | VNum _ | VFrac _ | VStr _ | VPlatform true _ => toStringValue v
  end.

(** [formatterName in formatters] finds the own formatters and the names
    that the formatters object inherits. *)
Definition formatValue (v : value) (formatterName : option string)
    : outcome string :=
  match
    match formatterName with
    | Some name => if truthy name then Some name else None
    | None => None
    end
  with
  | Some name =>
      match formatters !! name, inheritedFormatter platform name with
      | Some formatter, _ => Ret (formatter v)
      | None, Some inherited => inherited v
      | None, None => Ret (stringifyValue v)
      end
  | None => Ret (stringifyValue v)
  end.

(** The callback of [template.replace]: [matched] is the whole match. *)
Definition replacer (matched variable : string) (formatter : option string)
    : Logged string :=
  let path := split "."%char (trim variable) in
  bindL (getNestedValue state path, []) (fun fromState =>
  bindL (if isUndefined fromState
         then (getNestedValue defaultValues path, [])
         else retL fromState) (fun v =>
  if isUndefined v
  then bindL (warnL ("Variable " +:+ variable +:+
                     " not found in state or default values"))
             (fun _ => retL matched)
  else (formatValue v formatter, []))).

(** [template.replace(regex, callback)] with the global flag: the matches
    are found from left to right, the text between them is kept, and the
    search resumes behind each match.  [skip] counts the characters of the
    current match that are still to be passed over. *)
Fixpoint replaceFrom (skip : nat) (s : string) : Logged string :=
  match s with
  | EmptyString => retL EmptyString
  | String c rest =>
      match skip with
      | S skip' => replaceFrom skip' rest
      | O =>
          match matchPlaceholder s with
          | Some (variable, formatter) =>
              let matched := placeholderText variable formatter in
              bindL (replacer matched variable formatter) (fun replacement =>
              bindL (replaceFrom (String.length matched - 1) rest) (fun tail =>
              retL (replacement +:+ tail)))
          | None =>
              bindL (replaceFrom 0 rest) (fun tail => retL (String c tail))
          end
      end
  end.

Definition composeContext (template : string) : Logged string :=
  replaceFrom 0 template.

End ComposeContext.

(** ** Texts in which no match begins, and well-formed groups *)

Definition notOpenBrace (c : ascii) : bool := negb (Ascii.eqb c "{"%char).

(** Text in front of a placeholder in which no match can begin: it has no
    two opening braces in a row and does not end with one. *)
Fixpoint literalText (pre : string) : bool :=
  match pre with
  | EmptyString => true
  | String c rest =>
      (notOpenBrace c ||
       match rest with
       | EmptyString => false
       | String d _ => notOpenBrace d
       end)
      && literalText rest
  end.

(** A well-formed formatter group: not empty and without a closing brace. *)
Definition formatterGroup (formatter : option string) : bool :=
  match formatter with
  | Some name => truthy name && allChars formatterChar name
  | None => true
  end.


(* ================================================================== *)
(** * The data of the client *)
(* ================================================================== *)

(** [Content] and [Memory] of the agent runtime, with the fields that the
    client reads or writes. *)
Record Content : Type := {
  content_text : option string;
  content_source : option string;
  content_action : option string;
  content_inReplyTo : option string;
}.

Record Memory : Type := {
  memory_id : string;
  memory_userId : string;
  memory_agentId : string;
  memory_roomId : string;
  memory_content : Content;
  memory_createdAt : option Z;
  memory_embedding : list Z;
}.

(** The options of [searchMemoriesByEmbedding]; the threshold is in tenths. *)
Record SearchOptions : Type := {
  match_threshold_tenths : Z;
  search_count : Z;
  search_roomId : string;
  search_unique : bool;
}.

(** The messages of the transport. *)
Record User : Type := {
  user_id : Z;
  is_bot : bool;
  username : option string;
  first_name : string;
}.

Record Chat : Type := {
  chat_id : Z;
  chat_type : string;
}.

Record PhotoSize : Type := { photo_file_id : string }.

Record Document : Type := {
  document_file_id : string;
  document_mime_type : option string;
}.

(** A field that a message may lack is an option: [None] is the absent
    field. *)
Record Message : Type := {
  message_id : Z;
  message_date : Z;
  message_chat : Chat;
  message_text : option string;
  message_caption : option string;
  message_photo : option (list PhotoSize);
  message_document : option Document;
  message_reply_to : option Z;      (* reply_to_message.message_id *)
}.

Record Context : Type := {
  ctx_message : option Message;
  ctx_from : option User;
  ctx_chat : option Chat;
}.

(** One entry of [ChatState.messages] and the state of a chat. *)
Record MessageRecord : Type := {
  record_userId : string;
  record_userName : string;
  record_content : Content;
}.

Record ChatState : Type := {
  currentHandler : option string;
  lastMessageSent : Z;
  messages : list MessageRecord;
}.

(** [runtime.character]: the templates and the client configuration. *)
Record Character : Type := {
  telegramShouldRespondTemplate_of : option string;
  shouldRespondTemplate_of : option string;
  telegramMessageHandlerTemplate_of : option string;
  messageHandlerTemplate_of : option string;
  shouldIgnoreBotMessages : bool;
  shouldIgnoreDirectMessages : bool;
}.

(** What the client does to the outside, in the order it does it. *)
Inductive Event : Type :=
| EvLog (lvl : level) (msg : string)
| EvEnsureConnection (userId roomId : string)
| EvCreateMemory (memory : Memory)
| EvComposeState (memory : Memory)
| EvUpdateRecentMessageState
| EvSearchMemories (options : SearchOptions)
| EvGetFileLink (fileId : string)
| EvDescribeImage (url : string)
| EvSendMessage (chatId : Z) (text : string) (replyTo : option Z)
| EvProcessActions (memory : Memory) (responses : list Memory)
| EvEvaluate (memory : Memory) (shouldRespond : bool).

(* ================================================================== *)
(** * The collaborators and the monad of the client *)
(* ================================================================== *)

Section Client.

(** The state of everything outside the client: memory store, model,
    transport, clock, random source. *)
Variable World : Type.

(** A call to a collaborator: it may raise, and it changes the world. *)
Definition Oracle (A : Type) : Type := World -> outcome A * World.

(** [this.runtime], [this.bot] and the platform, as far as the client uses
    them. *)
Record Env : Type := {
  agentId : string;
  character : Character;
  botUsername : string;                      (* bot.botInfo.username *)
  getEmbeddingZeroVector : list Z;
  platform : Platform;
  Date_now : World -> Z * World;
  (** [Math.floor(Math.random() * n)] *)
  randomBelow : nat -> World -> nat * World;
  ensureConnection : string -> string -> string -> string -> string -> Oracle unit;
  createMemory : Memory -> Oracle unit;
  composeState : Memory -> Oracle value;
  updateRecentMessageState : value -> Oracle value;
  searchMemoriesByEmbedding : list Z -> SearchOptions -> Oracle (list Memory);
  processActions : Memory -> list Memory -> value -> Oracle unit;
  evaluate : Memory -> value -> bool -> Oracle unit;
  (** [getService(IMAGE_DESCRIPTION)]: the service may be missing. *)
  imageDescriptionService : option (string -> Oracle (string * string));
  getFileLink : string -> Oracle string;
  sendMessage : Z -> string -> option Z -> Oracle Message;
}.

Record ClientState : Type := {
  world : World;
  interestChats : gmap string ChatState;
  trace : list Event;
}.

Definition M (A : Type) : Type := ClientState -> outcome A * ClientState.

Definition ret {A : Type} (a : A) : M A := fun s => (Ret a, s).

Definition bind {A B : Type} (m : M A) (k : A -> M B) : M B :=
  fun s =>
    match m s with
    | (Ret a, s') => k a s'
    | (Throw e, s') => (Throw e, s')
    end.

Definition throw {A : Type} (e : exn) : M A := fun s => (Throw e, s).

(** [try { body } catch (error) { handler }]. *)
Definition tryCatch {A : Type} (body : M A) (handler : exn -> M A) : M A :=
  fun s =>
    match body s with
    | (Ret a, s') => (Ret a, s')
    | (Throw e, s') => handler e s'
    end.

Definition emit (e : Event) : M unit :=
  fun s => (Ret tt, {| world := world s; interestChats := interestChats s;
                       trace := trace s ++ [e] |}).

Definition logM (lvl : level) (msg : string) : M unit := emit (EvLog lvl msg).

(** An awaited call: the event is recorded, then the collaborator runs. *)
Definition call {A : Type} (e : Event) (f : Oracle A) : M A :=
  bind (emit e) (fun _ s =>
    let '(r, w) := f (world s) in
    (r, {| world := w; interestChats := interestChats s; trace := trace s |})).

(** A read of the clock or of the random source: never raises. *)
Definition observe {A : Type} (f : World -> A * World) : M A :=
  fun s =>
    let '(a, w) := f (world s) in
    (Ret a, {| world := w; interestChats := interestChats s; trace := trace s |}).

Definition getChat (chatId : string) : M (option ChatState) :=
  fun s => (Ret (interestChats s !! chatId), s).

Definition setChat (chatId : string) (chatState : ChatState) : M unit :=
  fun s => (Ret tt, {| world := world s;
                       interestChats := <[chatId := chatState]> (interestChats s);
                       trace := trace s |}).

(** The diagnostics of a [Logged] computation enter the trace. *)
Definition liftLogged {A : Type} (m : Logged A) : M A :=
  fun s =>
    (fst m, {| world := world s; interestChats := interestChats s;
               trace := trace s ++ map (fun d => EvLog (fst d) (snd d)) (snd m) |}).

End Client.

Arguments agentId {World} e.
Arguments character {World} e.
Arguments botUsername {World} e.
Arguments getEmbeddingZeroVector {World} e.
Arguments platform {World} e.
Arguments Date_now {World} e.
Arguments randomBelow {World} e.
Arguments ensureConnection {World} e.
Arguments createMemory {World} e.
Arguments composeState {World} e.
Arguments updateRecentMessageState {World} e.
Arguments searchMemoriesByEmbedding {World} e.
Arguments processActions {World} e.
Arguments evaluate {World} e.
Arguments imageDescriptionService {World} e.
Arguments getFileLink {World} e.
Arguments sendMessage {World} e.
Arguments world {World} c.
Arguments interestChats {World} c.
Arguments trace {World} c.
Arguments ret {World A} a.
Arguments bind {World A B} m k.
Arguments throw {World A} e.
Arguments tryCatch {World A} body handler.
Arguments emit {World} e.
Arguments logM {World} lvl msg.
Arguments call {World A} e f.
Arguments observe {World A} f.
Arguments getChat {World} chatId.
Arguments setChat {World} chatId chatState.
Arguments liftLogged {World A} m.

Notation "'let*' x ':=' m 'in' k" := (bind m (fun x => k))
  (at level 10, x name, m at level 100, k at level 200).
Notation "'perform' m 'then' k" := (bind m (fun _ => k))
  (at level 10, m at level 100, k at level 200).

(* ================================================================== *)
(** * utils.ts: the templates, composeRandomUser, generateShouldRespond *)
(* ================================================================== *)

Definition dquote : string := String (ascii_of_nat 34) EmptyString.

Definition telegramShouldRespondTemplate : string :=
"# About {{agentName}}:
{{bio}}

# RESPONSE EXAMPLES
{{user1}}: I just saw a really great movie
{{user2}}: Oh? Which movie?
Result: [IGNORE]

{{agentName}}: Oh, this is my favorite scene
{{user1}}: sick
{{user2}}: wait, why is it your favorite scene
Result: [RESPOND]

{{user1}}: stfu bot
Result: [STOP]

{{recentMessages}}

Thread of Tweets You Are Replying To:

{{formattedConversation}}

# INSTRUCTIONS: Choose the option that best describes {{agentName}}'s response to the last message. Ignore messages if they are addressed to someone else.".

(** The two templates of the source have the same text. *)
Definition telegramMessageHandlerTemplate : string :=
  telegramShouldRespondTemplate.

(** [s.replace(pattern, replacement)] with a string pattern: the first
    occurrence only (the replacements used here hold no [$]). *)
Fixpoint dropChars (n : nat) (s : string) : string :=
  match n, s with
  | S k, String _ rest => dropChars k rest
  | _, _ => s
  end.

Fixpoint replaceFirst (s pattern replacement : string) : string :=
  if startsWith s pattern
  then replacement +:+ dropChars (String.length pattern) s
  else match s with
       | EmptyString => EmptyString
       | String c rest => String c (replaceFirst rest pattern replacement)
       end.

Definition adjectives : list string := ["sick"; "cool"; "awesome"; "amazing"; "great"].
Definition nouns : list string := ["user"; "person"; "individual"; "human"; "being"].

(** The decision prompt around the composed context. *)
Definition decisionPrompt (context : string) : string :=
  nl +:+
  "Based on the following context, determine if the bot should respond. Consider:" +:+ nl +:+
  "- Is the message directed at or relevant to the bot?" +:+ nl +:+
  "- Is it part of an ongoing conversation?" +:+ nl +:+
  "- Does it require a response?" +:+ nl +:+
  nl +:+
  "Context:" +:+ nl +:+
  context +:+ nl +:+
  nl +:+
  "Respond with exactly one word: either " +:+ dquote +:+ "RESPOND" +:+ dquote
  +:+ " or " +:+ dquote +:+ "IGNORE" +:+ dquote +:+ "." +:+ nl.

(** [response[0]?.content?.text?.trim().toUpperCase()]: [None] is
    [undefined]. *)
Definition modelOutput (response : list Memory) : option string :=
  match response with
  | [] => None
  | first :: _ =>
      match content_text (memory_content first) with
      | Some text => Some (toUpperCase (trim text))
      | None => None
      end
  end.

(** [output || "IGNORE"]. *)
Definition orIgnore (output : option string) : string :=
  match output with
  | Some text => if truthy text then text else "IGNORE"
  | None => "IGNORE"
  end.

Section Utils.

Context {World : Type} (env : Env World).

Abbreviation M' := (M World).

(** One user of [composeRandomUser]: an adjective and a noun drawn at
    random. *)
Definition randomUser : M' string :=
  let* a := observe (randomBelow env (List.length adjectives)) in
  let* n := observe (randomBelow env (List.length nouns)) in
  let adjective := nth (a mod List.length adjectives)%nat adjectives EmptyString in
  let noun := nth (n mod List.length nouns)%nat nouns EmptyString in
  ret (adjective +:+ " " +:+ noun).

Fixpoint randomUsers (count : nat) : M' (list string) :=
  match count with
  | O => ret []
  | S k =>
      let* user := randomUser in
      let* users := randomUsers k in
      ret (user :: users)
  end.

(** [users.forEach((user, i) => result = result.replace(`{{user${i+1}}}`, user))] *)
Fixpoint fillUsers (i : nat) (users : list string) (result : string) : string :=
  match users with
  | [] => result
  | user :: rest =>
      fillUsers (S i) rest
        (replaceFirst result ("{{user" +:+ ofZ (Z.of_nat i + 1) +:+ "}}") user)
  end.

Definition composeRandomUser (template : string) (count : nat) : M' string :=
  let* users := randomUsers count in
  ret (fillUsers 0 users template).

(** The memory that carries the prompt. *)
Definition promptMemory (now : Z) (roomId text : string) : Memory :=
  {| memory_id := stringToUuid (ofZ now);
     memory_userId := agentId env;
     memory_agentId := agentId env;
     memory_roomId := roomId;
     memory_content := {| content_text := Some text;
                          content_source := Some "telegram";
                          content_action := None;
                          content_inReplyTo := None |};
     memory_createdAt := None;
     memory_embedding := getEmbeddingZeroVector env |}.

Definition searchOptions (memory : Memory) : SearchOptions :=
  {| match_threshold_tenths := 8;
     search_count := 1;
     search_roomId := memory_roomId memory;
     search_unique := true |}.

(** The first half of the [try] block of [generateShouldRespond]: the
    prompt is written as a memory and the answer is searched for. *)
Definition askModel (context : string) : M' (list Memory) :=
  let prompt := decisionPrompt context in
  let* now := observe (Date_now env) in
  let memory := promptMemory now (stringToUuid "should-respond") prompt in
  perform call (EvCreateMemory memory) (createMemory env memory) then
  let* state := call (EvComposeState memory) (composeState env memory) in
  call (EvSearchMemories (searchOptions memory))
       (searchMemoriesByEmbedding env (memory_embedding memory)
          (searchOptions memory)).

(** The second half: the decision read from the answer. *)
Definition readDecision (response : list Memory) : M' string :=
  let decision := orIgnore (modelOutput response) in
  if negb (String.eqb decision "RESPOND") && negb (String.eqb decision "IGNORE")
  then
    perform logM LWarn ("Invalid response from model: " +:+ decision +:+
                    ". Defaulting to IGNORE") then
    ret "IGNORE"
  else
    perform logM LDebug ("Should respond decision: " +:+ decision) then
    ret decision.

Definition generateShouldRespond (context : string) : M' string :=
  tryCatch
    (let* response := askModel context in
     readDecision response)
    (fun error =>
       perform logM LError "Error generating should-respond decision:" then
       ret "IGNORE").

End Utils.

(* ================================================================== *)
(** * telegramClient.ts *)
(* ================================================================== *)

(** [a || b] on optional strings: the first truthy one. *)
Definition firstTruthy (a : option string) (b : string) : string :=
  match a with
  | Some s => if truthy s then s else b
  | None => b
  end.

Definition orElse (a b : option string) : option string :=
  match a with
  | Some s => if truthy s then a else b
  | None => b
  end.

(** ["text" in message ? message.text : "caption" in message ? message.caption : ""] *)
Definition messageTextOf (message : Message) : string :=
  match message_text message with
  | Some text => text
  | None => match message_caption message with
            | Some caption => caption
            | None => EmptyString
            end
  end.

Definition emptyContent : Content :=
  {| content_text := None; content_source := None;
     content_action := None; content_inReplyTo := None |}.

(** [i === 0 && replyToMessageId ? { message_id: replyToMessageId } : undefined]:
    a number is truthy when it is not zero. *)
Definition replyParameters (replyToMessageId : option Z) (i : nat) : option Z :=
  match replyToMessageId with
  | Some id => if (i =? 0)%nat && negb (id =? 0)%Z then Some id else None
  | None => None
  end.

Section TelegramClient.

Context {World : Type} (env : Env World).

Abbreviation Mc := (M World).

(** The client's copy of [splitMessage] has the text of the one in
    [utils.ts]. *)
Definition splitMessage_client (text : string) (maxLength : Z) : list string :=
  let lines := split newline text in
  flushChunk (fold_left (splitStep maxLength) lines ([], EmptyString)).

(** [message.text.includes(`@${username}`)]: the method call on an absent
    [text] raises. *)
Definition _isMessageForMe (message : Message) : Mc bool :=
  match message_text message with
  | None =>
      throw (TypeError "Cannot read properties of undefined (reading 'includes')")
  | Some text => ret (includes text ("@" +:+ botUsername env))
  end.

Definition _shouldRespondBasedOnContext (message : Message)
    (chatState : ChatState) : bool :=
  match currentHandler chatState with
  | Some handler => String.eqb handler "telegramMessageHandler"
  | None => false
  end.

(** The template of the decision prompt: the first truthy one of the
    character's own two, or the built-in one with two random users. *)
Definition shouldRespondTemplate : Mc string :=
  match orElse (telegramShouldRespondTemplate_of (character env))
               (shouldRespondTemplate_of (character env)) with
  | Some template =>
      if truthy template then ret template
      else composeRandomUser env telegramShouldRespondTemplate 2
  | None => composeRandomUser env telegramShouldRespondTemplate 2
  end.

(** [const shouldRespondContext = composeContext({ state, template })] with
    the default [defaultValues] and [formatters], both empty. *)
Definition shouldRespondContext (state : value) : Mc string :=
  let* template := shouldRespondTemplate in
  liftLogged (composeContext (platform env) state (VObj []) ∅ template).

Definition _shouldRespond (message : Message) (state : value) : Mc bool :=
  (* Always respond if bot is mentioned *)
  let* mentioned := _isMessageForMe message in
  if mentioned then
    perform logM LInfo "Bot mentioned" then
    ret true
  (* Respond to private chats *)
  else if String.eqb (chat_type (message_chat message)) "private" then
    ret true
  else
    (* Respond to group chats based on content and context *)
    let chatId := ofZ (chat_id (message_chat message)) in
    let* chatState := getChat chatId in
    let messageText := messageTextOf message in
    match chatState with
    | Some chatState =>
        ret (_shouldRespondBasedOnContext message chatState)
    | None =>
        (* Use AI to decide for text or captions *)
        if truthy messageText then
          let* context := shouldRespondContext state in
          let* response := generateShouldRespond env context in
          ret (String.eqb response "RESPOND")
        else ret false
    end.

(** The loop of [sendMessageInChunks]; [i] is the index of the next chunk.
    [ctx.chat.id] is read at every turn and raises when the context has no
    chat. *)
Fixpoint sendChunks (ctx : Context) (replyToMessageId : option Z) (i : nat)
    (chunks : list string) (sentMessages : list Message) : Mc (list Message) :=
  match chunks with
  | [] => ret sentMessages
  | chunk :: rest =>
      match ctx_chat ctx with
      | None => throw (TypeError "Cannot read properties of undefined (reading 'id')")
      | Some chat =>
          let reply_parameters := replyParameters replyToMessageId i in
          let* sentMessage :=
            call (EvSendMessage (chat_id chat) chunk reply_parameters)
                 (sendMessage env (chat_id chat) chunk reply_parameters) in
          sendChunks ctx replyToMessageId (S i) rest (sentMessages ++ [sentMessage])
      end
  end.

Definition sendMessageInChunks (ctx : Context) (content : Content)
    (replyToMessageId : option Z) : Mc (list Message) :=
  let chunks := splitMessage_client (firstTruthy (content_text content) EmptyString) 4096 in
  sendChunks ctx replyToMessageId 0 chunks [].

(** The memory recorded for one sent chunk. *)
Definition sentMemory (content : Content) (roomId messageId : string)
    (sentMessage : Message) (isLastMessage : bool) : Memory :=
  {| memory_id := stringToUuid (ofZ (message_id sentMessage) +:+ "-" +:+ agentId env);
     memory_agentId := agentId env;
     memory_userId := agentId env;
     memory_roomId := roomId;
     memory_content :=
       {| content_text := message_text sentMessage;
          content_source := content_source content;
          content_action :=
            if negb isLastMessage then Some "CONTINUE" else content_action content;
          content_inReplyTo := Some messageId |};
     memory_createdAt := Some (message_date sentMessage * 1000);
     memory_embedding := getEmbeddingZeroVector env |}.

(** The loop of the callback over [sentMessages]; [total] is
    [sentMessages.length]. *)
Fixpoint recordSent (content : Content) (roomId messageId : string)
    (total i : nat) (sentMessages : list Message) (memories : list Memory)
    : Mc (list Memory) :=
  match sentMessages with
  | [] => ret memories
  | sentMessage :: rest =>
      let isLastMessage := (i =? total - 1)%nat in
      let memory := sentMemory content roomId messageId sentMessage isLastMessage in
      perform call (EvCreateMemory memory) (createMemory env memory) then
      recordSent content roomId messageId total (S i) rest (memories ++ [memory])
  end.

(** [callback] of [handleMessage]. *)
Definition callback (ctx : Context) (message : Message)
    (roomId messageId : string) (content : Content) : Mc (list Memory) :=
  let* sentMessages := sendMessageInChunks ctx content (Some (message_id message)) in
  recordSent content roomId messageId (List.length sentMessages) 0 sentMessages [].

Definition isImageDocument (document : Document) : bool :=
  match document_mime_type document with
  | Some mime => startsWith mime "image/"
  | None => false
  end.

(** The file of the image of a message, if it has one. *)
Definition imageFileId (message : Message) : option string :=
  match message_photo message with
  | Some (first :: rest) =>
      Some (photo_file_id (List.last (first :: rest) first))
  | _ =>
      match message_document message with
      | Some document =>
          if isImageDocument document then Some (document_file_id document)
          else None
      | None => None
      end
  end.

Definition processImage (message : Message) : Mc (option string) :=
  tryCatch
    (match imageFileId message with
     | Some fileId =>
         let* imageUrl := call (EvGetFileLink fileId) (getFileLink env fileId) in
         if truthy imageUrl then
           match imageDescriptionService env with
           | Some describeImage =>
               let* described := call (EvDescribeImage imageUrl) (describeImage imageUrl) in
               ret (Some ("[Image: " +:+ fst described +:+ nl +:+ snd described +:+ "]"))
           | None => ret None
           end
         else ret None
     | None => ret None
     end)
    (fun error =>
       perform logM LError "Error processing image:" then
       ret None).

Definition _generateResponse (message : Memory) (state : value)
    (context : string) : Mc (option Content) :=
  tryCatch
    (let* now := observe (Date_now env) in
     let memory := promptMemory env now (memory_roomId message) context in
     perform call (EvCreateMemory memory) (createMemory env memory) then
     let* response :=
       call (EvSearchMemories (searchOptions memory))
            (searchMemoriesByEmbedding env (memory_embedding memory)
               (searchOptions memory)) in
     ret (match response with
          | first :: _ => Some (memory_content first)
          | [] => None
          end))
    (fun error =>
       perform logM LError "Error generating response:" then
       ret None).

Definition userNameOf (from : User) : string :=
  firstTruthy (username from) (firstTruthy (Some (first_name from)) "Unknown User").

(** Lines 268-277: every message with text is tracked in its chat. *)
Definition trackMessage (from : User) (chatId : option string)
    (messageText : string) : Mc unit :=
  match chatId with
  | Some chatId =>
      if truthy chatId && truthy messageText then
        let* known := getChat chatId in
        let chatState :=
          match known with
          | Some chatState => chatState
          | None => {| currentHandler := None; lastMessageSent := 0; messages := [] |}
          end in
        let* now := observe (Date_now env) in
        setChat chatId
          {| currentHandler := currentHandler chatState;
             lastMessageSent := now;
             messages := messages chatState ++
               [{| record_userId := stringToUuid (ofZ (user_id from));
                   record_userName := userNameOf from;
                   record_content :=
                     {| content_text := Some messageText;
                        content_source := Some "telegram";
                        content_action := None;
                        content_inReplyTo := None |} |}] |}
      else ret tt
  | None => ret tt
  end.

(** The [try] block of [handleMessage]. *)
Definition processMessage (ctx : Context) (message : Message) (from : User)
    (chatId : option string) (messageText : string) : Mc unit :=
  let userId := stringToUuid (ofZ (user_id from)) in
  let userName := userNameOf from in
  let roomId :=
    stringToUuid (match chatId with Some c => c | None => "undefined" end
                  +:+ "-" +:+ agentId env) in
  let* _ := call (EvEnsureConnection userId roomId)
                 (ensureConnection env userId roomId userName userName "telegram") in
  let messageId := stringToUuid (ofZ (message_id message) +:+ "-" +:+ agentId env) in
  let* imageInfo := processImage message in
  let fullText :=
    match imageInfo with
    | Some description => messageText +:+ " " +:+ description
    | None => messageText
    end in
  if negb (truthy fullText) then ret tt (* Skip if no content *)
  else
    let content :=
      {| content_text := Some fullText;
         content_source := Some "telegram";
         content_action := None;
         content_inReplyTo :=
           match message_reply_to message with
           | Some repliedId =>
               Some (stringToUuid (ofZ repliedId +:+ "-" +:+ agentId env))
           | None => None
           end |} in
    let memory :=
      {| memory_id := messageId;
         memory_agentId := agentId env;
         memory_userId := userId;
         memory_roomId := roomId;
         memory_content := content;
         memory_createdAt := Some (message_date message * 1000);
         memory_embedding := getEmbeddingZeroVector env |} in
    perform call (EvCreateMemory memory) (createMemory env memory) then
    let* state0 := call (EvComposeState memory) (composeState env memory) in
    let* state := call EvUpdateRecentMessageState
                       (updateRecentMessageState env state0) in
    let* shouldRespond := _shouldRespond message state in
    if shouldRespond then
      let* context :=
        liftLogged
          (composeContext (platform env) state (VObj []) ∅
             (firstTruthy
                (orElse (telegramMessageHandlerTemplate_of (character env))
                        (messageHandlerTemplate_of (character env)))
                telegramMessageHandlerTemplate)) in
      let* responseContent := _generateResponse memory state context in
      match responseContent with
      | None => ret tt
      | Some responseContent =>
          if negb (truthy (firstTruthy (content_text responseContent) EmptyString))
          then ret tt
          else
            let* responseMessages :=
              callback ctx message roomId messageId responseContent in
            let* state' := call EvUpdateRecentMessageState
                                (updateRecentMessageState env state) in
            perform call (EvProcessActions memory responseMessages)
                     (processActions env memory responseMessages state') then
            call (EvEvaluate memory shouldRespond)
                 (evaluate env memory state' shouldRespond)
      end
    else
      call (EvEvaluate memory shouldRespond)
           (evaluate env memory state shouldRespond).

Definition handleMessage (ctx : Context) : Mc unit :=
  match ctx_message ctx, ctx_from ctx with
  | Some message, Some from =>
      if shouldIgnoreBotMessages (character env) && is_bot from then ret tt
      else if shouldIgnoreDirectMessages (character env)
              && match ctx_chat ctx with
                 | Some chat => String.eqb (chat_type chat) "private"
                 | None => false
                 end
      then ret tt
      else
        let chatId := option_map (fun chat => ofZ (chat_id chat)) (ctx_chat ctx) in
        let messageText := messageTextOf message in
        (* Track all messages in the group chat *)
        perform trackMessage from chatId messageText then
        (* Process the message and decide whether to respond *)
        tryCatch
          (processMessage ctx message from chatId messageText)
          (fun error =>
             perform logM LError "❌ Error handling message:" then
             logM LError "Error sending message:")
  | _, _ => ret tt (* Exit if no message or sender info *)
  end.

End TelegramClient.

(* ================================================================== *)
(** * Statements about runs, and a scripted world for the examples *)
(* ================================================================== *)

Definition isSend (e : Event) : bool :=
  match e with
  | EvSendMessage _ _ _ => true
  | _ => false
  end.

Definition isWarning (e : Event) : bool :=
  match e with
  | EvLog LWarn _ => true
  | _ => false
  end.

(** An event that only happens once the decision has been taken. *)
Definition afterDecision (e : Event) : bool :=
  match e with
  | EvSendMessage _ _ _ | EvProcessActions _ _ | EvEvaluate _ _ => true
  | _ => false
  end.

(** An event of the generation service as the decision call uses it. *)
Definition isGeneration (e : Event) : bool :=
  match e with
  | EvSearchMemories _ => true
  | _ => false
  end.

(** The state after one more diagnostic. *)
Definition afterLog {World : Type} (s : ClientState World) (lvl : level)
    (msg : string) : ClientState World :=
  {| world := world s; interestChats := interestChats s;
     trace := trace s ++ [EvLog lvl msg] |}.

(** The sends expected of [sendMessageInChunks]: the chunks in order, the
    first one as a reply to [replyTo], the others as plain messages. *)
Definition expectedSends (chatId : Z) (replyTo : Z) (chunks : list string)
    : list Event :=
  match chunks with
  | [] => []
  | first :: rest =>
      EvSendMessage chatId first (Some replyTo)
      :: map (fun chunk => EvSendMessage chatId chunk None) rest
  end.

(** One of the three awaited calls of the decision call raises. *)
Definition serviceRaises {World : Type} (env : Env World) (context : string)
    (s : ClientState World) : Prop :=
  let '(now, w0) := Date_now env (world s) in
  let memory :=
    promptMemory env now (stringToUuid "should-respond") (decisionPrompt context) in
  match createMemory env memory w0 with
  | (Throw _, _) => True
  | (Ret _, w1) =>
      match composeState env memory w1 with
      | (Throw _, _) => True
      | (Ret _, w2) =>
          match searchMemoriesByEmbedding env (memory_embedding memory)
                  (searchOptions memory) w2 with
          | (Throw _, _) => True
          | (Ret _, _) => False
          end
      end
  end.

(** The transport delivers every message, the store takes every memory. *)
Definition transportDelivers {World : Type} (env : Env World) : Prop :=
  forall chatId text replyTo w,
    exists sent w', sendMessage env chatId text replyTo w = (Ret sent, w').

Definition storeAccepts {World : Type} (env : Env World) : Prop :=
  forall memory w, exists w', createMemory env memory w = (Ret tt, w').

(** The trimmed, upper-cased output of the generation service; a missing
    answer reads as the empty output. *)
Definition outputToken (response : list Memory) : string :=
  match modelOutput response with
  | Some text => text
  | None => EmptyString
  end.

(** C6 as the specification words it: an output other than the two tokens
    is coerced to IGNORE and a warning is written. *)
Definition coercedWithWarning {World : Type} (env : Env World)
    (context : string) (s : ClientState World) : Prop :=
  forall response s1,
    askModel env context s = (Ret response, s1) ->
    outputToken response <> "RESPOND" ->
    outputToken response <> "IGNORE" ->
    exists s',
      generateShouldRespond env context s = (Ret "IGNORE", s') /\
      existsb isWarning (trace s') = true.

(** C1 as the specification words it: in a group chat, without a mention,
    with a chat state whose handler is unset and with text, the decision is
    delegated to the generation service. *)
Definition delegatesWhenHandlerUnset {World : Type} (env : Env World)
    (message : Message) (state : value) (s : ClientState World) : Prop :=
  forall text chatState,
    message_text message = Some text ->
    includes text ("@" +:+ botUsername env) = false ->
    String.eqb (chat_type (message_chat message)) "private" = false ->
    interestChats s !! ofZ (chat_id (message_chat message)) = Some chatState ->
    currentHandler chatState = None ->
    truthy (messageTextOf message) = true ->
    exists s1 context,
      shouldRespondContext env state s = (Ret context, s1) /\
      _shouldRespond env message state s =
        (let* response := generateShouldRespond env context in
         ret (String.eqb response "RESPOND")) s1.

(** The scripted world: a clock and the identifier of the next message
    sent. *)
Record DemoWorld : Type := {
  demo_clock : Z;
  demo_nextMessageId : Z;
}.

Definition demoCharacter : Character :=
  {| telegramShouldRespondTemplate_of := None;
     shouldRespondTemplate_of := None;
     telegramMessageHandlerTemplate_of := None;
     messageHandlerTemplate_of := None;
     shouldIgnoreBotMessages := false;
     shouldIgnoreDirectMessages := false |}.

(** A scripted platform for the examples: the names that they look up are
    not inherited ones, and none of them prints an object, a number of 22
    digits or a fraction. *)
Definition demoPlatform : Platform :=
  {| JSON_stringify := fun _ => "{}";
     inheritedProperty := fun _ _ => Ret VUndefined;
     inheritedFormatter := fun _ => None;
     platformToString := fun name => name;
     exponentForm := ofZ;
     fractionToString := fun _ => "NaN" |}.

(** A runtime whose search gives [answer] and whose transport numbers the
    messages it sends. *)
Definition demoEnv (answer : outcome (list Memory)) : Env DemoWorld :=
  {| agentId := "agent";
     character := demoCharacter;
     botUsername := "agentbot";
     getEmbeddingZeroVector := [];
     platform := demoPlatform;
     Date_now := fun w => (demo_clock w, w);
     randomBelow := fun _ w => (0%nat, w);
     ensureConnection := fun _ _ _ _ _ w => (Ret tt, w);
     createMemory := fun _ w => (Ret tt, w);
     composeState := fun _ w => (Ret (VObj []), w);
     updateRecentMessageState := fun state w => (Ret state, w);
     searchMemoriesByEmbedding := fun _ _ w => (answer, w);
     processActions := fun _ _ _ w => (Ret tt, w);
     evaluate := fun _ _ _ w => (Ret tt, w);
     imageDescriptionService := None;
     getFileLink := fun fileId w => (Ret ("https://files/" +:+ fileId), w);
     sendMessage := fun chatId text replyTo w =>
       (Ret {| message_id := demo_nextMessageId w;
               message_date := demo_clock w;
               message_chat := {| chat_id := chatId; chat_type := "group" |};
               message_text := Some text;
               message_caption := None;
               message_photo := None;
               message_document := None;
               message_reply_to := replyTo |},
        {| demo_clock := demo_clock w;
           demo_nextMessageId := demo_nextMessageId w + 1 |}) |}.

Definition demoStart : ClientState DemoWorld :=
  {| world := {| demo_clock := 1700000000000; demo_nextMessageId := 500 |};
     interestChats := ∅;
     trace := [] |}.

Definition demoAnswer (text : string) : outcome (list Memory) :=
  Ret [{| memory_id := "answer"; memory_userId := "agent";
          memory_agentId := "agent"; memory_roomId := "room";
          memory_content := {| content_text := Some text;
                               content_source := Some "telegram";
                               content_action := None;
                               content_inReplyTo := None |};
          memory_createdAt := None; memory_embedding := [] |}].

Definition demoGroup : Chat := {| chat_id := -1001; chat_type := "group" |}.

Definition demoMessage (text caption : option string) : Message :=
  {| message_id := 42; message_date := 1700000000;
     message_chat := demoGroup;
     message_text := text; message_caption := caption;
     message_photo := None; message_document := None;
     message_reply_to := None |}.

Definition demoUser : User :=
  {| user_id := 7; is_bot := false; username := Some "alice"; first_name := "Alice" |}.

Definition demoContext (message : Message) : Context :=
  {| ctx_message := Some message; ctx_from := Some demoUser;
     ctx_chat := Some demoGroup |}.

(** The scripted start with the chat of [demoGroup] already tracked and no
    handler set, as [handleMessage] leaves it. *)
Definition demoTracked : ClientState DemoWorld :=
  {| world := world demoStart;
     interestChats :=
       {[ "-1001" := {| currentHandler := None; lastMessageSent := 0;
                        messages := [] |} ]};
     trace := [] |}.

Definition demoState : value :=
  VObj [("agentName", VStr "Eliza"); ("bio", VStr "A helpful agent.")].

(** The composed decision context of the scripted run, and the state in
    which the generation service is then asked. *)
Definition demoDecisionContext (answer : outcome (list Memory)) : string :=
  match fst (shouldRespondContext (demoEnv answer) demoState demoStart) with
  | Ret context => context
  | Throw _ => EmptyString
  end.

Definition demoAsked (answer : outcome (list Memory)) : ClientState DemoWorld :=
  snd (shouldRespondContext (demoEnv answer) demoState demoStart).

Definition demoResponse : Content :=
  {| content_text := Some (replicate 3000 "a" +:+ nl +:+ replicate 3000 "b");
     content_source := Some "telegram";
     content_action := Some "NONE";
     content_inReplyTo := None |}.

(* ================================================================== *)
(** * Runs of the client: what they send, record and leave alone *)
(* ================================================================== *)

Section Runs.

Context {World : Type} (env : Env World).

(** The sends of the loop from index [i] on. *)
Fixpoint sendsFrom (chatId : Z) (replyTo : option Z) (i : nat)
    (chunks : list string) : list Event :=
  match chunks with
  | [] => []
  | chunk :: rest =>
      EvSendMessage chatId chunk (replyParameters replyTo i)
      :: sendsFrom chatId replyTo (S i) rest
  end.

(** The memories of the loop from index [i] on. *)
Fixpoint memoriesFrom (content : Content) (roomId messageId : string)
    (total i : nat) (sent : list Message) : list Memory :=
  match sent with
  | [] => []
  | m :: rest =>
      sentMemory env content roomId messageId m (i =? total - 1)%nat
      :: memoriesFrom content roomId messageId total (S i) rest
  end.

(** None of the events is one of the [bad] ones. *)
Definition noneOf (bad : Event -> bool) (evs : list Event) : Prop :=
  forallb (fun e => negb (bad e)) evs = true.

(** No event of a run comes after a decision. *)
Definition undecided (evs : list Event) : Prop := noneOf afterDecision evs.

(** A computation that keeps the invariant [P] of the chat states and
    produces none of the [bad] events, however it ends. *)
Definition confined (P : gmap string ChatState -> Prop) (bad : Event -> bool)
    {A : Type} (m : M World A) : Prop :=
  forall s r s',
    P (interestChats s) -> m s = (r, s') ->
    P (interestChats s') /\
    exists evs, trace s' = trace s ++ evs /\ noneOf bad evs.

(** A computation that raises at once, leaving the state as it is. *)
Definition raisesAtOnce {A : Type} (m : M World A) : Prop :=
  forall s, exists e, m s = (Throw e, s).

(** The chat has a state and its handler is unset. *)
Definition trackedUnset (chatId : string) (chats : gmap string ChatState) : Prop :=
  exists chatState,
    chats !! chatId = Some chatState /\ currentHandler chatState = None.

(** An event that asks the model or sends to the chat. *)
Definition asksOrSends (e : Event) : bool := isGeneration e || isSend e.

End Runs.

(* ================================================================== *)
(** * Invariants of the loops *)
(* ================================================================== *)

(** The text that a state of the loop stands for. *)
Definition rendered (st : list string * string) : string :=
  join nl (flushChunk st).

(** A character other than the separator. *)
Definition notChar (sep c : ascii) : bool := negb (Ascii.eqb c sep).

(** The non-empty lines that a state of the loop stands for. *)
Definition carried (st : list string * string) : list string :=
  nonEmptyLines (linesOf (fst st)) ++ nonEmptyLines (split newline (snd st)).

(** A binary64 number with a clear sign bit, or NaN. *)
Definition signless (x : float) : Prop := notNegative (Prim2SF x) = true.

(** A number that is a zero or NaN. *)
Definition zeroish (x : float) : Prop := zeroOrNaN (Prim2SF x) = true.

(** A table whose counts have a clear sign bit. *)
Definition signlessTable (freq : FreqTable) : Prop :=
  List.Forall (fun entry => signless (toNumber (snd entry))) freq.

(** The four sums of the loop keep a clear sign bit. *)
Definition signlessSums (s : Sums) : Prop :=
  signless (dotProduct s) /\ signless (magnitude1 s) /\
  signless (magnitude2 s) /\ signless (magnitude3 s).

(* ================================================================== *)
(** * Further statements about the text utilities *)
(* ================================================================== *)

(** The hash of [stringToUuid] as a polynomial in 31, without wrap-around. *)
Fixpoint polynomialHash (hash : Z) (str : string) : Z :=
  match str with
  | EmptyString => hash
  | String c rest => polynomialHash (hash * 31 + charCodeOf c) rest
  end.

(** The value of a hexadecimal digit and of a string of them; a dash counts
    for nothing, so that an identifier can be read back. *)
Definition hexDigitValue (c : ascii) : Z :=
  let n := Z.of_nat (nat_of_ascii c) in
  if isDigit c then n - 48 else n - 87.

Fixpoint hexValueFrom (acc : Z) (s : string) : Z :=
  match s with
  | EmptyString => acc
  | String c rest =>
      if Ascii.eqb c "-"%char then hexValueFrom acc rest
      else hexValueFrom (16 * acc + hexDigitValue c) rest
  end.

Definition hexValue (s : string) : Z := hexValueFrom 0 s.

(** The text does not begin with a line break. *)
Definition startsWithLine (text : string) : bool :=
  match text with
  | EmptyString => false
  | String c _ => negb (Ascii.eqb c newline)
  end.

(** An object that has nothing under a key: it owns no field of that name
    or an undefined one, and inherits nothing under it. *)
Definition lacks (platform : Platform) (fields : list (string * value))
    (key : string) : Prop :=
  match ownField fields key with
  | Some v => v = VUndefined
  | None => inheritedProperty platform (VObj fields) key = Ret VUndefined
  end.

(* ================================================================== *)
(** * Further statements about the dispatch pipeline *)
(* ================================================================== *)

Definition isCreateMemory (e : Event) : bool :=
  match e with
  | EvCreateMemory _ => true
  | _ => false
  end.

(** An event other than the connection of the sender and a diagnostic. *)
Definition beyondConnection (e : Event) : bool :=
  match e with
  | EvEnsureConnection _ _ | EvLog _ _ => false
  | _ => true
  end.

(** The text of a send. *)
Definition sentText (e : Event) : option string :=
  match e with
  | EvSendMessage _ text _ => Some text
  | _ => None
  end.

(* ================================================================== *)
(** * escapeMarkdown *)
(* ================================================================== *)

(** [s.endsWith(p)]. *)
Definition endsWith (s p : string) : bool :=
  (String.length p <=? String.length s)%nat &&
  String.eqb (substring (String.length s - String.length p) (String.length p) s) p.

Definition codeFence : string := "```".

(** The class [[*_`\\]] of the characters that get a backslash. *)
Definition isMarkdownSpecial (c : ascii) : bool :=
  Ascii.eqb c "*"%char || Ascii.eqb c "_"%char || Ascii.eqb c "`"%char
  || Ascii.eqb c "\"%char.

(** [part.replace(/([*_`\\])/g, "\\$1")].  The replacement that precedes it
    in the source, [part.replace(/`.*?`/g, (match) => match)], puts every
    match back as it is and is the identity. *)
Fixpoint escapeSpecials (part : string) : string :=
  match part with
  | EmptyString => EmptyString
  | String c rest =>
      if isMarkdownSpecial c then String "\"%char (String c (escapeSpecials rest))
      else String c (escapeSpecials rest)
  end.

(** The offset of the first code fence in [s]. *)
Fixpoint findFence (s : string) : option nat :=
  if startsWith s codeFence then Some 0%nat
  else match s with
       | EmptyString => None
       | String _ rest => option_map S (findFence rest)
       end.

(** A match of [/(```[\s\S]*?```)/] at the start of [s]: its length.  The
    quantifier is lazy, so the match ends with the first fence behind the
    opening one. *)
Definition codeBlockLength (s : string) : option nat :=
  if startsWith s codeFence
  then option_map (fun offset => (3 + offset + 3)%nat) (findFence (dropChars 3 s))
  else None.

(** [text.split(/(```[\s\S]*?```)/g).map(...).join('')]: the code blocks,
    found from left to right, are the parts of odd index and are copied; the
    text between them is escaped.  [skip] counts the characters of the
    current code block that are still to be copied. *)
Fixpoint escapeParts (skip : nat) (s : string) : string :=
  match s with
  | EmptyString => EmptyString
  | String c rest =>
      match skip with
      | S skip' => String c (escapeParts skip' rest)
      | O =>
          match codeBlockLength s with
          | Some n => String c (escapeParts (n - 1) rest)
          | None =>
              if isMarkdownSpecial c
              then String "\"%char (String c (escapeParts 0 rest))
              else String c (escapeParts 0 rest)
          end
      end
  end.

Definition escapeMarkdown (text : string) : string :=
  (* Don't escape if it's a code block *)
  if startsWith text codeFence && endsWith text codeFence then text
  else escapeParts 0 text.

(** No character of the text is a backtick. *)
Definition noBacktick (s : string) : bool :=
  allChars (fun c => negb (Ascii.eqb c "`"%char)) s.

(* ================================================================== *)
(** * telegramClient.ts: the handlers of the updates *)
(* ================================================================== *)

(** [character.clientConfig?.telegram]. *)
Record TelegramConfig : Type := {
  shouldOnlyJoinInAllowedGroups : bool;
  allowedGroupIds : option (list string);
}.

(** The context of an update as the handlers registered by
    [setupMessageHandlers] read it. *)
Record UpdateContext : Type := {
  update_from : option User;
  update_botInfo : option User;
  update_chat : option Chat;
  update_new_chat_members : list User;
}.

(** What these handlers do to the outside. *)
Inductive UpdateEvent : Type :=
| UpLog (lvl : level) (msg : string)
| UpReply (text : string)
| UpLeaveChat
| UpRecommender (userId username : string)
| UpHandleMessage.


(** [a?.id === b?.id]: two absent values are equal. *)
Definition sameId (a b : option User) : bool :=
  match a, b with
  | Some x, Some y => (user_id x =? user_id y)%Z
  | None, None => true
  | _, _ => false
  end.

(** [error?.response?.error_code !== 403] *)
Definition notForbidden (error : exn) : bool :=
  match error with
  | ServiceError code _ => negb (code =? 403)%Z
  | TypeError _ => true
  end.

Section Updates.

Context {World : Type}.

(** [this.runtime], [this.messageManager], the backend and the methods of
    the context, as far as the handlers use them.  [MessageManager] and
    [getOrCreateRecommenderInBe] are other modules of the client: here they
    are collaborators that may do anything to the world and may raise. *)
Record Bot : Type := {
  telegramConfig : option TelegramConfig;
  tgTrader : bool;
  ctx_reply : UpdateContext -> string -> Oracle World unit;
  ctx_leaveChat : UpdateContext -> Oracle World unit;
  getOrCreateRecommenderInBe : string -> string -> Oracle World unit;
  messageManager_handleMessage : UpdateContext -> Oracle World unit;
}.

Record UpdateState : Type := {
  up_world : World;
  up_trace : list UpdateEvent;
}.

Definition U (A : Type) : Type := UpdateState -> outcome A * UpdateState.

Definition retU {A : Type} (a : A) : U A := fun s => (Ret a, s).

Definition bindU {A B : Type} (m : U A) (k : A -> U B) : U B :=
  fun s =>
    match m s with
    | (Ret a, s') => k a s'
    | (Throw e, s') => (Throw e, s')
    end.

Definition throwU {A : Type} (e : exn) : U A := fun s => (Throw e, s).

Definition tryU {A : Type} (body : U A) (handler : exn -> U A) : U A :=
  fun s =>
    match body s with
    | (Ret a, s') => (Ret a, s')
    | (Throw e, s') => handler e s'
    end.

Definition logU (lvl : level) (msg : string) : U unit :=
  fun s => (Ret tt, {| up_world := up_world s;
                       up_trace := up_trace s ++ [UpLog lvl msg] |}).

(** An awaited call: the event is recorded, then the collaborator runs. *)
Definition callU {A : Type} (e : UpdateEvent) (f : Oracle World A) : U A :=
  fun s =>
    let '(r, w) := f (up_world s) in
    (r, {| up_world := w; up_trace := up_trace s ++ [e] |}).

Variable bot : Bot.

Definition isGroupAuthorized (ctx : UpdateContext) : U bool :=
  let config := telegramConfig bot in
  if sameId (update_from ctx) (update_botInfo ctx) then retU false
  else if negb (match config with
                | Some c => shouldOnlyJoinInAllowedGroups c
                | None => false
                end)
  then retU true
  else
    let allowedGroups :=
      match config with
      | Some {| allowedGroupIds := Some groups |} => groups
      | _ => []
      end in
    match update_chat ctx with
    | None => throwU (TypeError "Cannot read properties of undefined (reading 'id')")
    | Some chat =>
        let currentGroupId := ofZ (chat_id chat) in
        if negb (existsb (String.eqb currentGroupId) allowedGroups) then
          bindU (logU LInfo ("Unauthorized group detected: " +:+ currentGroupId))
            (fun _ =>
          bindU (tryU
                   (bindU (callU (UpReply "Not authorized. Leaving.")
                                 (ctx_reply bot ctx "Not authorized. Leaving."))
                      (fun _ => callU UpLeaveChat (ctx_leaveChat bot ctx)))
                   (fun error =>
                      logU LError ("Error leaving unauthorized group "
                                   +:+ currentGroupId +:+ ":")))
            (fun _ => retU false))
        else retU true
    end.



(** The handler of ["message"]. *)
Definition onMessage (ctx : UpdateContext) : U unit :=
  tryU
    ((* Check group authorization first *)
     bindU (isGroupAuthorized ctx) (fun authorized =>
       if negb authorized then retU tt
       else
         bindU
           (if tgTrader bot then
              match update_from ctx with
              | None =>
                  bindU (logU LWarn "Received message from a user without an ID.")
                    (fun _ => retU false)
              | Some from =>
                  let userId := ofZ (user_id from) in
                  let username :=
                    firstTruthy (username from)
                      (firstTruthy (Some (first_name from)) "Unknown") in
                  bindU (tryU
                           (callU (UpRecommender userId username)
                                  (getOrCreateRecommenderInBe bot userId username))
                           (fun error =>
                              logU LError
                                "Error getting or creating recommender in backend"))
                    (fun _ => retU true)
              end
            else retU true)
           (fun proceed =>
              if proceed
              then callU UpHandleMessage (messageManager_handleMessage bot ctx)
              else retU tt)))
    (fun error =>
       bindU (logU LError "❌ Error handling message:") (fun _ =>
       (* Don't try to reply if we've left the group or been kicked *)
       if notForbidden error then
         tryU
           (callU (UpReply "An error occurred while processing your message.")
                  (ctx_reply bot ctx
                     "An error occurred while processing your message."))
           (fun replyError => logU LError "Failed to send error message:")
       else retU tt)).

End Updates.

Arguments Bot World : clear implicits.
Arguments UpdateState World : clear implicits.

(** A scripted bot over a world without state: the groups are restricted to
    one, the message manager answers with [handled]. *)
Definition demoBot (handled : outcome unit) : Bot unit :=
  {| telegramConfig :=
       Some {| shouldOnlyJoinInAllowedGroups := true;
               allowedGroupIds := Some ["-1001"] |};
     tgTrader := false;
     ctx_reply := fun _ _ w => (Ret tt, w);
     ctx_leaveChat := fun _ w => (Ret tt, w);
     getOrCreateRecommenderInBe := fun _ _ w => (Ret tt, w);
     messageManager_handleMessage := fun _ w => (handled, w) |}.

Definition demoBotUser : User :=
  {| user_id := 99; is_bot := true; username := Some "agentbot";
     first_name := "Agent" |}.

Definition demoUpdate (chat : Chat) : UpdateContext :=
  {| update_from := Some demoUser;
     update_botInfo := Some demoBotUser;
     update_chat := Some chat;
     update_new_chat_members := [] |}.

Definition demoUpdateStart : UpdateState unit :=
  {| up_world := tt; up_trace := [] |}.

(* ================================================================== *)
(** * Proofs *)
(* ================================================================== *)

(** Unfolds the steps of the monad where they are applied to a state. *)
Ltac run_steps :=
  repeat (progress (unfold bind, ret, throw, tryCatch, call, emit, logM,
                    observe, getChat, setChat;
                    cbn [world interestChats trace])).

(* ================================================================== *)
(** * Properties of stringToUuid *)
(* ================================================================== *)

Lemma toInt32_range x : - 2 ^ 31 <= toInt32 x < 2 ^ 31.
Proof.
  unfold toInt32.
  pose proof (Z.mod_pos_bound (x + 2 ^ 31) (2 ^ 32) ltac:(lia)). lia.
Qed.

Lemma and32_diag x : and32 x x = toInt32 x.
Proof. unfold and32. apply Z.land_diag. Qed.

Lemma hashStep_range hash char : - 2 ^ 31 <= hashStep hash char < 2 ^ 31.
Proof. unfold hashStep. cbv zeta. rewrite and32_diag. apply toInt32_range. Qed.

Lemma hashLoop_range str : forall hash,
  - 2 ^ 31 <= hash < 2 ^ 31 -> - 2 ^ 31 <= hashLoop hash str < 2 ^ 31.
Proof.
  induction str as [|c rest IH]; intros hash Hh; simpl.
  - exact Hh.
  - apply IH, hashStep_range.
Qed.

Lemma hexDigit_lower d : isLowerHex (hexDigit d) = true.
Proof.
  unfold hexDigit.
  destruct (Z.to_nat d) as [|n]; [reflexivity|].
  do 15 (destruct n as [|n]; [reflexivity|]).
  reflexivity.
Qed.

Lemma toHexDigits_length fuel : forall n acc,
  (String.length (toHexDigits fuel n acc) <= fuel + String.length acc)%nat.
Proof.
  induction fuel as [|fuel IH]; intros n acc; simpl.
  - lia.
  - destruct (n / 16 =? 0)%Z.
    + simpl. lia.
    + specialize (IH (n / 16) (String (hexDigit (n mod 16)) acc)).
      simpl in IH. lia.
Qed.

Lemma toHexDigits_lower fuel : forall n acc,
  allChars isLowerHex acc = true ->
  allChars isLowerHex (toHexDigits fuel n acc) = true.
Proof.
  induction fuel as [|fuel IH]; intros n acc Hacc; simpl.
  - exact Hacc.
  - assert (Hacc' : allChars isLowerHex (String (hexDigit (n mod 16)) acc) = true).
    { simpl. rewrite hexDigit_lower. exact Hacc. }
    destruct (n / 16 =? 0)%Z; [exact Hacc' | apply IH, Hacc'].
Qed.

(** The fuel of [toString16] is never used up: one more unit of fuel changes
    nothing once [n < 16 ^ fuel]. *)
Lemma toHexDigits_fuel fuel : forall n acc,
  (1 <= fuel)%nat -> 0 <= n < 16 ^ Z.of_nat fuel ->
  toHexDigits (S fuel) n acc = toHexDigits fuel n acc.
Proof.
  induction fuel as [|fuel IH]; intros n acc Hf Hn; [lia|].
  change (toHexDigits (S (S fuel)) n acc) with
    (let acc' := String (hexDigit (n mod 16)) acc in
     if (n / 16 =? 0)%Z then acc' else toHexDigits (S fuel) (n / 16) acc').
  change (toHexDigits (S fuel) n acc) with
    (let acc' := String (hexDigit (n mod 16)) acc in
     if (n / 16 =? 0)%Z then acc' else toHexDigits fuel (n / 16) acc').
  cbv zeta. destruct (Z.eqb_spec (n / 16) 0) as [|Hq]; [reflexivity|].
  assert (Hdiv : 0 <= n / 16 < 16 ^ Z.of_nat fuel).
  { rewrite Nat2Z.inj_succ, Z.pow_succ_r in Hn by lia.
    split; [apply Z.div_pos; lia | apply Z.div_lt_upper_bound; lia]. }
  destruct fuel as [|fuel'].
  - simpl in Hdiv. lia.
  - apply IH; [lia | exact Hdiv].
Qed.

Lemma toString16_fuel n : 0 <= n -> n < 16 ^ Z.of_nat (S (Z.to_nat (Z.log2 n))).
Proof.
  intros Hn.
  rewrite Nat2Z.inj_succ, Z2Nat.id by apply Z.log2_nonneg.
  destruct (Z.eq_dec n 0) as [->|Hne]; [reflexivity|].
  pose proof (Z.log2_spec n ltac:(lia)) as [_ Hlt].
  apply Z.lt_le_trans with (1 := Hlt).
  replace 16 with (2 ^ 4) by reflexivity.
  rewrite <- Z.pow_mul_r; [|lia|pose proof (Z.log2_nonneg n); lia].
  apply Z.pow_le_mono_r; [lia|]. pose proof (Z.log2_nonneg n). lia.
Qed.

(** More fuel than [toString16] takes gives the same digits. *)
Lemma toString16_fuel_suffices n :
  0 <= n ->
  toHexDigits (S (S (Z.to_nat (Z.log2 n)))) n EmptyString = toString16 n.
Proof.
  intros Hn. unfold toString16.
  apply toHexDigits_fuel; [lia | split; [exact Hn | now apply toString16_fuel]].
Qed.

Lemma toString16_length n :
  0 <= n <= 2 ^ 31 -> (String.length (toString16 n) <= 32)%nat.
Proof.
  intros Hn. unfold toString16.
  pose proof (toHexDigits_length (S (Z.to_nat (Z.log2 n))) n EmptyString) as H.
  change (String.length EmptyString) with 0%nat in H.
  assert (Hlog : Z.log2 n <= 31).
  { change 31 with (Z.log2 (2 ^ 31)). apply Z.log2_le_mono. lia. }
  pose proof (Z.log2_nonneg n) as Hpos.
  assert (Z.to_nat (Z.log2 n) <= 31)%nat by lia.
  lia.
Qed.

Lemma allChars_append p s t :
  allChars p (s +:+ t) = allChars p s && allChars p t.
Proof.
  induction s as [|c s IH]; simpl; [reflexivity|].
  rewrite IH. apply andb_assoc.
Qed.

Lemma replicate_length n c : String.length (replicate n c) = n.
Proof. induction n; simpl; congruence. Qed.

Lemma allChars_replicate p n c : p c = true -> allChars p (replicate n c) = true.
Proof. intros Hc. induction n; simpl; [reflexivity|]. now rewrite Hc. Qed.

Lemma append_length s t :
  String.length (s +:+ t) = (String.length s + String.length t)%nat.
Proof. induction s as [|c s IH]; simpl; [reflexivity | now rewrite IH]. Qed.

Lemma padStart_length s target c :
  (String.length s <= target)%nat -> String.length (padStart s target c) = target.
Proof.
  intros H. unfold padStart. rewrite append_length, replicate_length. lia.
Qed.

(** Grouping 32 lower-case hexadecimal digits as 8-4-4-4-12 gives the
    canonical shape. *)
Lemma grouping_canonical hashHex :
  String.length hashHex = 32%nat -> allChars isLowerHex hashHex = true ->
  isCanonicalUuid
    (slice hashHex 0 8 +:+ "-" +:+ slice hashHex 8 12 +:+ "-" +:+
     slice hashHex 12 16 +:+ "-" +:+ slice hashHex 16 20 +:+ "-" +:+
     slice hashHex 20 32) = true.
Proof.
  intros Hlen Hhex.
  do 32 (destruct hashHex as [|? hashHex]; [discriminate Hlen|]).
  destruct hashHex; [|discriminate Hlen].
  cbn -[isLowerHex] in Hhex.
  repeat (apply andb_prop in Hhex; destruct Hhex as [? Hhex]).
  unfold isCanonicalUuid, slice. cbv -[isLowerHex].
  repeat (match goal with H : isLowerHex _ = true |- _ => rewrite H; clear H end).
  reflexivity.
Qed.

Lemma uuidShapeFrom_length s : forall i,
  uuidShapeFrom i s = true -> (i + String.length s = 36)%nat.
Proof.
  induction s as [|c s IH]; intros i H; simpl in *.
  - apply Nat.eqb_eq in H. lia.
  - apply andb_prop in H. destruct H as [_ H]. apply IH in H. lia.
Qed.

(** C8.  [stringToUuid] is a function of its input alone: evaluating it
    twice on the same string gives the same identifier.  The identifier
    always has exactly 36 characters, in the canonical 8-4-4-4-12 grouping of
    lower-case hexadecimal digits. *)
Theorem stringToUuid_deterministic_canonical :
  forall x : string,
    stringToUuid x = stringToUuid x /\
    String.length (stringToUuid x) = 36%nat /\
    isCanonicalUuid (stringToUuid x) = true.
Proof.
  intros x.
  assert (Hshape : isCanonicalUuid (stringToUuid x) = true).
  { unfold stringToUuid. cbv zeta.
    pose proof (hashLoop_range x 0 ltac:(lia)) as Hr.
    apply grouping_canonical.
    - apply padStart_length, toString16_length. lia.
    - unfold padStart. rewrite allChars_append, allChars_replicate by reflexivity.
      apply toHexDigits_lower. reflexivity. }
  split; [reflexivity|].
  split; [|exact Hshape].
  apply (uuidShapeFrom_length _ 0%nat) in Hshape. exact Hshape.
Qed.

(** The hash of a worked example: the identifier of the decision room. *)
Example stringToUuid_should_respond :
  stringToUuid "should-respond" = "00000000-0000-0000-0000-00003c1d967b".
Proof. vm_compute. reflexivity. Qed.

(* ================================================================== *)
(** * Properties of splitMessage *)
(* ================================================================== *)

Lemma append_cons c (s t : string) : String c s +:+ t = String c (s +:+ t).
Proof. reflexivity. Qed.

Lemma append_nil_l (t : string) : EmptyString +:+ t = t.
Proof. reflexivity. Qed.

Lemma truthy_true s : truthy s = true <-> s <> EmptyString.
Proof. destruct s; simpl; split; congruence. Qed.

Lemma truthy_false s : truthy s = false <-> s = EmptyString.
Proof. destruct s; simpl; split; congruence. Qed.

Lemma split_not_nil sep s : split sep s <> [].
Proof.
  destruct s as [|c s]; simpl; [discriminate|].
  destruct (Ascii.eqb c sep); [discriminate|].
  destruct (split sep s); discriminate.
Qed.

Lemma join_cons sep p rest :
  rest <> [] -> join sep (p :: rest) = p +:+ sep +:+ join sep rest.
Proof. destruct rest; [congruence | reflexivity]. Qed.

Lemma join_split sep s : join (String sep EmptyString) (split sep s) = s.
Proof.
  induction s as [|c s IH]; simpl; [reflexivity|].
  destruct (Ascii.eqb_spec c sep) as [->|Hne].
  - rewrite join_cons by apply split_not_nil. simpl. now rewrite IH.
  - pose proof (split_not_nil sep s) as Hnil.
    destruct (split sep s) as [|piece pieces]; [congruence|].
    destruct pieces as [|q pieces]; simpl in *; now rewrite <- IH.
Qed.

Lemma append_assoc (a b c : string) : (a +:+ b) +:+ c = a +:+ (b +:+ c).
Proof.
  induction a as [|x a IH]; [reflexivity|].
  rewrite !append_cons. now rewrite IH.
Qed.

Lemma append_nil_r (a : string) : a +:+ EmptyString = a.
Proof.
  induction a as [|x a IH]; [reflexivity|].
  rewrite append_cons. now rewrite IH.
Qed.

Lemma join_snoc sep l x :
  l <> [] -> join sep (l ++ [x]) = join sep l +:+ sep +:+ x.
Proof.
  induction l as [|p l IH]; intros Hl; [congruence|].
  destruct l as [|q l].
  - reflexivity.
  - change (join sep ((p :: q :: l) ++ [x]))
      with (p +:+ sep +:+ join sep ((q :: l) ++ [x])).
    rewrite IH by discriminate.
    change (join sep (p :: q :: l)) with (p +:+ sep +:+ join sep (q :: l)).
    now rewrite !append_assoc.
Qed.

Lemma join_snoc_append sep l x y :
  join sep (l ++ [x +:+ y]) = join sep (l ++ [x]) +:+ y.
Proof.
  destruct l as [|p l]; [reflexivity|].
  rewrite <- !app_comm_cons.
  revert p. induction l as [|q l IH]; intros p.
  - cbn [join app]. now rewrite !append_assoc.
  - change (join sep (p :: (q :: l) ++ [x +:+ y]))
      with (p +:+ sep +:+ join sep (q :: l ++ [x +:+ y])).
    rewrite IH.
    change (join sep (p :: (q :: l) ++ [x]))
      with (p +:+ sep +:+ join sep (q :: l ++ [x])).
    now rewrite !append_assoc.
Qed.

(** A non-empty line that meets a non-empty current chunk is appended to the
    rendered text behind a newline, on both branches of the loop body. *)
Lemma splitStep_rendered maxLength chunks cur line :
  cur <> EmptyString -> line <> EmptyString ->
  exists chunks' cur',
    splitStep maxLength (chunks, cur) line = (chunks', cur') /\
    cur' <> EmptyString /\
    rendered (chunks', cur') = rendered (chunks, cur) +:+ nl +:+ line.
Proof.
  intros Hcur Hline. unfold splitStep, rendered, flushChunk.
  assert (Ht : truthy cur = true) by now apply truthy_true.
  rewrite Ht.
  destruct (_ <=? maxLength)%Z.
  - exists chunks, (cur +:+ nl +:+ line). split; [reflexivity|]. split.
    + destruct cur; [congruence | discriminate].
    + assert (Ht' : truthy (cur +:+ nl +:+ line) = true).
      { destruct cur; [congruence | reflexivity]. }
      rewrite Ht'. apply join_snoc_append.
  - exists (chunks ++ [cur]), line. split; [reflexivity|]. split; [exact Hline|].
    assert (Ht' : truthy line = true) by now apply truthy_true.
    rewrite Ht'. apply join_snoc. now destruct chunks.
Qed.

Lemma fold_splitStep_rendered maxLength lines : forall chunks cur,
  Forall (fun l => l <> EmptyString) lines -> cur <> EmptyString ->
  rendered (fold_left (splitStep maxLength) lines (chunks, cur)) =
  fold_left (fun acc l => acc +:+ nl +:+ l) lines (rendered (chunks, cur)).
Proof.
  induction lines as [|l lines IH]; intros chunks cur Hall Hcur; [reflexivity|].
  inversion Hall as [|? ? Hl Hrest]; subst.
  destruct (splitStep_rendered maxLength chunks cur l Hcur Hl)
    as (chunks' & cur' & Hstep & Hcur' & Hr).
  cbn [fold_left]. rewrite Hstep, IH by assumption. now rewrite Hr.
Qed.

Lemma fold_append_lines lines : forall a b,
  fold_left (fun acc l => acc +:+ nl +:+ l) lines (a +:+ b) =
  a +:+ fold_left (fun acc l => acc +:+ nl +:+ l) lines b.
Proof.
  induction lines as [|l lines IH]; intros a b; cbn [fold_left]; [reflexivity|].
  now rewrite append_assoc, IH.
Qed.

Lemma join_as_fold l lines :
  join nl (l :: lines) = fold_left (fun acc x => acc +:+ nl +:+ x) lines l.
Proof.
  revert l. induction lines as [|m lines IH]; intros l; [reflexivity|].
  rewrite join_cons by discriminate. rewrite IH. cbn [fold_left].
  now rewrite !fold_append_lines.
Qed.

(** The first line starts the first chunk, whichever branch is taken. *)
Lemma splitStep_first maxLength line :
  splitStep maxLength ([], EmptyString) line = ([], line).
Proof. unfold splitStep. simpl. now destruct (_ <=? maxLength)%Z. Qed.

Lemma splitMessage_join text maxLength :
  Forall (fun l => l <> EmptyString) (split newline text) ->
  join nl (splitMessage text maxLength) = text.
Proof.
  intros Hall. unfold splitMessage. cbv zeta.
  rewrite <- (join_split newline text) at 2.
  destruct (split newline text) as [|l lines]; [reflexivity|].
  inversion Hall as [|? ? Hl Hrest]; subst.
  cbn [fold_left]. rewrite splitStep_first.
  change (join nl (flushChunk ?st)) with (rendered st).
  rewrite fold_splitStep_rendered by assumption.
  unfold rendered at 1, flushChunk.
  apply truthy_true in Hl. rewrite Hl. cbn [join app].
  symmetry. apply join_as_fold.
Qed.

(** ** The length bound *)

Lemma splitStep_within lines maxLength chunks cur line :
  In line lines ->
  Forall (chunkWithinLimit lines maxLength) chunks ->
  cur = EmptyString \/ chunkWithinLimit lines maxLength cur ->
  let st := splitStep maxLength (chunks, cur) line in
  Forall (chunkWithinLimit lines maxLength) (fst st) /\
  (snd st = EmptyString \/ chunkWithinLimit lines maxLength (snd st)).
Proof.
  intros Hin Hchunks Hcur. unfold splitStep.
  destruct (Z.leb_spec
    (Z.of_nat (String.length cur) + Z.of_nat (String.length line) + 1) maxLength)
    as [Hle|Hgt]; simpl.
  - split; [exact Hchunks|]. right. left.
    rewrite !append_length.
    destruct (truthy cur); simpl; lia.
  - split.
    + destruct (truthy cur) eqn:Ht; [|exact Hchunks].
      apply Forall_app. split; [exact Hchunks|].
      constructor; [|constructor].
      destruct Hcur as [->|Hok]; [discriminate Ht | exact Hok].
    + right. unfold chunkWithinLimit.
      destruct (Z.le_gt_cases (Z.of_nat (String.length line)) maxLength);
        [left; assumption | right; split; [assumption | lia]].
Qed.

Lemma fold_splitStep_within lines maxLength ls : forall chunks cur,
  incl ls lines ->
  Forall (chunkWithinLimit lines maxLength) chunks ->
  cur = EmptyString \/ chunkWithinLimit lines maxLength cur ->
  Forall (chunkWithinLimit lines maxLength)
         (flushChunk (fold_left (splitStep maxLength) ls (chunks, cur))).
Proof.
  induction ls as [|l ls IH]; intros chunks cur Hincl Hchunks Hcur.
  - simpl. destruct (truthy cur) eqn:Ht; [|exact Hchunks].
    apply Forall_app. split; [exact Hchunks|]. constructor; [|constructor].
    destruct Hcur as [->|Hok]; [discriminate Ht | exact Hok].
  - cbn [fold_left].
    pose proof (splitStep_within lines maxLength chunks cur l
                  (Hincl l (or_introl eq_refl)) Hchunks Hcur) as [H1 H2].
    destruct (splitStep maxLength (chunks, cur) l) as [chunks' cur'].
    apply IH; [|exact H1|exact H2].
    intros x Hx. apply Hincl. now right.
Qed.

Lemma splitMessage_within text maxLength :
  Forall (chunkWithinLimit (split newline text) maxLength)
         (splitMessage text maxLength).
Proof.
  unfold splitMessage. cbv zeta.
  apply fold_splitStep_within; [apply incl_refl | constructor | now left].
Qed.

(** ** The lines that the chunks carry *)

Lemma split_append_sep sep a b :
  split sep (a +:+ String sep b) = split sep a ++ split sep b.
Proof.
  induction a as [|c a IH].
  - rewrite append_nil_l. simpl. now rewrite Ascii.eqb_refl.
  - rewrite append_cons. cbn [split]. rewrite IH.
    destruct (Ascii.eqb c sep); [reflexivity|].
    pose proof (split_not_nil sep a) as Hnil.
    destruct (split sep a) as [|p ps]; [congruence | reflexivity].
Qed.

Lemma split_without_sep sep line :
  allChars (notChar sep) line = true -> split sep line = [line].
Proof.
  induction line as [|c line IH]; intros H; [reflexivity|].
  cbn [allChars] in H. apply andb_prop in H. destruct H as [Hc Hrest].
  cbn [split]. unfold notChar in Hc. apply negb_true_iff in Hc.
  rewrite Hc, IH by exact Hrest. reflexivity.
Qed.

Lemma split_pieces_without_sep sep s :
  Forall (fun piece => allChars (notChar sep) piece = true) (split sep s).
Proof.
  induction s as [|c s IH]; cbn [split].
  - constructor; [reflexivity | constructor].
  - destruct (Ascii.eqb c sep) eqn:Hc.
    + constructor; [reflexivity | exact IH].
    + destruct (split sep s) as [|p ps]; [repeat constructor|].
      * cbn [allChars]. unfold notChar. now rewrite Hc.
      * inversion IH as [|? ? Hp Hps]; subst. constructor; [|exact Hps].
        cbn [allChars]. unfold notChar at 1. now rewrite Hc.
Qed.

Lemma nonEmptyLines_app l1 l2 :
  nonEmptyLines (l1 ++ l2) = nonEmptyLines l1 ++ nonEmptyLines l2.
Proof. unfold nonEmptyLines. induction l1 as [|x l1 IH]; simpl; [reflexivity|].
  destruct (truthy x); simpl; now rewrite IH. Qed.

Lemma linesOf_app c1 c2 : linesOf (c1 ++ c2) = linesOf c1 ++ linesOf c2.
Proof. unfold linesOf. induction c1 as [|x c1 IH]; simpl; [reflexivity|].
  now rewrite IH, app_assoc. Qed.

Lemma carried_flush st : nonEmptyLines (linesOf (flushChunk st)) = carried st.
Proof.
  destruct st as [chunks cur]. unfold carried, flushChunk. cbn [fst snd].
  destruct cur as [|c cur]; cbn [truthy].
  - now rewrite app_nil_r.
  - rewrite linesOf_app, nonEmptyLines_app. unfold linesOf at 2.
    cbn [flat_map]. now rewrite app_nil_r.
Qed.

Lemma splitStep_carried maxLength st line :
  allChars (notChar newline) line = true ->
  carried (splitStep maxLength st line) = carried st ++ nonEmptyLines [line].
Proof.
  intros Hline. destruct st as [chunks cur]. unfold splitStep.
  destruct (_ <=? maxLength)%Z.
  - unfold carried. cbn [fst snd]. rewrite <- app_assoc. f_equal.
    destruct cur as [|c cur]; cbn [truthy].
    + rewrite !append_nil_l. now rewrite split_without_sep by exact Hline.
    + change (nl +:+ line) with (String newline line).
      rewrite split_append_sep, nonEmptyLines_app.
      now rewrite (split_without_sep newline line) by exact Hline.
  - rewrite <- (carried_flush (chunks, cur)).
    unfold carried, flushChunk. cbn [fst snd].
    now rewrite (split_without_sep newline line) by exact Hline.
Qed.

Lemma fold_splitStep_carried maxLength lines : forall st,
  Forall (fun l => allChars (notChar newline) l = true) lines ->
  carried (fold_left (splitStep maxLength) lines st) =
  carried st ++ nonEmptyLines lines.
Proof.
  induction lines as [|l lines IH]; intros st Hall; cbn [fold_left].
  - unfold nonEmptyLines. simpl. now rewrite app_nil_r.
  - inversion Hall as [|? ? Hl Hrest]; subst.
    rewrite IH by exact Hrest. rewrite splitStep_carried by exact Hl.
    rewrite <- app_assoc. f_equal.
    change (l :: lines) with ([l] ++ lines). now rewrite nonEmptyLines_app.
Qed.

Lemma splitMessage_lines text maxLength :
  nonEmptyLines (linesOf (splitMessage text maxLength)) =
  nonEmptyLines (split newline text).
Proof.
  unfold splitMessage. cbv zeta. rewrite carried_flush.
  rewrite fold_splitStep_carried by apply split_pieces_without_sep.
  reflexivity.
Qed.

(** C3, as amended.  For every text and every [maxLength]: joining the
    chunks with newlines gives back the text when no line of the text is
    empty; in every case the non-empty lines carried by the chunks are, in
    order, the non-empty lines of the text (only empty lines can be lost);
    and every chunk has at most [maxLength] characters unless it is one whole
    line of the text that is itself longer than [maxLength]. *)
Theorem splitMessage_chunking :
  forall (text : string) (maxLength : Z),
    (Forall (fun l => l <> EmptyString) (split newline text) ->
     join nl (splitMessage text maxLength) = text) /\
    nonEmptyLines (linesOf (splitMessage text maxLength)) =
      nonEmptyLines (split newline text) /\
    Forall (chunkWithinLimit (split newline text) maxLength)
           (splitMessage text maxLength).
Proof.
  intros text maxLength. split; [apply splitMessage_join|].
  split; [apply splitMessage_lines | apply splitMessage_within].
Qed.

Lemma splitMessage_chunking_witness :
  join nl (splitMessage ("a" +:+ nl +:+ "bbbb") 4) = "a" +:+ nl +:+ "bbbb".
Proof.
  apply (proj1 (splitMessage_chunking ("a" +:+ nl +:+ "bbbb") 4)).
  vm_compute. repeat constructor; discriminate.
Defined.

(** C3, as stated, fails: a text that begins with an empty line loses it. *)
Lemma splitMessage_drops_leading_empty_line :
  ~ chunkingInvariant (nl +:+ "a") 4096.
Proof. intros [Hjoin _]. vm_compute in Hjoin. discriminate Hjoin. Qed.

(** The boundary scenario of the specification: the line of 4096 characters
    stays whole. *)
Example splitMessage_boundary :
  splitMessage ("a" +:+ nl +:+ replicate 4096 "b") 4096 =
  ["a"; replicate 4096 "b"].
Proof. vm_compute. reflexivity. Qed.

(* ================================================================== *)
(** * Properties of cosineSimilarity *)
(* ================================================================== *)

(** ** The tokens that a table holds *)

Lemma ownFreq_setFreq freq word v w :
  ownFreq (setFreq freq word v) w =
  if String.eqb word w then Some v else ownFreq freq w.
Proof.
  induction freq as [|[key count] rest IH]; cbn [setFreq ownFreq].
  - reflexivity.
  - destruct (String.eqb_spec key word) as [->|Hne]; cbn [ownFreq].
    + now destruct (String.eqb word w).
    + destruct (String.eqb_spec key w) as [->|Hkw].
      * apply String.eqb_neq in Hne. rewrite String.eqb_sym in Hne.
        now rewrite Hne.
      * exact IH.
Qed.

Lemma setFreq_keys freq word v w :
  In w (map fst (setFreq freq word v)) <-> w = word \/ In w (map fst freq).
Proof.
  induction freq as [|[key count] rest IH]; cbn [setFreq map fst In].
  - intuition.
  - destruct (String.eqb_spec key word) as [->|Hne]; cbn [map fst In];
      [|rewrite IH]; intuition.
Qed.

Lemma countWord_keys freq word w :
  In w (map fst (countWord freq word)) <->
  (w = word /\ word <> "__proto__") \/ In w (map fst freq).
Proof.
  unfold countWord. destruct (String.eqb_spec word "__proto__") as [->|Hne].
  - intuition.
  - rewrite setFreq_keys. intuition.
Qed.

Lemma buildFreq_keys_from words : forall freq w,
  In w (map fst (fold_left countWord words freq)) <->
  (In w words /\ w <> "__proto__") \/ In w (map fst freq).
Proof.
  induction words as [|x words IH]; intros freq w; cbn [fold_left In].
  - intuition.
  - rewrite IH, countWord_keys. intuition; subst; intuition.
Qed.

Lemma buildFreq_keys words w :
  In w (map fst (buildFreq words)) <-> In w words /\ w <> "__proto__".
Proof. unfold buildFreq. rewrite buildFreq_keys_from. cbn. intuition. Qed.

Lemma ownFreq_absent freq w :
  ~ In w (map fst freq) -> ownFreq freq w = None.
Proof.
  induction freq as [|[key count] rest IH]; cbn [map fst In ownFreq];
    [reflexivity|].
  intros Hnot. destruct (String.eqb_spec key w) as [->|Hne]; [tauto|].
  apply IH. tauto.
Qed.

Lemma insertIndex_elements n key sorted p :
  In p (insertIndex n key sorted) <-> p = (n, key) \/ In p sorted.
Proof.
  induction sorted as [|[m other] rest IH]; cbn [insertIndex In].
  - intuition.
  - destruct (n <? m); cbn [In]; [|rewrite IH]; intuition.
Qed.

Lemma indexKeys_elements freq p :
  In p (indexKeys freq) -> In (snd p) (map fst freq).
Proof.
  unfold indexKeys.
  assert (Hgen : forall sorted,
    In p (fold_left (fun sorted entry =>
                       match indexOfKey (fst entry) with
                       | Some n => insertIndex n (fst entry) sorted
                       | None => sorted
                       end) freq sorted) ->
    In p sorted \/ In (snd p) (map fst freq)).
  { induction freq as [|[key count] rest IH]; intros sorted Hin;
      cbn [fold_left map fst In] in *; [now left|].
    destruct (IH _ Hin) as [Hs|Hr]; [|now right; right].
    destruct (indexOfKey key) as [n|]; [|now left].
    apply insertIndex_elements in Hs. destruct Hs as [->|Hs]; [|now left].
    right. left. reflexivity. }
  intros Hin. destruct (Hgen [] Hin) as [[]|H]. exact H.
Qed.

(** [Object.keys] lists own keys only. *)
Lemma objectKeys_elements freq w :
  In w (objectKeys freq) -> In w (map fst freq).
Proof.
  unfold objectKeys. rewrite in_app_iff. intros [Hin|Hin].
  - apply in_map_iff in Hin. destruct Hin as (p & <- & Hp).
    now apply indexKeys_elements.
  - apply List.filter_In in Hin. tauto.
Qed.

Lemma addToSet_elements set x w :
  In w (addToSet set x) <-> w = x \/ In w set.
Proof.
  unfold addToSet. destruct (existsb (String.eqb x) set) eqn:Hex.
  - apply existsb_exists in Hex. destruct Hex as (y & Hy & Heq).
    apply String.eqb_eq in Heq. subst y. intuition. now subst.
  - rewrite in_app_iff. cbn [In]. intuition.
Qed.

Lemma newSet_elements_from l : forall set w,
  In w (fold_left addToSet l set) <-> In w l \/ In w set.
Proof.
  induction l as [|x l IH]; intros set w; cbn [fold_left In].
  - intuition.
  - rewrite IH, addToSet_elements. intuition.
Qed.

Lemma newSet_elements l w : In w (newSet l) <-> In w l.
Proof. unfold newSet. rewrite newSet_elements_from. cbn. intuition. Qed.

(** The words of the loop are tokens of the texts, and never [__proto__]. *)
Lemma uniqueWords_are_tokens words1 words2 words3 three w :
  In w (newSet (objectKeys (buildFreq words1) ++ objectKeys (buildFreq words2)
                ++ (if three : bool then objectKeys (buildFreq words3) else []))) ->
  In w (words1 ++ words2 ++ words3) /\ w <> "__proto__".
Proof.
  intros Hin. apply (proj1 (newSet_elements _ w)) in Hin.
  rewrite !in_app_iff in Hin. rewrite !in_app_iff.
  destruct Hin as [Hin|[Hin|Hin]].
  - apply objectKeys_elements, buildFreq_keys in Hin. tauto.
  - apply objectKeys_elements, buildFreq_keys in Hin. tauto.
  - destruct three; [|destruct Hin].
    apply objectKeys_elements, buildFreq_keys in Hin. tauto.
Qed.

(** ** No eligible token: the result is exactly zero *)

Lemma lookupFreq_empty w :
  inheritedName w = false -> toNumber (orZero (lookupFreq [] w)) = 0%float.
Proof. intros Hw. unfold lookupFreq. cbn [ownFreq]. now rewrite Hw. Qed.

Lemma fold_magnitude1_zero three freq2 freq3 words :
  Forall (fun w => inheritedName w = false) words ->
  forall s, magnitude1 s = 0%float ->
    magnitude1 (fold_left (accumulate three [] freq2 freq3) words s) = 0%float.
Proof.
  induction 1 as [|w words Hw _ IH]; intros s Hs; cbn [fold_left]; [exact Hs|].
  apply IH. unfold accumulate. cbn [magnitude1].
  rewrite (lookupFreq_empty w Hw), Hs. reflexivity.
Qed.

Lemma fold_magnitude2_zero three freq1 freq3 words :
  Forall (fun w => inheritedName w = false) words ->
  forall s, magnitude2 s = 0%float ->
    magnitude2 (fold_left (accumulate three freq1 [] freq3) words s) = 0%float.
Proof.
  induction 1 as [|w words Hw _ IH]; intros s Hs; cbn [fold_left]; [exact Hs|].
  apply IH. unfold accumulate. cbn [magnitude2].
  rewrite (lookupFreq_empty w Hw), Hs. reflexivity.
Qed.

Lemma similarityOfWords_zero words1 words2 words3 :
  forallb (fun word => negb (String.eqb word "constructor"))
          (words1 ++ words2 ++ words3) = true ->
  words1 = [] \/ words2 = [] ->
  similarityOfWords words1 words2 words3 = 0%float.
Proof.
  intros Hord Hempty. unfold similarityOfWords. cbv zeta.
  assert (Hw3 : (if nonEmptyList words3 then buildFreq words3 else [])
                = buildFreq words3) by now destruct words3.
  rewrite Hw3.
  set (uniqueWords := newSet _).
  assert (Hwords : Forall (fun w => inheritedName w = false) uniqueWords).
  { apply List.Forall_forall. intros w Hin.
    apply uniqueWords_are_tokens in Hin. destruct Hin as [Hin Hproto].
    rewrite forallb_forall in Hord. specialize (Hord w Hin).
    unfold inheritedName. apply negb_true_iff in Hord. rewrite Hord.
    now apply String.eqb_neq in Hproto as ->. }
  destruct Hempty as [-> | ->]; change (buildFreq []) with (@nil (string * FreqValue)).
  - rewrite fold_magnitude1_zero by (exact Hwords || reflexivity). reflexivity.
  - rewrite fold_magnitude2_zero by (exact Hwords || reflexivity).
    change (isZeroNumber (PrimFloat.sqrt 0)) with true.
    now rewrite orb_true_r.
Qed.

(** ** The sign of the result *)

Lemma binary_round_aux_notNegative m e l :
  notNegative (binary_round_aux prec emax false m e l) = true.
Proof.
  unfold binary_round_aux.
  destruct (shr_fexp prec emax m e l) as [mrs' e'].
  destruct (shr_fexp prec emax _ e' loc_Exact) as [mrs'' e''].
  destruct (shr_m mrs''); [reflexivity| |reflexivity].
  destruct (Z.leb _ _); reflexivity.
Qed.

Lemma SFadd_notNegative x y :
  notNegative x = true -> notNegative y = true ->
  notNegative (SFadd prec emax x y) = true.
Proof.
  destruct x as [[|]|[|]| |[|] mx ex], y as [[|]|[|]| |[|] my ey];
    cbn [notNegative negb]; try discriminate; try reflexivity.
  intros _ _. unfold SFadd. cbv zeta. cbn [cond_Zopp].
  destruct (shl_align mx ex _) as [ax ez1], (shl_align my ey _) as [ay ez2].
  cbn [fst]. change (Z.pos ax + Z.pos ay) with (Z.pos (ax + ay)).
  unfold binary_normalize, binary_round.
  destruct (shl_align _ _ _) as [mz ez].
  apply binary_round_aux_notNegative.
Qed.

Lemma SFmul_notNegative x y :
  notNegative x = true -> notNegative y = true ->
  notNegative (SFmul prec emax x y) = true.
Proof.
  destruct x as [[|]|[|]| |[|] mx ex], y as [[|]|[|]| |[|] my ey];
    cbn [notNegative negb]; try discriminate; try reflexivity.
  intros _ _. cbn [SFmul xorb]. apply binary_round_aux_notNegative.
Qed.

Lemma SFdiv_notNegative x y :
  notNegative x = true -> notNegative y = true ->
  notNegative (SFdiv prec emax x y) = true.
Proof.
  destruct x as [[|]|[|]| |[|] mx ex], y as [[|]|[|]| |[|] my ey];
    cbn [notNegative negb]; try discriminate; try reflexivity.
  intros _ _. cbn [SFdiv xorb].
  destruct (SFdiv_core_binary _ _ _ _ _ _) as [[mz ez] lz].
  apply binary_round_aux_notNegative.
Qed.

Lemma SFsqrt_notNegative x :
  notNegative x = true -> notNegative (SFsqrt prec emax x) = true.
Proof.
  destruct x as [[|]|[|]| |[|] mx ex];
    cbn [notNegative negb]; try discriminate; try reflexivity.
  intros _. cbn [SFsqrt].
  destruct (SFsqrt_core_binary _ _ _ _) as [[mz ez] lz].
  apply binary_round_aux_notNegative.
Qed.

Lemma add_signless x y :
  signless x -> signless y -> signless (PrimFloat.add x y).
Proof. unfold signless. rewrite FloatAxioms.add_spec. apply SFadd_notNegative. Qed.

Lemma mul_signless x y :
  signless x -> signless y -> signless (PrimFloat.mul x y).
Proof. unfold signless. rewrite FloatAxioms.mul_spec. apply SFmul_notNegative. Qed.

Lemma div_signless x y :
  signless x -> signless y -> signless (PrimFloat.div x y).
Proof. unfold signless. rewrite FloatAxioms.div_spec. apply SFdiv_notNegative. Qed.

Lemma sqrt_signless x : signless x -> signless (PrimFloat.sqrt x).
Proof. unfold signless. rewrite FloatAxioms.sqrt_spec. apply SFsqrt_notNegative. Qed.

Lemma floatMax_signless a b :
  signless a -> signless b -> signless (floatMax a b).
Proof.
  intros Ha Hb. unfold floatMax.
  destruct (PrimFloat.ltb a b); [exact Hb|].
  destruct (PrimFloat.ltb b a); [exact Ha|].
  destruct (PrimFloat.eqb a b); [|reflexivity].
  destruct (PrimFloat.classify a); assumption.
Qed.

Lemma signless_not_below_zero x :
  signless x -> PrimFloat.ltb x 0%float = false.
Proof.
  unfold signless. rewrite FloatAxioms.ltb_spec.
  change (Prim2SF 0%float) with (S754_zero false).
  destruct (Prim2SF x) as [[|]|[|]| |[|] m e];
    cbn [notNegative negb]; try discriminate; reflexivity.
Qed.

Lemma orZero_signless freq word :
  signlessTable freq -> signless (toNumber (orZero (lookupFreq freq word))).
Proof.
  intros Hall. unfold lookupFreq.
  assert (Hown : match ownFreq freq word with
                 | Some v => signless (toNumber v)
                 | None => True
                 end).
  { induction Hall as [|[key v] rest Hv _ IH]; cbn [ownFreq]; [exact I|].
    destruct (String.eqb key word); [exact Hv | exact IH]. }
  destruct (ownFreq freq word) as [[x|]|].
  - cbn [orZero]. destruct (truthyNumber x); [exact Hown | reflexivity].
  - reflexivity.
  - destruct (inheritedName word); reflexivity.
Qed.

Lemma plusOne_signless v :
  signless (toNumber v) -> signless (toNumber (plusOne v)).
Proof.
  destruct v as [x|]; cbn [plusOne toNumber]; [|trivial].
  intros Hx. apply add_signless; [exact Hx | reflexivity].
Qed.

Lemma setFreq_signless freq word v :
  signlessTable freq -> signless (toNumber v) ->
  signlessTable (setFreq freq word v).
Proof.
  intros Hall Hv. induction Hall as [|[key count] rest Hc Hrest IH];
    cbn [setFreq].
  - constructor; [exact Hv | constructor].
  - destruct (String.eqb key word); constructor; assumption.
Qed.

Lemma buildFreq_signless words : signlessTable (buildFreq words).
Proof.
  unfold buildFreq.
  assert (Hgen : forall freq, signlessTable freq ->
                   signlessTable (fold_left countWord words freq)).
  { induction words as [|w words IH]; intros freq Hf; cbn [fold_left];
      [exact Hf|].
    apply IH. unfold countWord. destruct (String.eqb w "__proto__"); [exact Hf|].
    apply setFreq_signless; [exact Hf|].
    apply plusOne_signless, orZero_signless, Hf. }
  apply Hgen. constructor.
Qed.

Lemma accumulate_signless three freq1 freq2 freq3 s word :
  signlessTable freq1 -> signlessTable freq2 -> signlessTable freq3 ->
  signlessSums s -> signlessSums (accumulate three freq1 freq2 freq3 s word).
Proof.
  intros H1 H2 H3 (Hd & Hm1 & Hm2 & Hm3).
  pose proof (orZero_signless freq1 word H1) as Ha.
  pose proof (orZero_signless freq2 word H2) as Hb.
  pose proof (orZero_signless freq3 word H3) as Hc.
  unfold signlessSums, accumulate.
  cbn [dotProduct magnitude1 magnitude2 magnitude3].
  repeat split.
  - destruct three; apply add_signless; try exact Hd;
      repeat (apply floatMax_signless || apply mul_signless); assumption.
  - apply add_signless; [|apply mul_signless]; assumption.
  - apply add_signless; [|apply mul_signless]; assumption.
  - destruct three; [|exact Hm3].
    apply add_signless; [|apply mul_signless]; assumption.
Qed.

Lemma fold_accumulate_signless three freq1 freq2 freq3 words :
  signlessTable freq1 -> signlessTable freq2 -> signlessTable freq3 ->
  forall s, signlessSums s ->
    signlessSums (fold_left (accumulate three freq1 freq2 freq3) words s).
Proof.
  intros H1 H2 H3. induction words as [|w words IH]; intros s Hs;
    cbn [fold_left]; [exact Hs|].
  apply IH. now apply accumulate_signless.
Qed.

Lemma similarityOfWords_signless words1 words2 words3 :
  signless (similarityOfWords words1 words2 words3).
Proof.
  unfold similarityOfWords. cbv zeta.
  set (freq3 := if nonEmptyList words3 then buildFreq words3 else []).
  assert (H3 : signlessTable freq3).
  { unfold freq3. destruct (nonEmptyList words3);
      [apply buildFreq_signless | constructor]. }
  match goal with |- context [fold_left ?f ?l noSums] =>
    destruct (fold_accumulate_signless (nonEmptyList words3)
                (buildFreq words1) (buildFreq words2) freq3 l
                (buildFreq_signless words1) (buildFreq_signless words2) H3
                noSums) as (Hd & Hm1 & Hm2 & Hm3);
      [repeat split; reflexivity|];
    set (sums := fold_left f l noSums) in *
  end.
  assert (Hs3 : signless (if nonEmptyList words3
                          then PrimFloat.sqrt (magnitude3 sums) else 1%float)).
  { destruct (nonEmptyList words3); [now apply sqrt_signless | reflexivity]. }
  destruct (_ || _ || _); [reflexivity|].
  destruct (negb _).
  - apply div_signless; [exact Hd|].
    apply mul_signless; now apply sqrt_signless.
  - apply div_signless; [exact Hd|].
    repeat apply floatMax_signless; apply mul_signless;
      try exact Hs3; now apply sqrt_signless.
Qed.

(** C4, as amended.  [cosineSimilarity] never returns a number below 0, and
    it returns exactly 0 when the first or the second text has no eligible
    token, no token of the texts being the word [constructor]. *)
Theorem cosineSimilarity_range :
  forall (text1 text2 : string) (text3 : option string),
    PrimFloat.ltb (cosineSimilarity text1 text2 text3) 0%float = false /\
    (ordinaryTokens text1 text2 text3 = true ->
     getWords (preprocessText text1) = [] \/
     getWords (preprocessText text2) = [] ->
     cosineSimilarity text1 text2 text3 = 0%float).
Proof.
  intros text1 text2 text3. split.
  - apply signless_not_below_zero. unfold cosineSimilarity. cbv zeta.
    apply similarityOfWords_signless.
  - intros Hord Hempty. unfold cosineSimilarity. cbv zeta.
    apply similarityOfWords_zero; [|exact Hempty].
    unfold ordinaryTokens, tokensOf in Hord.
    rewrite forallb_forall in Hord. apply forallb_forall. intros w Hin.
    apply Hord. rewrite !in_app_iff in Hin. rewrite !in_app_iff.
    destruct Hin as [Hin|[Hin|Hin]]; [now left | now right; left |].
    right; right. destruct text3 as [t|]; [|destruct Hin].
    destruct (truthy t); [exact Hin | destruct Hin].
Qed.

Lemma cosineSimilarity_range_witness :
  cosineSimilarity "a b" "the cat sat" None = 0%float.
Proof.
  apply (proj2 (cosineSimilarity_range "a b" "the cat sat" None)).
  - vm_compute. reflexivity.
  - left. vm_compute. reflexivity.
Defined.

(** C4, as stated, fails on the program's own arithmetic: three texts can
    score above 1, and rounding alone takes two identical texts above 1. *)
Lemma cosineSimilarity_three_texts_exceed_one :
  inUnitInterval (cosineSimilarity "aa" "aa bb" (Some "bb")) = false /\
  inUnitInterval (cosineSimilarity "aa bb cc" "aa bb cc" None) = false.
Proof. split; vm_compute; reflexivity. Qed.

(** The values of the two examples, and of identical texts in the scenario
    with three texts. *)
Example cosineSimilarity_identical_rounding :
  cosineSimilarity "aa" "aa bb" (Some "bb") = 0x1.6a09e667f3bccp+0%float /\
  cosineSimilarity "the cat sat" "the cat sat" (Some "the cat sat")
  = 0x1.0000000000001p+0%float /\
  cosineSimilarity "aa bb cc" "aa bb cc" None
  = 0x1.0000000000001p+0%float.
Proof. repeat split; vm_compute; reflexivity. Qed.

(** A token that names an inherited property of the tables is read as that
    property: the word [constructor] turns the result into NaN, also where
    a text has no token at all. *)
Example cosineSimilarity_inherited_name :
  PrimFloat.is_nan (cosineSimilarity "a b" "constructor" None) = true /\
  PrimFloat.is_nan (cosineSimilarity "constructor" "the cat" None) = true /\
  cosineSimilarity "__proto__" "the cat" None = 0%float.
Proof. repeat split; vm_compute; reflexivity. Qed.

(* ================================================================== *)
(** * Properties of composeContext *)
(* ================================================================== *)

Lemma bindL_ret_ret {A B C : Type} (m : Logged A) (f : A -> B) (g : B -> C) :
  bindL (bindL m (fun a => retL (f a))) (fun b => retL (g b)) =
  bindL m (fun a => retL (g (f a))).
Proof.
  destruct m as [[a|e] logs]; simpl; [|reflexivity].
  now rewrite !app_nil_r.
Qed.

Lemma fold_getNestedStep_throw platform path e :
  fold_left (getNestedStep platform) path (Throw e) = Throw e.
Proof. induction path as [|k path IH]; simpl; [reflexivity | exact IH]. Qed.

Lemma spanChars_run p run : forall rest,
  allChars p run = true ->
  match rest with
  | EmptyString => True
  | String c _ => p c = false
  end ->
  spanChars p (run +:+ rest) = (run, rest).
Proof.
  induction run as [|c run IH]; intros rest Hrun Hrest.
  - rewrite append_nil_l. destruct rest as [|c rest]; [reflexivity|].
    cbn [spanChars]. now rewrite Hrest.
  - cbn [allChars] in Hrun. apply andb_prop in Hrun. destruct Hrun as [Hc Hrun].
    rewrite append_cons. cbn [spanChars]. rewrite Hc.
    now rewrite IH.
Qed.

Lemma matchPlaceholder_text variable formatter post :
  truthy variable = true -> allChars variableChar variable = true ->
  formatterGroup formatter = true ->
  matchPlaceholder (placeholderText variable formatter +:+ post) =
  Some (variable, formatter).
Proof.
  intros Hv Hchars Hf. unfold placeholderText.
  rewrite !append_assoc.
  change ("{{" +:+ ?s) with (String "{" (String "{" s)).
  cbn [matchPlaceholder].
  destruct formatter as [name|].
  - cbn [formatterGroup] in Hf. apply andb_prop in Hf. destruct Hf as [Hn Hnchars].
    rewrite !append_assoc.
    change ("|" +:+ ?s) with (String "|" s).
    rewrite spanChars_run by (assumption || reflexivity).
    rewrite Hv.
    change ("}}" +:+ post) with (String "}" (String "}" post)).
    rewrite spanChars_run by (assumption || reflexivity).
    now rewrite Hn.
  - change ("}}" +:+ post) with (String "}" (String "}" post)).
    rewrite spanChars_run by (assumption || reflexivity).
    now rewrite Hv.
Qed.

Section ComposeContextProperties.

Variable platform : Platform.
Variable state defaultValues : value.
Variable formatters : gmap string (value -> string).

Abbreviation replaceHere := (replaceFrom platform state defaultValues formatters).

Lemma replaceFrom_skip passed : forall rest,
  replaceHere (String.length passed) (passed +:+ rest) = replaceHere 0 rest.
Proof.
  induction passed as [|c passed IH]; intros rest; [reflexivity|].
  rewrite append_cons. cbn [String.length replaceFrom]. apply IH.
Qed.

Lemma matchPlaceholder_needs_brace c rest :
  notOpenBrace c = true -> matchPlaceholder (String c rest) = None.
Proof.
  unfold notOpenBrace. intros Hc. apply negb_true_iff in Hc.
  destruct (Ascii.eqb_spec c "{"%char) as [->|Hne]; [discriminate|].
  destruct c as [[] [] [] [] [] [] [] []]; try reflexivity. congruence.
Qed.

Lemma matchPlaceholder_needs_two_braces c rest :
  notOpenBrace c ||
    match rest with
    | EmptyString => true
    | String d _ => notOpenBrace d
    end = true ->
  matchPlaceholder (String c rest) = None.
Proof.
  intros H. apply orb_true_iff in H.
  destruct H as [Hc|Hd]; [now apply matchPlaceholder_needs_brace|].
  destruct (Ascii.eqb_spec c "{"%char) as [->|Hne].
  - destruct rest as [|d rest]; [reflexivity|].
    unfold notOpenBrace in Hd. apply negb_true_iff in Hd.
    destruct (Ascii.eqb_spec d "{"%char) as [->|Hned]; [discriminate|].
    destruct d as [[] [] [] [] [] [] [] []]; try reflexivity. congruence.
  - apply matchPlaceholder_needs_brace. unfold notOpenBrace.
    now apply negb_true_iff, Ascii.eqb_neq.
Qed.

(** Literal text in front of a text that begins with an opening brace is
    copied as it is. *)
Lemma replaceFrom_literal pre : forall rest,
  literalText pre = true ->
  replaceHere 0 (pre +:+ rest) =
  bindL (replaceHere 0 rest) (fun tail => retL (pre +:+ tail)).
Proof.
  induction pre as [|c pre IH]; intros rest Hpre.
  - rewrite append_nil_l. destruct (replaceHere 0 rest) as [[t|e] logs]; simpl;
      [now rewrite app_nil_r | reflexivity].
  - cbn [literalText] in Hpre. apply andb_prop in Hpre. destruct Hpre as [Hc Hpre].
    rewrite append_cons. cbn [replaceFrom].
    rewrite matchPlaceholder_needs_two_braces.
    + rewrite IH by exact Hpre.
      exact (bindL_ret_ret _ (fun tail => pre +:+ tail) (String c)).
    + apply orb_true_iff in Hc. apply orb_true_iff.
      destruct Hc as [Hc|Hc]; [now left|right].
      destruct pre as [|d pre]; [discriminate Hc|].
      rewrite append_cons. exact Hc.
Qed.

(** A placeholder at the start of the text is handed to the callback and
    the search resumes behind it. *)
Lemma replaceFrom_placeholder variable formatter post :
  truthy variable = true -> allChars variableChar variable = true ->
  formatterGroup formatter = true ->
  replaceHere 0 (placeholderText variable formatter +:+ post) =
  bindL (replacer platform state defaultValues formatters
           (placeholderText variable formatter) variable formatter)
    (fun replacement =>
       bindL (replaceHere 0 post) (fun tail => retL (replacement +:+ tail))).
Proof.
  intros Hv Hchars Hf.
  assert (Hshape : exists body,
            placeholderText variable formatter = String "{" body).
  { unfold placeholderText. eexists. reflexivity. }
  destruct Hshape as [body Hbody].
  pose proof (matchPlaceholder_text variable formatter post Hv Hchars Hf) as Hm.
  assert (Hlen : (String.length (placeholderText variable formatter) - 1)%nat
                 = String.length body).
  { rewrite Hbody. cbn [String.length]. lia. }
  rewrite Hbody in Hm. rewrite Hbody at 1. rewrite append_cons in Hm |- *.
  cbn [replaceFrom]. rewrite Hm.
  now rewrite Hlen, replaceFrom_skip.
Qed.

(** The first placeholder of a template: the text in front of it is
    literal, its replacement comes from the callback and the rest of the
    template is composed behind it. *)
Lemma composeContext_first_placeholder pre variable formatter post :
  literalText pre = true ->
  truthy variable = true -> allChars variableChar variable = true ->
  formatterGroup formatter = true ->
  composeContext platform state defaultValues formatters
    (pre +:+ placeholderText variable formatter +:+ post) =
  bindL (replacer platform state defaultValues formatters
           (placeholderText variable formatter) variable formatter)
    (fun replacement =>
       bindL (composeContext platform state defaultValues formatters post)
         (fun tail => retL (pre +:+ replacement +:+ tail))).
Proof.
  intros Hpre Hv Hchars Hf. unfold composeContext.
  rewrite replaceFrom_literal by exact Hpre.
  rewrite replaceFrom_placeholder by assumption.
  destruct (replacer _ _ _ _ _ _ _) as [[replacement|e] logs]; [|reflexivity].
  cbn [bindL].
  destruct (replaceHere 0 post) as [[tail|e] logs']; cbn [bindL retL];
    rewrite ?app_nil_r; reflexivity.
Qed.

End ComposeContextProperties.


(** C7 at work on the code.  A state whose field [user] is [null] and a
    placeholder that goes on behind that field: the walk reads a property of
    [null], which raises.  No text is returned, no warning is written, and
    the default values are not consulted, whatever they hold. *)
Theorem composeContext_null_in_state_raises :
  forall (platform : Platform) (defaultValues : value)
         (formatters : gmap string (value -> string)),
    composeContext platform (VObj [("user", VNull)]) defaultValues formatters
      "Hi {{user.name}}!" =
    (Throw (TypeError "Cannot read properties of null (reading 'name')"), []).
Proof. intros platform defaultValues formatters. reflexivity. Qed.

(* ================================================================== *)
(** * Properties of the response-decision engine *)
(* ================================================================== *)

Section DecisionProperties.

Context {World : Type} (env : Env World).

Implicit Types (s : ClientState World) (message : Message) (state : value).

(** C5.  A message whose text mentions the handle of the agent gets RESPOND
    by the first rule: whatever the kind of chat and the chat state, the
    decision is [true], the only effect is the diagnostic of the mention,
    and no collaborator is called (the world and the chat states are
    unchanged). *)
Theorem mention_responds_by_rule_1 :
  forall message state s text,
    message_text message = Some text ->
    includes text ("@" +:+ botUsername env) = true ->
    _shouldRespond env message state s =
      (Ret true, afterLog s LInfo "Bot mentioned").
Proof.
  intros message state s text Htext Hmention.
  unfold _shouldRespond, _isMessageForMe, bind. rewrite Htext.
  unfold ret. rewrite Hmention. reflexivity.
Qed.

(** The context check on a chat state whose handler is unset. *)
Lemma unset_handler_declines message chatState :
  currentHandler chatState = None ->
  _shouldRespondBasedOnContext message chatState = false.
Proof. unfold _shouldRespondBasedOnContext. now intros ->. Qed.

(** In a group chat and without a mention, a chat state whose handler is
    unset answers the decision on its own. *)
Lemma shouldRespond_unset_handler message state s text chatState :
  message_text message = Some text ->
  includes text ("@" +:+ botUsername env) = false ->
  String.eqb (chat_type (message_chat message)) "private" = false ->
  interestChats s !! ofZ (chat_id (message_chat message)) = Some chatState ->
  currentHandler chatState = None ->
  _shouldRespond env message state s = (Ret false, s).
Proof.
  intros Htext Hmention Hgroup Hchat Hunset.
  unfold _shouldRespond, _isMessageForMe, bind. rewrite Htext.
  unfold ret. rewrite Hmention, Hgroup.
  unfold getChat. rewrite Hchat.
  now rewrite unset_handler_declines.
Qed.

(** C1, what the code does.  In a group chat and without a mention, a chat
    state answers the decision on its own, whether or not its handler is
    set: the decision is the result of the context check (rule 3), the state
    is unchanged and no collaborator is called.  With an unset handler that
    result is [false], even though the message carries text: the delegation
    to the generation service that the claim describes does not take place. *)
Theorem tracked_chat_is_not_delegated :
  forall message state s text chatState,
    message_text message = Some text ->
    includes text ("@" +:+ botUsername env) = false ->
    String.eqb (chat_type (message_chat message)) "private" = false ->
    interestChats s !! ofZ (chat_id (message_chat message)) = Some chatState ->
    currentHandler chatState = None ->
    truthy (messageTextOf message) = true ->
    _shouldRespond env message state s =
      (Ret (_shouldRespondBasedOnContext message chatState), s) /\
    _shouldRespondBasedOnContext message chatState = false.
Proof.
  intros message state s text chatState Htext Hmention Hgroup Hchat Hunset _.
  rewrite (shouldRespond_unset_handler message state s text chatState)
    by assumption.
  now rewrite unset_handler_declines.
Qed.

(** [trackMessage] gives a chat state to the chat of every message with
    text, before the decision is taken. *)
Lemma trackMessage_tracks from chatId messageText s :
  truthy chatId = true -> truthy messageText = true ->
  exists s',
    trackMessage env from (Some chatId) messageText s = (Ret tt, s') /\
    trace s' = trace s /\
    exists chatState,
      interestChats s' !! chatId = Some chatState /\
      currentHandler chatState =
        match interestChats s !! chatId with
        | Some known => currentHandler known
        | None => None
        end.
Proof.
  intros Hc Ht. unfold trackMessage. rewrite Hc, Ht. cbn [andb].
  unfold bind, getChat, observe, setChat.
  destruct (Date_now env (world s)) as [now w] eqn:Hnow.
  cbn [world interestChats trace].
  eexists. split; [reflexivity|]. split; [reflexivity|].
  cbn [interestChats]. rewrite lookup_insert_eq.
  eexists. split; [reflexivity|].
  cbn [currentHandler]. now destruct (interestChats s !! chatId).
Qed.

(** ** Failures of the generation service *)

Lemma askModel_raises context s :
  serviceRaises env context s ->
  exists e s1, askModel env context s = (Throw e, s1).
Proof.
  unfold serviceRaises, askModel. run_steps.
  destruct (Date_now env (world s)) as [now w0].
  run_steps.
  destruct (createMemory env _ w0) as [[[]|e1] w1];
    [|intros _; eexists; eexists; reflexivity].
  run_steps.
  destruct (composeState env _ w1) as [[st|e2] w2];
    [|intros _; eexists; eexists; reflexivity].
  run_steps.
  destruct (searchMemoriesByEmbedding env _ _ w2) as [[resp|e3] w3];
    [intros [] | intros _; eexists; eexists; reflexivity].
Qed.

Lemma generateShouldRespond_caught context s e s1 :
  askModel env context s = (Throw e, s1) ->
  generateShouldRespond env context s =
    (Ret "IGNORE", afterLog s1 LError "Error generating should-respond decision:").
Proof.
  intros Hask. unfold generateShouldRespond, tryCatch, bind. rewrite Hask.
  reflexivity.
Qed.

(** The fourth rule, once it is reached. *)
Lemma shouldRespond_rule_4 message state s text :
  message_text message = Some text ->
  includes text ("@" +:+ botUsername env) = false ->
  String.eqb (chat_type (message_chat message)) "private" = false ->
  interestChats s !! ofZ (chat_id (message_chat message)) = None ->
  truthy text = true ->
  _shouldRespond env message state s =
    (let* context := shouldRespondContext env state in
     let* response := generateShouldRespond env context in
     ret (String.eqb response "RESPOND")) s.
Proof.
  intros Htext Hmention Hgroup Hchat Htruthy.
  unfold _shouldRespond, _isMessageForMe. unfold bind at 1. rewrite Htext.
  unfold ret at 1. rewrite Hmention, Hgroup.
  unfold bind at 1, getChat. rewrite Hchat.
  unfold messageTextOf. rewrite Htext, Htruthy. reflexivity.
Qed.

(** C2.  When one of the awaited calls of the decision call raises, the
    exception is caught: [generateShouldRespond] returns IGNORE, and the
    decision function, which reached the call by its fourth rule, returns
    [false] (IGNORE), never [true]. *)
Theorem generation_failure_is_ignore :
  forall message state s text context s1,
    message_text message = Some text ->
    includes text ("@" +:+ botUsername env) = false ->
    String.eqb (chat_type (message_chat message)) "private" = false ->
    interestChats s !! ofZ (chat_id (message_chat message)) = None ->
    truthy text = true ->
    shouldRespondContext env state s = (Ret context, s1) ->
    serviceRaises env context s1 ->
    exists s2,
      generateShouldRespond env context s1 = (Ret "IGNORE", s2) /\
      _shouldRespond env message state s = (Ret false, s2).
Proof.
  intros message state s text context s1 Htext Hmention Hgroup Hchat Htruthy
         Hcontext Hraises.
  destruct (askModel_raises context s1 Hraises) as (e & s2 & Hask).
  pose proof (generateShouldRespond_caught context s1 e s2 Hask) as Hgen.
  eexists. split; [exact Hgen|].
  rewrite (shouldRespond_rule_4 message state s text) by assumption.
  unfold bind at 1. rewrite Hcontext.
  unfold bind at 1. rewrite Hgen. reflexivity.
Qed.

(** [generateShouldRespond] itself never raises and answers with one of the
    two tokens. *)
Lemma generateShouldRespond_total context s :
  exists decision s',
    generateShouldRespond env context s = (Ret decision, s') /\
    (decision = "RESPOND" \/ decision = "IGNORE").
Proof.
  unfold generateShouldRespond, tryCatch. unfold bind at 1.
  destruct (askModel env context s) as [[response|e] s1].
  - unfold readDecision.
    destruct (String.eqb_spec (orIgnore (modelOutput response)) "RESPOND") as [Hr|Hr];
      cbn [negb andb].
    + unfold bind, logM, emit, ret. rewrite Hr. eauto.
    + destruct (String.eqb_spec (orIgnore (modelOutput response)) "IGNORE") as [Hi|Hi];
        cbn [negb]; unfold bind, logM, emit, ret; [rewrite Hi|]; eauto.
  - unfold bind, logM, emit, ret. eauto.
Qed.

(** ** Outputs outside the token set *)

(** C6, as amended.  When the service answers and its trimmed, upper-cased
    output is a non-empty text other than RESPOND and IGNORE, the result is
    IGNORE and a warning that quotes the output is written; when the output
    is empty or missing, the result is IGNORE by default and the diagnostic
    is the ordinary debug line, not a warning. *)
Theorem malformed_output_is_ignore :
  forall context s response s1,
    askModel env context s = (Ret response, s1) ->
    (forall output,
       modelOutput response = Some output ->
       truthy output = true -> output <> "RESPOND" -> output <> "IGNORE" ->
       generateShouldRespond env context s =
         (Ret "IGNORE",
          afterLog s1 LWarn ("Invalid response from model: " +:+ output +:+
                           ". Defaulting to IGNORE"))) /\
    (outputToken response = EmptyString ->
     generateShouldRespond env context s =
       (Ret "IGNORE", afterLog s1 LDebug "Should respond decision: IGNORE")).
Proof.
  intros context s response s1 Hask. split.
  - intros output Hout Htruthy Hr Hi.
    unfold generateShouldRespond, tryCatch. unfold bind at 1. rewrite Hask.
    unfold readDecision. rewrite Hout. cbn [orIgnore]. rewrite Htruthy.
    apply String.eqb_neq in Hr, Hi. rewrite Hr, Hi. reflexivity.
  - intros Hempty.
    unfold generateShouldRespond, tryCatch. unfold bind at 1. rewrite Hask.
    unfold readDecision. unfold outputToken in Hempty.
    destruct (modelOutput response) as [output|]; [subst output|]; reflexivity.
Qed.

End DecisionProperties.

(* ================================================================== *)
(** * Properties of the dispatch pipeline *)
(* ================================================================== *)

Section PipelineProperties.

Context {World : Type} (env : Env World).

Implicit Types (s : ClientState World) (message : Message) (state : value).

(** ** Sending in chunks *)

Lemma sendsFrom_later chatId replyTo i chunks :
  sendsFrom chatId replyTo (S i) chunks =
  map (fun chunk => EvSendMessage chatId chunk None) chunks.
Proof.
  revert i. induction chunks as [|c chunks IH]; intros i; [reflexivity|].
  cbn [sendsFrom map]. rewrite IH.
  unfold replyParameters. now destruct replyTo.
Qed.

Lemma sendsFrom_expected chatId replyTo chunks :
  replyTo <> 0 ->
  sendsFrom chatId (Some replyTo) 0 chunks = expectedSends chatId replyTo chunks.
Proof.
  intros Hid. destruct chunks as [|c chunks]; [reflexivity|].
  cbn [sendsFrom expectedSends]. rewrite sendsFrom_later.
  unfold replyParameters. apply Z.eqb_neq in Hid. now rewrite Hid.
Qed.

Lemma sendChunks_delivers ctx chat replyTo :
  transportDelivers env -> ctx_chat ctx = Some chat ->
  forall chunks i sent s,
    exists more s',
      sendChunks env ctx replyTo i chunks sent s = (Ret (sent ++ more), s') /\
      List.length more = List.length chunks /\
      trace s' = trace s ++ sendsFrom (chat_id chat) replyTo i chunks /\
      interestChats s' = interestChats s.
Proof.
  intros Hsend Hchat.
  induction chunks as [|c chunks IH]; intros i sent s.
  - exists [], s. cbn [sendChunks sendsFrom]. unfold ret.
    now rewrite !app_nil_r.
  - cbn [sendChunks sendsFrom]. rewrite Hchat. run_steps.
    destruct (Hsend (chat_id chat) c (replyParameters replyTo i) (world s))
      as (m & w' & Hm).
    rewrite Hm.
    match goal with |- context [sendChunks _ _ _ _ _ _ ?s1] =>
      destruct (IH (S i) (sent ++ [m]) s1) as (more & s' & Hrun & Hlen & Htr & Hic)
    end.
    exists (m :: more), s'. rewrite Hrun.
    cbn [trace interestChats] in Htr, Hic.
    repeat split.
    + now rewrite <- app_assoc.
    + cbn [List.length]. now rewrite Hlen.
    + rewrite Htr. now rewrite <- app_assoc.
    + exact Hic.
Qed.

(** ** Recording the sent chunks *)

Lemma memoriesFrom_lookup content roomId messageId total sent : forall i k memory,
  memoriesFrom env content roomId messageId total i sent !! k = Some memory ->
  exists m,
    sent !! k = Some m /\
    memory = sentMemory env content roomId messageId m (i + k =? total - 1)%nat.
Proof.
  induction sent as [|m sent IH]; intros i k memory Hk; [discriminate|].
  destruct k as [|k]; cbn in Hk.
  - injection Hk as <-. exists m. split; [reflexivity|]. now rewrite Nat.add_0_r.
  - destruct (IH (S i) k memory Hk) as (m' & Hm' & ->).
    exists m'. split; [exact Hm'|]. now rewrite Nat.add_succ_r.
Qed.

Lemma memoriesFrom_length content roomId messageId total sent : forall i,
  List.length (memoriesFrom env content roomId messageId total i sent)
  = List.length sent.
Proof. induction sent as [|m sent IH]; intros i; cbn; [reflexivity | now rewrite IH]. Qed.

Lemma recordSent_stores content roomId messageId total :
  storeAccepts env ->
  forall sent i memories s,
    exists s',
      recordSent env content roomId messageId total i sent memories s =
        (Ret (memories ++ memoriesFrom env content roomId messageId total i sent), s') /\
      trace s' =
        trace s ++
        map EvCreateMemory (memoriesFrom env content roomId messageId total i sent).
Proof.
  intros Hstore.
  induction sent as [|m sent IH]; intros i memories s.
  - exists s. cbn [recordSent memoriesFrom map]. unfold ret.
    now rewrite !app_nil_r.
  - cbn [recordSent memoriesFrom]. run_steps.
    match goal with |- context [createMemory env ?mem (world s)] =>
      destruct (Hstore mem (world s)) as (w' & Hw); rewrite Hw
    end.
    match goal with |- context [recordSent _ _ _ _ _ _ _ ?ms ?s1] =>
      destruct (IH (S i) ms s1) as (s' & Hrun & Htr)
    end.
    exists s'. rewrite Hrun. split; [now rewrite <- app_assoc|].
    rewrite Htr. cbn [trace map]. now rewrite <- app_assoc.
Qed.

Lemma filter_isSend_memories memories :
  List.filter isSend (map EvCreateMemory memories) = [].
Proof. induction memories as [|m memories IH]; [reflexivity | exact IH]. Qed.

(** C9.  When the transport delivers and the store accepts: the chunks of
    the response are sent one after the other in their order, the first one
    as a reply to the inbound message and the others without reply
    parameters; then one memory is created in the store per sent chunk, in
    order and with nothing in between, with the text of the sent message;
    every created memory but the last has the action CONTINUE and the last
    one keeps the action of the response. *)
Theorem chunks_threading_and_continuation :
  forall ctx chat message roomId messageId content s,
    transportDelivers env -> storeAccepts env ->
    ctx_chat ctx = Some chat -> message_id message <> 0 ->
    let chunks :=
      splitMessage_client (firstTruthy (content_text content) EmptyString) 4096 in
    exists sentMessages memories s1 s2,
      sendMessageInChunks env ctx content (Some (message_id message)) s
        = (Ret sentMessages, s1) /\
      trace s1 = trace s ++ expectedSends (chat_id chat) (message_id message) chunks /\
      List.length sentMessages = List.length chunks /\
      callback env ctx message roomId messageId content s = (Ret memories, s2) /\
      trace s2 = trace s1 ++ map EvCreateMemory memories /\
      List.filter isSend (trace s2) = List.filter isSend (trace s1) /\
      List.length memories = List.length sentMessages /\
      forall i memory,
        memories !! i = Some memory ->
        content_action (memory_content memory) =
          (if (i =? List.length memories - 1)%nat
           then content_action content else Some "CONTINUE") /\
        exists sentMessage,
          sentMessages !! i = Some sentMessage /\
          content_text (memory_content memory) = message_text sentMessage.
Proof.
  intros ctx chat message roomId messageId content s Hsend Hstore Hchat Hid chunks.
  destruct (sendChunks_delivers ctx chat (Some (message_id message)) Hsend Hchat
              chunks 0%nat [] s) as (sent & s1 & Hrun & Hlen & Htr & _).
  cbn [app] in Hrun.
  destruct (recordSent_stores content roomId messageId (List.length sent) Hstore
              sent 0%nat [] s1) as (s2 & Hrec & Hcreated).
  cbn [app] in Hrec.
  exists sent, (memoriesFrom env content roomId messageId (List.length sent) 0 sent), s1, s2.
  split; [exact Hrun|].
  split; [rewrite Htr, sendsFrom_expected by exact Hid; reflexivity|].
  split; [exact Hlen|].
  split.
  { unfold callback. unfold bind at 1.
    unfold sendMessageInChunks in Hrun |- *. fold chunks. rewrite Hrun.
    exact Hrec. }
  split; [exact Hcreated|].
  split.
  { rewrite Hcreated, List.filter_app, filter_isSend_memories.
    now rewrite app_nil_r. }
  split; [apply memoriesFrom_length|].
  intros i memory Hi.
  apply memoriesFrom_lookup in Hi. destruct Hi as (m & Hm & ->).
  rewrite memoriesFrom_length. cbn [sentMemory memory_content content_action content_text].
  split; [|exists m; split; [exact Hm | reflexivity]].
  cbn [Nat.add]. now destruct (i =? List.length sent - 1)%nat.
Qed.

(** ** Confinement of the steps of the pipeline *)

Section Confinement.

Variable P : gmap string ChatState -> Prop.
Variable bad : Event -> bool.

Lemma noneOf_app evs1 evs2 :
  noneOf bad evs1 -> noneOf bad evs2 -> noneOf bad (evs1 ++ evs2).
Proof. unfold noneOf. intros H1 H2. now rewrite forallb_app, H1, H2. Qed.

Lemma confined_same {A : Type} (m : M World A) :
  (forall s, exists r, m s = (r, s)) -> confined P bad m.
Proof.
  intros Hm s r s' HP H. destruct (Hm s) as (r0 & Hr). rewrite Hr in H.
  injection H as <- <-. split; [exact HP|].
  exists []. split; [now rewrite app_nil_r | reflexivity].
Qed.

Lemma confined_ret {A : Type} (a : A) :
  confined P bad (ret (World := World) a).
Proof. apply confined_same. intros s. now eexists. Qed.

Lemma confined_throw {A : Type} (e : exn) :
  confined P bad (throw (World := World) (A := A) e).
Proof. apply confined_same. intros s. now eexists. Qed.

Lemma confined_getChat chatId : confined P bad (getChat (World := World) chatId).
Proof. apply confined_same. intros s. now eexists. Qed.

Lemma confined_bind {A B : Type} (m : M World A) (k : A -> M World B) :
  confined P bad m -> (forall a, confined P bad (k a)) ->
  confined P bad (bind m k).
Proof.
  intros Hm Hk s r s' HP H. unfold bind in H.
  destruct (m s) as [[a|e] s1] eqn:Hms.
  - destruct (Hm _ _ _ HP Hms) as (HP1 & evs1 & Ht1 & Hu1).
    destruct (Hk a _ _ _ HP1 H) as (HP2 & evs2 & Ht2 & Hu2).
    split; [exact HP2|].
    exists (evs1 ++ evs2). split; [|now apply noneOf_app].
    now rewrite Ht2, Ht1, app_assoc.
  - injection H as <- <-. exact (Hm _ _ _ HP Hms).
Qed.

Lemma confined_raises_bind {A B : Type} (m : M World A) (k : A -> M World B) :
  raisesAtOnce m -> confined P bad (bind m k).
Proof.
  intros Hm. apply confined_same. intros s. unfold bind.
  destruct (Hm s) as (e & ->). now eexists.
Qed.

Lemma confined_tryCatch {A : Type} (body : M World A) (handler : exn -> M World A) :
  confined P bad body -> (forall e, confined P bad (handler e)) ->
  confined P bad (tryCatch body handler).
Proof.
  intros Hb Hh s r s' HP H. unfold tryCatch in H.
  destruct (body s) as [[a|e] s1] eqn:Hbs.
  - injection H as <- <-. exact (Hb _ _ _ HP Hbs).
  - destruct (Hb _ _ _ HP Hbs) as (HP1 & evs1 & Ht1 & Hu1).
    destruct (Hh e _ _ _ HP1 H) as (HP2 & evs2 & Ht2 & Hu2).
    split; [exact HP2|].
    exists (evs1 ++ evs2). split; [|now apply noneOf_app].
    now rewrite Ht2, Ht1, app_assoc.
Qed.

Lemma confined_emit (e : Event) :
  bad e = false -> confined P bad (emit (World := World) e).
Proof.
  intros He s r s' HP H. injection H as <- <-. split; [exact HP|].
  exists [e]. split; [reflexivity|]. unfold noneOf. cbn. now rewrite He.
Qed.

Lemma confined_call {A : Type} (e : Event) (f : Oracle World A) :
  bad e = false -> confined P bad (call e f).
Proof.
  intros He. unfold call. apply confined_bind; [now apply confined_emit|].
  intros _ s r s' HP H. destruct (f (world s)) as [r0 w].
  injection H as <- <-. split; [exact HP|].
  exists []. split; [now rewrite app_nil_r | reflexivity].
Qed.

Lemma confined_observe {A : Type} (f : World -> A * World) :
  confined P bad (observe f).
Proof.
  intros s r s' HP H. unfold observe in H. destruct (f (world s)) as [a w].
  injection H as <- <-. split; [exact HP|].
  exists []. split; [now rewrite app_nil_r | reflexivity].
Qed.

Lemma confined_liftLogged {A : Type} (m : Logged A) :
  (forall lvl msg, bad (EvLog lvl msg) = false) ->
  confined P bad (liftLogged (World := World) m).
Proof.
  intros Hlog s r s' HP H. injection H as <- <-. split; [exact HP|].
  eexists. split; [reflexivity|]. unfold noneOf.
  induction (snd m) as [|d ds IH]; cbn; [reflexivity|]. now rewrite Hlog, IH.
Qed.

End Confinement.

Create HintDb confined.

#[local] Hint Resolve confined_ret confined_throw confined_observe
  confined_getChat : confined.
#[local] Hint Extern 1 (confined _ _ (bind _ _)) =>
  apply confined_bind; [|intros ?] : confined.
#[local] Hint Extern 1 (confined _ _ (tryCatch _ _)) =>
  apply confined_tryCatch; [|intros ?] : confined.
#[local] Hint Extern 1 (confined _ _ (call _ _)) =>
  apply confined_call; reflexivity : confined.
#[local] Hint Extern 1 (confined _ _ (logM _ _)) =>
  apply confined_emit; reflexivity : confined.

Section ImageProcessing.

Variable P : gmap string ChatState -> Prop.
Variable bad : Event -> bool.

(** The events of the image processing are none of the [bad] ones. *)
Hypothesis bad_log : forall lvl msg, bad (EvLog lvl msg) = false.
Hypothesis bad_link : forall f, bad (EvGetFileLink f) = false.
Hypothesis bad_describe : forall u, bad (EvDescribeImage u) = false.

Lemma confined_processImage message : confined P bad (processImage env message).
Proof.
  unfold processImage.
  apply confined_tryCatch;
    [|intros e; apply confined_bind;
        [apply confined_emit, bad_log | intros _; apply confined_ret]].
  destruct (imageFileId message) as [fileId|]; [|apply confined_ret].
  apply confined_bind; [apply confined_call, bad_link|]. intros imageUrl.
  destruct (truthy imageUrl); [|apply confined_ret].
  destruct (imageDescriptionService env); [|apply confined_ret].
  apply confined_bind; [apply confined_call, bad_describe|].
  intros described. apply confined_ret.
Qed.

End ImageProcessing.

(** ** Messages without a text field *)

Lemma isMessageForMe_raises message :
  message_text message = None -> raisesAtOnce (_isMessageForMe env message).
Proof. intros Htext s. unfold _isMessageForMe. rewrite Htext. eexists. reflexivity. Qed.

Lemma shouldRespond_raises message state :
  message_text message = None -> raisesAtOnce (_shouldRespond env message state).
Proof.
  intros Htext s. unfold _shouldRespond, bind.
  destruct (isMessageForMe_raises message Htext s) as (e & ->). now exists e.
Qed.

Lemma processMessage_textless ctx message from chatId messageText :
  message_text message = None ->
  confined (fun _ => True) afterDecision
    (processMessage env ctx message from chatId messageText).
Proof.
  intros Htext. unfold processMessage. cbv zeta.
  apply confined_bind; [auto with confined|]. intros _.
  apply confined_bind; [now apply confined_processImage|]. intros imageInfo.
  match goal with |- confined _ _ (if ?c then _ else _) => destruct c end;
    [auto with confined|].
  apply confined_bind; [auto with confined|]. intros _.
  apply confined_bind; [auto with confined|]. intros state0.
  apply confined_bind; [auto with confined|]. intros state.
  apply confined_raises_bind. now apply shouldRespond_raises.
Qed.

Lemma trackMessage_returns from chatId messageText s :
  exists s',
    trackMessage env from chatId messageText s = (Ret tt, s') /\
    trace s' = trace s.
Proof.
  unfold trackMessage. destruct chatId as [chatId|]; [|now eexists].
  destruct (_ && _); [|now eexists].
  run_steps. destruct (Date_now env (world s)). now eexists.
Qed.

(** The catch-all: [handleMessage] ends normally whatever happens inside. *)
Lemma handleMessage_returns ctx s :
  exists s', handleMessage env ctx s = (Ret tt, s').
Proof.
  unfold handleMessage.
  destruct (ctx_message ctx) as [message|]; [|eexists; reflexivity].
  destruct (ctx_from ctx) as [from|]; [|eexists; reflexivity].
  destruct (_ && is_bot from); [eexists; reflexivity|].
  destruct (_ && _); [eexists; reflexivity|].
  cbv zeta. unfold bind at 1.
  match goal with |- context [trackMessage env ?f ?c ?t s] =>
    destruct (trackMessage_returns f c t s) as (s1 & -> & _)
  end.
  unfold tryCatch.
  destruct (processMessage env ctx message from _ _ s1) as [[[]|e] s2];
    eexists; reflexivity.
Qed.

(** C10.  A message without a [text] field makes the mention check raise:
    [_isMessageForMe] raises, so [_shouldRespond] raises at its first step
    with the state untouched, whatever the caption says; no later rule is
    tried and the generation service is not asked.  In [handleMessage] the
    exception ends in the catch-all: the handler returns normally and
    nothing that follows a decision (a send, the actions, the evaluation) has
    happened. *)
Theorem textless_message_raises_in_mention_check :
  forall message,
    message_text message = None ->
    raisesAtOnce (_isMessageForMe env message) /\
    (forall state, raisesAtOnce (_shouldRespond env message state)) /\
    (forall ctx s,
       ctx_message ctx = Some message ->
       exists s' evs,
         handleMessage env ctx s = (Ret tt, s') /\
         trace s' = trace s ++ evs /\ undecided evs).
Proof.
  intros message Htext.
  split; [now apply isMessageForMe_raises|].
  split; [intros state; now apply shouldRespond_raises|].
  intros ctx s Hctx.
  destruct (handleMessage_returns ctx s) as (s' & Hrun).
  exists s'.
  assert (Hquiet : confined (fun _ => True) afterDecision (handleMessage env ctx)).
  { unfold handleMessage. rewrite Hctx.
    destruct (ctx_from ctx) as [from|]; [|auto with confined].
    destruct (_ && is_bot from); [auto with confined|].
    destruct (_ && _); [auto with confined|].
    cbv zeta. apply confined_bind.
    - intros s0 r0 s0' _ H0.
      match type of H0 with trackMessage env ?f ?c ?t s0 = _ =>
        destruct (trackMessage_returns f c t s0) as (s1 & Hs1 & Htr)
      end.
      rewrite Hs1 in H0. injection H0 as <- <-. split; [exact I|].
      exists []. split; [now rewrite app_nil_r | reflexivity].
    - intros _. apply confined_tryCatch; [now apply processMessage_textless|].
      intros e. auto with confined. }
  destruct (Hquiet _ _ _ I Hrun) as (_ & evs & Htr & Hu).
  exists evs. auto.
Qed.

(** ** The reach of the generation service from the pipeline *)

Lemma ofZ_truthy z : truthy (ofZ z) = true.
Proof.
  unfold ofZ. destruct (Z.to_int z) as [d|d]; [|reflexivity].
  destruct d; reflexivity.
Qed.

Lemma processMessage_unset_handler ctx message from chatId messageText text :
  message_text message = Some text ->
  includes text ("@" +:+ botUsername env) = false ->
  String.eqb (chat_type (message_chat message)) "private" = false ->
  confined (trackedUnset (ofZ (chat_id (message_chat message)))) asksOrSends
    (processMessage env ctx message from chatId messageText).
Proof.
  intros Htext Hmention Hgroup. unfold processMessage. cbv zeta.
  apply confined_bind; [auto with confined|]. intros _.
  apply confined_bind; [now apply confined_processImage|]. intros imageInfo.
  match goal with |- confined _ _ (if ?c then _ else _) => destruct c end;
    [auto with confined|].
  apply confined_bind; [auto with confined|]. intros _.
  apply confined_bind; [auto with confined|]. intros state0.
  apply confined_bind; [auto with confined|]. intros state.
  intros s r s' HP H. unfold bind in H at 1.
  destruct HP as (chatState & Hchat & Hunset).
  rewrite (shouldRespond_unset_handler env message state s text chatState)
    in H by assumption.
  revert H. apply confined_call; [reflexivity | now exists chatState].
Qed.

(** X22.  As long as no chat has a handler set, a group message with text and
    without a mention never reaches the generation service: the tracking
    that precedes the decision has given its chat a state, and that state
    answers.  The handler returns normally, the model is not asked and
    nothing is sent. *)
Theorem group_text_never_reaches_generation :
  forall ctx message from s text,
    ctx_message ctx = Some message -> ctx_from ctx = Some from ->
    ctx_chat ctx = Some (message_chat message) ->
    message_text message = Some text -> truthy text = true ->
    includes text ("@" +:+ botUsername env) = false ->
    String.eqb (chat_type (message_chat message)) "private" = false ->
    (forall chatId chatState,
       interestChats s !! chatId = Some chatState ->
       currentHandler chatState = None) ->
    exists s' evs,
      handleMessage env ctx s = (Ret tt, s') /\
      trace s' = trace s ++ evs /\ noneOf asksOrSends evs.
Proof.
  intros ctx message from s text Hmsg Hfrom Hchat Htext Htruthy Hmention Hgroup
         Hunset.
  destruct (handleMessage_returns ctx s) as (s' & Hrun).
  exists s'. revert Hrun.
  unfold handleMessage. rewrite Hmsg, Hfrom, Hchat.
  destruct (_ && is_bot from);
    [intros H; injection H as <-; exists []; now rewrite app_nil_r|].
  destruct (_ && _);
    [intros H; injection H as <-; exists []; now rewrite app_nil_r|].
  cbv zeta. cbn [option_map]. unfold bind at 1.
  assert (Hmt : messageTextOf message = text)
    by (unfold messageTextOf; now rewrite Htext).
  rewrite Hmt.
  destruct (trackMessage_tracks env from (ofZ (chat_id (message_chat message)))
              text s (ofZ_truthy _) Htruthy)
    as (s1 & Htrack & Htr1 & chatState & Hlook & Hhandler).
  rewrite Htrack. intros Hrun.
  assert (Hconf : confined (trackedUnset (ofZ (chat_id (message_chat message))))
                    asksOrSends
                    (tryCatch
                       (processMessage env ctx message from
                          (Some (ofZ (chat_id (message_chat message)))) text)
                       (fun _ => perform logM LError "❌ Error handling message:" then
                                 logM LError "Error sending message:"))).
  { apply confined_tryCatch;
      [now apply (processMessage_unset_handler ctx message from _ _ text)|].
    intros e. auto with confined. }
  assert (HP1 : trackedUnset (ofZ (chat_id (message_chat message)))
                  (interestChats s1)).
  { exists chatState. split; [exact Hlook|]. rewrite Hhandler.
    destruct (interestChats s !! _) as [known|] eqn:Hknown; [|reflexivity].
    now apply (Hunset _ _ Hknown). }
  destruct (Hconf s1 _ _ HP1 Hrun) as (_ & evs & Htr & Hnone).
  exists evs.
  split; [unfold bind at 1; rewrite Htrack; exact Hrun|].
  split; [now rewrite Htr, Htr1 | exact Hnone].
Qed.

End PipelineProperties.

(* ================================================================== *)
(** * The theorems at work on the scripted world *)
(* ================================================================== *)

Lemma mention_responds_by_rule_1_witness :
  _shouldRespond (demoEnv (demoAnswer "IGNORE"))
    (demoMessage (Some "@agentbot what's up") None) demoState demoTracked =
  (Ret true, afterLog demoTracked LInfo "Bot mentioned").
Proof.
  apply (mention_responds_by_rule_1 (demoEnv (demoAnswer "IGNORE"))
           (demoMessage (Some "@agentbot what's up") None) demoState demoTracked
           "@agentbot what's up");
    reflexivity.
Defined.

Lemma tracked_chat_is_not_delegated_witness :
  _shouldRespondBasedOnContext (demoMessage (Some "what do you all think?") None)
    {| currentHandler := None; lastMessageSent := 0; messages := [] |} = false.
Proof.
  apply (proj2 (tracked_chat_is_not_delegated (demoEnv (demoAnswer "RESPOND"))
           (demoMessage (Some "what do you all think?") None) demoState
           demoTracked "what do you all think?"
           {| currentHandler := None; lastMessageSent := 0; messages := [] |}
           eq_refl eq_refl eq_refl eq_refl eq_refl eq_refl)).
Defined.

(** The same input run: the decision is IGNORE and the state is untouched,
    although the scripted model would have answered RESPOND. *)
Example tracked_chat_run :
  _shouldRespond (demoEnv (demoAnswer "RESPOND"))
    (demoMessage (Some "what do you all think?") None) demoState demoTracked =
  (Ret false, demoTracked).
Proof. vm_compute. reflexivity. Qed.

(** The claim C1 at the same input: the delegation it promises would have
    asked the model, and the run asks nobody. *)
Example delegation_does_not_happen :
  ~ delegatesWhenHandlerUnset (demoEnv (demoAnswer "RESPOND"))
      (demoMessage (Some "what do you all think?") None) demoState demoTracked.
Proof.
  intros Hclaim.
  destruct (Hclaim "what do you all think?"
              {| currentHandler := None; lastMessageSent := 0; messages := [] |}
              eq_refl eq_refl eq_refl eq_refl eq_refl eq_refl)
    as (s1 & context & Hcontext & Hrun).
  vm_compute in Hcontext. injection Hcontext as <- <-.
  apply (f_equal (fun r => List.length (trace (snd r)))) in Hrun.
  vm_compute in Hrun. discriminate Hrun.
Qed.

Lemma generation_failure_is_ignore_witness :
  exists s2,
    generateShouldRespond (demoEnv (Throw (ServiceError 503 "model unavailable")))
      (demoDecisionContext (Throw (ServiceError 503 "model unavailable")))
      (demoAsked (Throw (ServiceError 503 "model unavailable")))
    = (Ret "IGNORE", s2) /\
    _shouldRespond (demoEnv (Throw (ServiceError 503 "model unavailable")))
      (demoMessage (Some "what do you all think?") None) demoState demoStart
    = (Ret false, s2).
Proof.
  apply (generation_failure_is_ignore
           (demoEnv (Throw (ServiceError 503 "model unavailable")))
           (demoMessage (Some "what do you all think?") None) demoState demoStart
           "what do you all think?");
    first [reflexivity | vm_compute; exact I].
Defined.

Lemma malformed_output_is_ignore_witness :
  generateShouldRespond (demoEnv (demoAnswer " stop ")) "context" demoStart =
  (Ret "IGNORE",
   afterLog (snd (askModel (demoEnv (demoAnswer " stop ")) "context" demoStart))
     LWarn "Invalid response from model: STOP. Defaulting to IGNORE").
Proof.
  apply (proj1 (malformed_output_is_ignore (demoEnv (demoAnswer " stop "))
                  "context" demoStart
                  (match demoAnswer " stop " with Ret r => r | Throw _ => [] end)
                  (snd (askModel (demoEnv (demoAnswer " stop ")) "context" demoStart))
                  eq_refl) "STOP");
    [reflexivity | reflexivity | discriminate | discriminate].
Defined.

(** C6, as stated, fails: an answer of white space only is an output other
    than the two tokens, it is turned into IGNORE by the default, and no
    warning is written. *)
Lemma blank_output_is_not_warned :
  ~ coercedWithWarning (demoEnv (demoAnswer "   ")) "context" demoStart.
Proof.
  intros Hclaim.
  destruct (Hclaim (match demoAnswer "   " with Ret r => r | Throw _ => [] end)
              (snd (askModel (demoEnv (demoAnswer "   ")) "context" demoStart))
              eq_refl)
    as (s' & Hrun & Hwarned).
  - vm_compute. discriminate.
  - vm_compute. discriminate.
  - vm_compute in Hrun. injection Hrun as <-.
    vm_compute in Hwarned. discriminate Hwarned.
Qed.

Lemma chunks_threading_and_continuation_witness :
  exists sentMessages memories s1 s2,
    sendMessageInChunks (demoEnv (demoAnswer "RESPOND"))
      (demoContext (demoMessage (Some "@agentbot hi") None)) demoResponse
      (Some 42) demoStart = (Ret sentMessages, s1) /\
    callback (demoEnv (demoAnswer "RESPOND"))
      (demoContext (demoMessage (Some "@agentbot hi") None))
      (demoMessage (Some "@agentbot hi") None) "room" "inbound" demoResponse
      demoStart = (Ret memories, s2) /\
    trace s2 = trace s1 ++ map EvCreateMemory memories /\
    List.length memories = List.length sentMessages.
Proof.
  destruct (chunks_threading_and_continuation (demoEnv (demoAnswer "RESPOND"))
              (demoContext (demoMessage (Some "@agentbot hi") None)) demoGroup
              (demoMessage (Some "@agentbot hi") None) "room" "inbound"
              demoResponse demoStart)
    as (sentMessages & memories & s1 & s2 & Hsent & _ & _ & Hrec & Hcreated & _
        & Hlen & _).
  - intros chatId text replyTo w. eexists. eexists. reflexivity.
  - intros memory w. eexists. reflexivity.
  - reflexivity.
  - discriminate.
  - exists sentMessages, memories, s1, s2. auto.
Defined.

(** The scripted response takes two chunks: the first is sent as a reply,
    and its memory is the one tagged [CONTINUE]. *)
Example two_chunks_on_the_scripted_world :
  let result := callback (demoEnv (demoAnswer "RESPOND"))
               (demoContext (demoMessage (Some "@agentbot hi") None))
               (demoMessage (Some "@agentbot hi") None) "room" "inbound"
               demoResponse demoStart in
  List.filter isSend (trace (snd result)) =
    [EvSendMessage (-1001) (replicate 3000 "a") (Some 42);
     EvSendMessage (-1001) (replicate 3000 "b") None] /\
  match fst result with
  | Ret memories =>
      map (fun memory => content_action (memory_content memory)) memories
  | Throw _ => []
  end = [Some "CONTINUE"; Some "NONE"].
Proof. vm_compute. split; reflexivity. Qed.

Lemma textless_message_raises_in_mention_check_witness :
  raisesAtOnce
    (_shouldRespond (demoEnv (demoAnswer "RESPOND"))
       (demoMessage None (Some "@agentbot look at this")) demoState).
Proof.
  apply (proj1 (proj2 (textless_message_raises_in_mention_check
                         (demoEnv (demoAnswer "RESPOND"))
                         (demoMessage None (Some "@agentbot look at this"))
                         eq_refl))).
Defined.

(** A photo whose caption mentions the agent, through the whole handler: the
    two diagnostics of the catch-all end the run, nothing is sent. *)
Example caption_mention_is_dropped :
  let result := handleMessage (demoEnv (demoAnswer "RESPOND"))
               (demoContext (demoMessage None (Some "@agentbot look at this")))
               demoStart in
  fst result = Ret tt /\
  List.filter isSend (trace (snd result)) = [] /\
  List.last (trace (snd result)) (EvLog LLog "") = EvLog LError "Error sending message:".
Proof. vm_compute. repeat split; reflexivity. Qed.

(* ================================================================== *)
(** * Further properties of stringToUuid *)
(* ================================================================== *)

Lemma toInt32_mod x : toInt32 x mod 2 ^ 32 = x mod 2 ^ 32.
Proof.
  unfold toInt32.
  rewrite <- Zminus_mod_idemp_l, Z.mod_mod by lia.
  rewrite Zminus_mod_idemp_l. f_equal. lia.
Qed.

Lemma toInt32_congruent a b :
  a mod 2 ^ 32 = b mod 2 ^ 32 -> toInt32 a = toInt32 b.
Proof.
  intros H. unfold toInt32.
  rewrite <- (Zplus_mod_idemp_l a), <- (Zplus_mod_idemp_l b), H. reflexivity.
Qed.

Lemma toInt32_small x : - 2 ^ 31 <= x < 2 ^ 31 -> toInt32 x = x.
Proof. intros H. unfold toInt32. rewrite Z.mod_small; lia. Qed.

(** The shift-and-subtract of the source is a multiplication by 31. *)
Lemma hashStep_times_31 hash char :
  hashStep hash char = toInt32 (hash * 31 + char).
Proof.
  unfold hashStep. cbv zeta. rewrite and32_diag. unfold shl32.
  apply toInt32_congruent.
  change (5 mod 32) with 5. rewrite Z.shiftl_mul_pow2 by lia.
  rewrite <- Zplus_mod_idemp_l, <- Zminus_mod_idemp_l, toInt32_mod.
  rewrite <- Zmult_mod_idemp_l, toInt32_mod, Zmult_mod_idemp_l.
  rewrite Zminus_mod_idemp_l, Zplus_mod_idemp_l.
  f_equal. lia.
Qed.

Lemma hashLoop_wraps str : forall a b,
  a = toInt32 b -> hashLoop a str = toInt32 (polynomialHash b str).
Proof.
  induction str as [|c rest IH]; intros a b Hab; [exact Hab|].
  cbn [hashLoop polynomialHash]. apply IH.
  rewrite hashStep_times_31, Hab. apply toInt32_congruent.
  rewrite <- Zplus_mod_idemp_l, <- Zmult_mod_idemp_l, toInt32_mod.
  now rewrite Zmult_mod_idemp_l, Zplus_mod_idemp_l.
Qed.

(** X1.  The loop of [stringToUuid] computes the polynomial hash
    [c0 * 31^(n-1) + ... + c(n-1)] of the character codes, wrapped to a
    signed 32-bit integer: the shift-and-subtract step with its [hash & hash]
    is the multiplication by 31 modulo 2^32. *)
Theorem hashLoop_is_polynomial_hash :
  forall str : string, hashLoop 0 str = toInt32 (polynomialHash 0 str).
Proof. intros str. now apply hashLoop_wraps. Qed.

(** ** The identifier holds the absolute value of the hash and nothing else *)

Lemma toHexDigits_digits fuel : forall k n acc,
  (1 <= k)%nat -> 0 <= n < 16 ^ Z.of_nat k ->
  (String.length (toHexDigits fuel n acc) <= k + String.length acc)%nat.
Proof.
  induction fuel as [|fuel IH]; intros k n acc Hk Hn; cbn [toHexDigits].
  - lia.
  - destruct (Z.eqb_spec (n / 16) 0) as [Hq|Hq]; [cbn [String.length]; lia|].
    destruct k as [|k]; [lia|].
    destruct k as [|k].
    { exfalso. apply Hq. apply Z.div_small. simpl in Hn. lia. }
    specialize (IH (S k) (n / 16) (String (hexDigit (n mod 16)) acc)).
    cbn [String.length] in IH.
    assert (0 <= n / 16 < 16 ^ Z.of_nat (S k)).
    { rewrite (Nat2Z.inj_succ (S k)), Z.pow_succ_r in Hn by lia.
      split; [apply Z.div_pos; lia | apply Z.div_lt_upper_bound; lia]. }
    specialize (IH ltac:(lia) ltac:(assumption)). lia.
Qed.

Lemma toString16_eight n :
  0 <= n <= 2 ^ 31 -> (String.length (toString16 n) <= 8)%nat.
Proof.
  intros Hn. unfold toString16.
  pose proof (toHexDigits_digits (S (Z.to_nat (Z.log2 n))) 8 n EmptyString
                ltac:(lia)) as H.
  cbn [String.length] in H. rewrite Nat.add_0_r in H. apply H.
  change (16 ^ Z.of_nat 8) with 4294967296. lia.
Qed.

Lemma replicate_plus a b c :
  replicate (a + b) c = replicate a c +:+ replicate b c.
Proof. induction a as [|a IH]; [reflexivity|]. cbn [Nat.add replicate]. now rewrite IH. Qed.

(** The padded hash is 24 zeros and 8 digits. *)
Lemma padded_hash_shape n :
  0 <= n <= 2 ^ 31 ->
  exists low,
    String.length low = 8%nat /\ allChars isLowerHex low = true /\
    hexValue low = hexValue (toString16 n) /\
    padStart (toString16 n) 32 "0"%char = replicate 24 "0"%char +:+ low.
Proof.
  intros Hn. pose proof (toString16_eight n Hn) as Hlen.
  exists (replicate (8 - String.length (toString16 n)) "0"%char +:+ toString16 n).
  split; [rewrite append_length, replicate_length; lia|].
  split.
  { rewrite allChars_append, allChars_replicate by reflexivity.
    apply toHexDigits_lower. reflexivity. }
  split.
  { unfold hexValue. generalize (toString16 n) as s.
    intros s. induction (8 - String.length s)%nat as [|z IH]; [reflexivity|].
    cbn [replicate]. rewrite append_cons. cbn [hexValueFrom]. exact IH. }
  unfold padStart.
  replace (32 - String.length (toString16 n))%nat
    with (24 + (8 - String.length (toString16 n)))%nat by lia.
  rewrite replicate_plus. apply append_assoc.
Qed.

(** Grouping 24 zeros and 8 digits. *)
Lemma grouping_low low :
  String.length low = 8%nat ->
  let hashHex := replicate 24 "0"%char +:+ low in
  slice hashHex 0 8 +:+ "-" +:+ slice hashHex 8 12 +:+ "-" +:+
  slice hashHex 12 16 +:+ "-" +:+ slice hashHex 16 20 +:+ "-" +:+
  slice hashHex 20 32 = "00000000-0000-0000-0000-0000" +:+ low.
Proof.
  intros Hlen.
  do 8 (destruct low as [|? low]; [discriminate Hlen|]).
  destruct low; [|discriminate Hlen]. reflexivity.
Qed.

Lemma stringToUuid_low x :
  exists low,
    String.length low = 8%nat /\ allChars isLowerHex low = true /\
    hexValue low = hexValue (toString16 (Z.abs (hashLoop 0 x))) /\
    stringToUuid x = "00000000-0000-0000-0000-0000" +:+ low.
Proof.
  pose proof (hashLoop_range x 0 ltac:(lia)) as Hr.
  destruct (padded_hash_shape (Z.abs (hashLoop 0 x)) ltac:(lia))
    as (low & Hlen & Hhex & Hval & Hpad).
  exists low. repeat split; try assumption.
  unfold stringToUuid. cbv zeta. rewrite Hpad. now apply grouping_low.
Qed.

(** X2.  Only the last eight digits of an identifier depend on the input:
    every identifier is [00000000-0000-0000-0000-0000] followed by eight
    lower-case hexadecimal digits. *)
Theorem stringToUuid_fixed_prefix :
  forall x : string,
    exists low,
      String.length low = 8%nat /\ allChars isLowerHex low = true /\
      stringToUuid x = "00000000-0000-0000-0000-0000" +:+ low.
Proof.
  intros x. destruct (stringToUuid_low x) as (low & Hlen & Hhex & _ & Heq).
  exists low. auto.
Qed.

(** ** Reading the hash back *)

Lemma hexDigit_value d : 0 <= d < 16 -> hexDigitValue (hexDigit d) = d.
Proof.
  intros Hd. assert (Hcases : exists k, (k < 16)%nat /\ d = Z.of_nat k).
  { exists (Z.to_nat d). lia. }
  destruct Hcases as (k & Hk & ->).
  do 16 (destruct k as [|k]; [reflexivity|]). lia.
Qed.

Lemma hexDigit_not_dash d : Ascii.eqb (hexDigit d) "-"%char = false.
Proof.
  unfold hexDigit. destruct (Z.to_nat d) as [|k]; [reflexivity|].
  do 15 (destruct k as [|k]; [reflexivity|]). reflexivity.
Qed.

Lemma toHexDigits_value fuel : forall n acc,
  (1 <= fuel)%nat -> 0 <= n < 16 ^ Z.of_nat fuel ->
  hexValueFrom 0 (toHexDigits fuel n acc) = hexValueFrom n acc.
Proof.
  induction fuel as [|fuel IH]; intros n acc Hf Hn; [lia|].
  cbn [toHexDigits].
  assert (Hd : 0 <= n mod 16 < 16) by (apply Z.mod_pos_bound; lia).
  destruct (Z.eqb_spec (n / 16) 0) as [Hq|Hq].
  - cbn [hexValueFrom]. rewrite hexDigit_not_dash, hexDigit_value by exact Hd.
    f_equal. pose proof (Z.div_mod n 16 ltac:(lia)). lia.
  - destruct fuel as [|fuel].
    { exfalso. apply Hq. apply Z.div_small. simpl in Hn. lia. }
    rewrite IH.
    + cbn [hexValueFrom]. rewrite hexDigit_not_dash, hexDigit_value by exact Hd.
      f_equal. pose proof (Z.div_mod n 16 ltac:(lia)). lia.
    + lia.
    + rewrite (Nat2Z.inj_succ (S fuel)), Z.pow_succ_r in Hn by lia.
      split; [apply Z.div_pos; lia | apply Z.div_lt_upper_bound; lia].
Qed.

Lemma toString16_value n : 0 <= n -> hexValue (toString16 n) = n.
Proof.
  intros Hn. unfold hexValue, toString16.
  rewrite toHexDigits_value; [reflexivity | lia |].
  split; [exact Hn | now apply toString16_fuel].
Qed.

Lemma stringToUuid_value x :
  hexValue (stringToUuid x) = Z.abs (hashLoop 0 x).
Proof.
  destruct (stringToUuid_low x) as (low & _ & _ & Hval & ->).
  rewrite toString16_value in Hval by lia. rewrite <- Hval. reflexivity.
Qed.

(** X3.  Two strings get the same identifier exactly when their 32-bit
    hashes agree up to the sign: the identifier is the absolute value of the
    hash written out, so a hash and its opposite collide and nothing else
    does. *)
Theorem stringToUuid_collides_iff :
  forall x y : string,
    stringToUuid x = stringToUuid y <->
    Z.abs (hashLoop 0 x) = Z.abs (hashLoop 0 y).
Proof.
  intros x y. split.
  - intros H. rewrite <- !stringToUuid_value. now rewrite H.
  - intros H. unfold stringToUuid. cbv zeta. now rewrite H.
Qed.

(** A family of colliding inputs: [Aa] and [BB] have the same polynomial
    hash, wherever they stand in a string. *)
Lemma polynomialHash_append p : forall h s,
  polynomialHash h (p +:+ s) = polynomialHash (polynomialHash h p) s.
Proof.
  induction p as [|c p IH]; intros h s; [reflexivity|].
  rewrite append_cons. cbn [polynomialHash]. apply IH.
Qed.

Example stringToUuid_Aa_BB (p s : string) :
  stringToUuid (p +:+ "Aa" +:+ s) = stringToUuid (p +:+ "BB" +:+ s).
Proof.
  unfold stringToUuid. cbv zeta. rewrite !hashLoop_wraps with (b := 0) by reflexivity.
  rewrite !polynomialHash_append.
  replace (polynomialHash (polynomialHash 0 p) "Aa")
    with (polynomialHash (polynomialHash 0 p) "BB"); [reflexivity|].
  cbn [polynomialHash].
  change (charCodeOf "A") with 65. change (charCodeOf "a") with 97.
  change (charCodeOf "B") with 66. lia.
Qed.

(* ================================================================== *)
(** * More about splitMessage *)
(* ================================================================== *)

Lemma splitStep_nonempty maxLength chunks cur line :
  Forall (fun c => c <> EmptyString) chunks ->
  Forall (fun c => c <> EmptyString) (fst (splitStep maxLength (chunks, cur) line)).
Proof.
  intros H. unfold splitStep. destruct (_ <=? maxLength)%Z; cbn [fst]; [exact H|].
  destruct (truthy cur) eqn:Ht; [|exact H].
  apply Forall_app. split; [exact H|].
  constructor; [now apply truthy_true | constructor].
Qed.

Lemma fold_splitStep_nonempty maxLength lines : forall st,
  Forall (fun c => c <> EmptyString) (fst st) ->
  Forall (fun c => c <> EmptyString)
         (flushChunk (fold_left (splitStep maxLength) lines st)).
Proof.
  induction lines as [|l lines IH]; intros [chunks cur] H; cbn [fold_left].
  - unfold flushChunk. cbn [fst] in H. destruct (truthy cur) eqn:Ht; [|exact H].
    apply Forall_app. split; [exact H|].
    constructor; [now apply truthy_true | constructor].
  - apply IH. now apply splitStep_nonempty.
Qed.

(** X4.  [splitMessage] never returns an empty chunk, whatever the text and
    the limit. *)
Theorem splitMessage_no_empty_chunk :
  forall (text : string) (maxLength : Z),
    Forall (fun chunk => chunk <> EmptyString) (splitMessage text maxLength).
Proof.
  intros text maxLength. unfold splitMessage. cbv zeta.
  apply fold_splitStep_nonempty. constructor.
Qed.

Lemma fold_append_lines_length lines : forall a,
  (String.length a <=
   String.length (fold_left (fun acc l => acc +:+ nl +:+ l) lines a))%nat.
Proof.
  induction lines as [|l lines IH]; intros a; cbn [fold_left]; [lia|].
  specialize (IH (a +:+ nl +:+ l)). rewrite append_length in IH. lia.
Qed.

Lemma fold_splitStep_one_chunk maxLength lines : forall cur,
  cur <> EmptyString ->
  Z.of_nat (String.length
              (fold_left (fun acc l => acc +:+ nl +:+ l) lines cur)) <= maxLength ->
  fold_left (splitStep maxLength) lines ([], cur) =
  ([], fold_left (fun acc l => acc +:+ nl +:+ l) lines cur).
Proof.
  induction lines as [|l lines IH]; intros cur Hcur Hlen; [reflexivity|].
  cbn [fold_left] in *.
  pose proof (fold_append_lines_length lines (cur +:+ nl +:+ l)) as Hmono.
  rewrite !append_length in Hmono. cbn [String.length nl] in Hmono.
  unfold splitStep at 2.
  destruct (Z.leb_spec
              (Z.of_nat (String.length cur) + Z.of_nat (String.length l) + 1)
              maxLength) as [_|Hgt]; [|lia].
  assert (Ht : truthy cur = true) by now apply truthy_true.
  rewrite Ht. apply IH; [|exact Hlen].
  destruct cur; [congruence | discriminate].
Qed.

Lemma startsWithLine_first text :
  startsWithLine text = true ->
  exists l lines, split newline text = l :: lines /\ l <> EmptyString.
Proof.
  destruct text as [|c text]; [discriminate|]. cbn [startsWithLine split].
  intros Hc. apply negb_true_iff in Hc. rewrite Hc.
  destruct (split newline text) as [|p ps]; eexists; eexists; split;
    try reflexivity; discriminate.
Qed.

Lemma startsWithLine_holds text :
  text <> EmptyString -> startsWith text nl = false ->
  startsWithLine text = true.
Proof.
  destruct text as [|c text]; [congruence|]. intros _.
  unfold startsWith, nl, startsWithLine. cbn [String.prefix].
  destruct (ascii_dec newline c) as [<-|Hne].
  - destruct text; discriminate.
  - intros _. apply negb_true_iff, Ascii.eqb_neq. congruence.
Qed.

(** X5.  A text that is not empty, does not begin with a line break and
    fits in the limit is returned whole, as the only chunk; the empty text
    gives no chunk at all. *)
Theorem splitMessage_short_text :
  forall (text : string) (maxLength : Z),
    splitMessage EmptyString maxLength = [] /\
    (text <> EmptyString ->
     startsWith text nl = false ->
     Z.of_nat (String.length text) <= maxLength ->
     splitMessage text maxLength = [text]).
Proof.
  intros text maxLength. split.
  { unfold splitMessage. cbv zeta.
    change (split newline EmptyString) with [EmptyString].
    cbn [fold_left]. unfold splitStep.
    now destruct (_ <=? maxLength). }
  intros Hne Hnl Hlen.
  pose proof (startsWithLine_holds text Hne Hnl) as Hstart.
  destruct (startsWithLine_first text Hstart) as (l & lines & Hsplit & Hl).
  unfold splitMessage. cbv zeta.
  pose proof (join_split newline text) as Hjoin. fold nl in Hjoin.
  rewrite Hsplit in *. rewrite join_as_fold in Hjoin.
  cbn [fold_left]. rewrite splitStep_first.
  rewrite fold_splitStep_one_chunk; [| exact Hl | now rewrite Hjoin].
  rewrite Hjoin. unfold flushChunk.
  destruct text; [discriminate Hstart | reflexivity].
Qed.

Lemma splitMessage_short_text_witness :
  splitMessage ("ab" +:+ nl +:+ "cd") 5 = ["ab" +:+ nl +:+ "cd"].
Proof.
  apply (proj2 (splitMessage_short_text ("ab" +:+ nl +:+ "cd") 5));
    [discriminate | reflexivity | vm_compute; discriminate].
Defined.

Lemma fold_splitStep_long_line maxLength l lines : forall chunks cur,
  l <> EmptyString -> maxLength <= Z.of_nat (String.length l) ->
  In l chunks \/ cur = l \/ In l lines ->
  In l (flushChunk (fold_left (splitStep maxLength) lines (chunks, cur))).
Proof.
  intros chunks cur Hl Hlong. revert chunks cur.
  assert (Ht : truthy l = true) by now apply truthy_true.
  induction lines as [|x lines IH]; intros chunks cur Hin; cbn [fold_left].
  - unfold flushChunk. destruct Hin as [Hin|[->|[]]].
    + destruct (truthy cur); [apply in_or_app; now left | exact Hin].
    + rewrite Ht. apply in_or_app. right. now left.
  - unfold splitStep at 2.
    destruct (Z.leb_spec
                (Z.of_nat (String.length cur) + Z.of_nat (String.length x) + 1)
                maxLength) as [Hfit|Hover].
    + apply IH. destruct Hin as [Hin|[->|[->|Hin]]]; [now left | lia | lia |].
      now right; right.
    + apply IH. destruct Hin as [Hin|[->|[->|Hin]]].
      * left. destruct (truthy cur); [apply in_or_app; now left | exact Hin].
      * left. rewrite Ht. apply in_or_app. right. now left.
      * right. now left.
      * now right; right.
Qed.

(** X6.  A non-empty line that is as long as the limit or longer is never
    merged with its neighbours nor cut: it is one of the chunks, whole. *)
Theorem splitMessage_long_line_alone :
  forall (text line : string) (maxLength : Z),
    In line (split newline text) ->
    line <> EmptyString ->
    maxLength <= Z.of_nat (String.length line) ->
    In line (splitMessage text maxLength).
Proof.
  intros text line maxLength Hin Hline Hlong. unfold splitMessage. cbv zeta.
  apply fold_splitStep_long_line; auto.
Qed.

Lemma splitMessage_long_line_alone_witness :
  In "abcdef" (splitMessage ("x" +:+ nl +:+ "abcdef" +:+ nl +:+ "y") 3).
Proof.
  apply splitMessage_long_line_alone;
    [vm_compute; right; left; reflexivity | discriminate | vm_compute; discriminate].
Defined.

(* ================================================================== *)
(** * More about cosineSimilarity *)
(* ================================================================== *)

(** ** Texts without a token in common *)

Lemma SFmul_zeroOrNaN_l x y :
  zeroOrNaN x = true -> zeroOrNaN (SFmul prec emax x y) = true.
Proof.
  destruct x as [sx|sx| |sx mx ex], y as [sy|sy| |sy my ey];
    cbn [zeroOrNaN SFmul]; try discriminate; reflexivity.
Qed.

Lemma SFmul_zeroOrNaN_r x y :
  zeroOrNaN y = true -> zeroOrNaN (SFmul prec emax x y) = true.
Proof.
  destruct x as [sx|sx| |sx mx ex], y as [sy|sy| |sy my ey];
    cbn [zeroOrNaN SFmul]; try discriminate; reflexivity.
Qed.

Lemma SFadd_zeroOrNaN x y :
  zeroOrNaN x = true -> zeroOrNaN y = true ->
  zeroOrNaN (SFadd prec emax x y) = true.
Proof.
  destruct x as [[|]|sx| |sx mx ex], y as [[|]|sy| |sy my ey];
    cbn [zeroOrNaN SFadd]; try discriminate; reflexivity.
Qed.

Lemma SFdiv_zeroOrNaN x y :
  zeroOrNaN x = true -> zeroOrNaN (SFdiv prec emax x y) = true.
Proof.
  destruct x as [sx|sx| |sx mx ex], y as [sy|sy| |sy my ey];
    cbn [zeroOrNaN SFdiv]; try discriminate; reflexivity.
Qed.

Lemma zeroish_cases x :
  zeroish x -> PrimFloat.eqb x 0%float = true \/ PrimFloat.is_nan x = true.
Proof.
  unfold zeroish, PrimFloat.is_nan. rewrite !FloatAxioms.eqb_spec.
  change (Prim2SF 0%float) with (S754_zero false).
  destruct (Prim2SF x) as [s|s| |s m e]; cbn [zeroOrNaN]; try discriminate;
    intros _; [left | right]; reflexivity.
Qed.

(** A word that a table does not own reads as 0, or as an inherited
    property, which is no number. *)
Lemma orZero_absent freq w :
  ~ In w (map fst freq) -> zeroish (toNumber (orZero (lookupFreq freq w))).
Proof.
  intros Hout. unfold lookupFreq. rewrite (ownFreq_absent freq w Hout).
  destruct (inheritedName w); reflexivity.
Qed.

Lemma fold_no_common_word freq1 freq2 words :
  (forall w, In w (map fst freq1) -> ~ In w (map fst freq2)) ->
  forall s, zeroish (dotProduct s) ->
    zeroish (dotProduct (fold_left (accumulate false freq1 freq2 []) words s)).
Proof.
  intros Hdisjoint. induction words as [|w words IH]; intros s Hs;
    cbn [fold_left]; [exact Hs|].
  apply IH. unfold accumulate. cbn [dotProduct].
  unfold zeroish. rewrite FloatAxioms.add_spec, FloatAxioms.mul_spec.
  apply SFadd_zeroOrNaN; [exact Hs|].
  destruct (in_dec string_dec w (map fst freq1)) as [Hin|Hout].
  - apply SFmul_zeroOrNaN_r. exact (orZero_absent freq2 w (Hdisjoint w Hin)).
  - apply SFmul_zeroOrNaN_l. exact (orZero_absent freq1 w Hout).
Qed.

(** X8.  Two texts that share no eligible token never score a number other
    than zero: the result is 0, or it is NaN. *)
Theorem cosineSimilarity_disjoint_zero_or_nan :
  forall text1 text2 : string,
    (forall word, In word (getWords (preprocessText text1)) ->
                  ~ In word (getWords (preprocessText text2))) ->
    PrimFloat.eqb (cosineSimilarity text1 text2 None) 0%float = true \/
    PrimFloat.is_nan (cosineSimilarity text1 text2 None) = true.
Proof.
  intros text1 text2 Hdisjoint. apply zeroish_cases.
  unfold cosineSimilarity, similarityOfWords.
  cbv zeta. cbn [nonEmptyList negb andb].
  destruct (_ || _); [reflexivity|].
  unfold zeroish. rewrite FloatAxioms.div_spec. apply SFdiv_zeroOrNaN.
  apply fold_no_common_word; [|reflexivity].
  intros w H1 H2.
  apply (proj1 (buildFreq_keys _ w)) in H1.
  apply (proj1 (buildFreq_keys _ w)) in H2.
  exact (Hdisjoint w (proj1 H1) (proj1 H2)).
Qed.

Lemma cosineSimilarity_disjoint_zero_or_nan_witness :
  PrimFloat.eqb (cosineSimilarity "the cat" "my dog" None) 0%float = true \/
  PrimFloat.is_nan (cosineSimilarity "the cat" "my dog" None) = true.
Proof.
  apply cosineSimilarity_disjoint_zero_or_nan.
  vm_compute. intros word [<-|[<-|[]]] [H|[H|[]]]; discriminate H.
Defined.

(* ================================================================== *)
(** * More about composeContext *)
(* ================================================================== *)

Lemma bindL_ret_l {A B : Type} (a : A) (k : A -> Logged B) :
  bindL (Ret a, []) k = k a.
Proof. cbn [bindL]. destruct (k a) as [r logs]. reflexivity. Qed.

Section ComposeContextEdges.

Variable platform : Platform.
Variable formatters : gmap string (value -> string).

Abbreviation composeHere state defaultValues :=
  (composeContext platform state defaultValues formatters).

Lemma replaceFrom_without_braces state defaultValues template :
  includes template "{{" = false ->
  replaceFrom platform state defaultValues formatters 0 template =
  retL template.
Proof.
  induction template as [|c rest IH]; intros Hnone; [reflexivity|].
  cbn [includes] in Hnone. apply orb_false_iff in Hnone.
  destruct Hnone as [Hhere Hrest].
  cbn [replaceFrom]. rewrite matchPlaceholder_needs_two_braces.
  - rewrite (IH Hrest). reflexivity.
  - unfold startsWith in Hhere. cbn [String.prefix] in Hhere.
    apply orb_true_iff. unfold notOpenBrace.
    destruct (ascii_dec "{" c) as [<-|Hc].
    + right. destruct rest as [|d rest]; [reflexivity|].
      cbn [String.prefix] in Hhere.
      destruct (ascii_dec "{" d) as [<-|Hd].
      * destruct rest; discriminate Hhere.
      * apply negb_true_iff, Ascii.eqb_neq. congruence.
    + left. apply negb_true_iff, Ascii.eqb_neq. congruence.
Qed.

(** X10.  A template that never has two opening braces in a row, so that no
    placeholder can begin in it, is returned as it is, without any
    diagnostic and whatever the state, the default values and the
    formatters are. *)
Theorem composeContext_literal_template :
  forall (state defaultValues : value) (template : string),
    includes template "{{" = false ->
    composeHere state defaultValues template = (Ret template, []).
Proof.
  intros state defaultValues template Hnone.
  exact (replaceFrom_without_braces state defaultValues template Hnone).
Qed.

Lemma getNestedValue_stops_at_null obj before key rest :
  getNestedValue platform obj before = Ret VNull ->
  getNestedValue platform obj (before ++ key :: rest) =
  Throw (readError "null" key).
Proof.
  unfold getNestedValue. intros Hnull.
  rewrite fold_left_app, Hnull. cbn [fold_left getNestedStep getProp].
  apply fold_getNestedStep_throw.
Qed.

(** X11.  The first placeholder of a template, with literal text in front
    of it: when the walk of its path through the state arrives at [null]
    and the path goes on with another key, [composeContext] raises the
    TypeError of reading that key of [null].  No text is returned, not even
    the part in front of the placeholder, no warning is written and the
    default values are not consulted. *)
Theorem composeContext_null_on_path_raises :
  forall (state defaultValues : value)
         (pre variable : string) (formatter : option string) (post : string)
         (before : list string) (key : string) (rest : list string),
    literalText pre = true ->
    truthy variable = true ->
    allChars variableChar variable = true ->
    formatterGroup formatter = true ->
    split "."%char (trim variable) = before ++ key :: rest ->
    getNestedValue platform state before = Ret VNull ->
    composeHere state defaultValues
      (pre +:+ placeholderText variable formatter +:+ post) =
    (Throw (TypeError ("Cannot read properties of null (reading '" +:+ key
                       +:+ "')")), []).
Proof.
  intros state defaultValues pre variable formatter post before key rest
         Hpre Hv Hchars Hf Hpath Hnull.
  rewrite composeContext_first_placeholder by assumption.
  unfold replacer. cbv zeta. rewrite Hpath.
  rewrite (getNestedValue_stops_at_null state before key rest Hnull).
  reflexivity.
Qed.

Lemma getNestedValue_own fields key v :
  ownField fields key = Some v ->
  getNestedValue platform (VObj fields) [key] = Ret v.
Proof.
  intros Hown. unfold getNestedValue.
  cbn [fold_left getNestedStep getProp]. now rewrite Hown.
Qed.

Lemma getNestedValue_lacks fields key :
  lacks platform fields key ->
  getNestedValue platform (VObj fields) [key] = Ret VUndefined.
Proof.
  unfold lacks, getNestedValue. cbn [fold_left getNestedStep getProp].
  destruct (ownField fields key) as [v|]; [now intros -> | trivial].
Qed.

(** The value that the callback formats: the one of the state, or else the
    one of the default values. *)
Lemma replacer_resolved fields defaults matched variable formatter key v :
  split "."%char (trim variable) = [key] ->
  isUndefined v = false ->
  ownField fields key = Some v \/
  (lacks platform fields key /\ ownField defaults key = Some v) ->
  replacer platform (VObj fields) (VObj defaults) formatters
    matched variable formatter =
  (formatValue platform formatters v formatter, []).
Proof.
  intros Hpath Hv Hfrom. unfold replacer. cbv zeta. rewrite Hpath.
  destruct Hfrom as [Hstate|[Hstate Hdefault]].
  - rewrite (getNestedValue_own fields key v Hstate), bindL_ret_l, Hv.
    unfold retL. now rewrite bindL_ret_l, Hv.
  - rewrite (getNestedValue_lacks fields key Hstate), bindL_ret_l.
    cbn [isUndefined].
    rewrite (getNestedValue_own defaults key v Hdefault), bindL_ret_l.
    now rewrite Hv.
Qed.

(** X31.  The first placeholder of a template, with a one-key path: the
    value is taken from the own field of the state and, when the state has
    nothing under the key, from the own field of the default values.  A
    string replaces a placeholder without formatter as it is; a formatter
    that the formatter map has under the given name gives the replacement
    for any value.  No warning is written for the placeholder. *)
Theorem composeContext_state_then_defaults :
  forall (fields defaults : list (string * value))
         (pre variable key post : string) (v : value),
    literalText pre = true ->
    truthy variable = true ->
    allChars variableChar variable = true ->
    split "."%char (trim variable) = [key] ->
    isUndefined v = false ->
    ownField fields key = Some v \/
    (lacks platform fields key /\ ownField defaults key = Some v) ->
    (forall text : string,
       v = VStr text ->
       composeHere (VObj fields) (VObj defaults)
         (pre +:+ placeholderText variable None +:+ post) =
       bindL (composeHere (VObj fields) (VObj defaults) post)
         (fun tail => retL (pre +:+ text +:+ tail))) /\
    (forall (name : string) (format : value -> string),
       truthy name = true ->
       allChars formatterChar name = true ->
       formatters !! name = Some format ->
       composeHere (VObj fields) (VObj defaults)
         (pre +:+ placeholderText variable (Some name) +:+ post) =
       bindL (composeHere (VObj fields) (VObj defaults) post)
         (fun tail => retL (pre +:+ format v +:+ tail))).
Proof.
  intros fields defaults pre variable key post v Hpre Hvar Hchars Hpath Hv Hfrom.
  split.
  - intros text ->.
    rewrite composeContext_first_placeholder by (assumption || reflexivity).
    rewrite (replacer_resolved fields defaults _ variable None key (VStr text))
      by assumption.
    cbn [formatValue stringifyValue toStringValue]. now rewrite bindL_ret_l.
  - intros name format Hname Hnchars Hformat.
    rewrite composeContext_first_placeholder;
      [| assumption | assumption | assumption
       | cbn [formatterGroup]; now rewrite Hname, Hnchars].
    rewrite (replacer_resolved fields defaults _ variable (Some name) key v)
      by assumption.
    unfold formatValue. rewrite Hname, Hformat. now rewrite bindL_ret_l.
Qed.

(** X32.  The first placeholder of a template, with a one-key path under
    which neither the state nor the default values have anything: the
    placeholder stays in the output as it is written, formatter included,
    and one warning names its variable. *)
Theorem composeContext_unresolved_kept :
  forall (fields defaults : list (string * value))
         (pre variable : string) (formatter : option string)
         (key post : string),
    literalText pre = true ->
    truthy variable = true ->
    allChars variableChar variable = true ->
    formatterGroup formatter = true ->
    split "."%char (trim variable) = [key] ->
    lacks platform fields key ->
    lacks platform defaults key ->
    composeHere (VObj fields) (VObj defaults)
      (pre +:+ placeholderText variable formatter +:+ post) =
    bindL (warnL ("Variable " +:+ variable +:+
                  " not found in state or default values"))
      (fun _ =>
         bindL (composeHere (VObj fields) (VObj defaults) post)
           (fun tail =>
              retL (pre +:+ placeholderText variable formatter +:+ tail))).
Proof.
  intros fields defaults pre variable formatter key post
         Hpre Hvar Hchars Hf Hpath Hstate Hdefault.
  rewrite composeContext_first_placeholder by assumption.
  unfold replacer. cbv zeta. rewrite Hpath.
  rewrite (getNestedValue_lacks fields key Hstate), bindL_ret_l.
  cbn [isUndefined].
  rewrite (getNestedValue_lacks defaults key Hdefault), bindL_ret_l.
  cbn [isUndefined]. unfold warnL, retL. cbn [bindL].
  destruct (composeContext _ _ _ _ post) as [[tail|e] logs]; reflexivity.
Qed.

(** What a plain object inherits is found like an own field: a placeholder
    whose key names an inherited function of the state is replaced by the
    text of that function, and no warning is written. *)
Lemma composeContext_inherited_function :
  forall (fields defaults : list (string * value))
         (pre variable key post name : string),
    literalText pre = true ->
    truthy variable = true ->
    allChars variableChar variable = true ->
    split "."%char (trim variable) = [key] ->
    ownField fields key = None ->
    inheritedProperty platform (VObj fields) key = Ret (VPlatform true name) ->
    composeHere (VObj fields) (VObj defaults)
      (pre +:+ placeholderText variable None +:+ post) =
    bindL (composeHere (VObj fields) (VObj defaults) post)
      (fun tail => retL (pre +:+ platformToString platform name +:+ tail)).
Proof.
  intros fields defaults pre variable key post name
         Hpre Hvar Hchars Hpath Hown Hinherited.
  rewrite composeContext_first_placeholder by (assumption || reflexivity).
  unfold replacer. cbv zeta. rewrite Hpath.
  unfold getNestedValue. cbn [fold_left getNestedStep getProp].
  rewrite Hown, Hinherited, bindL_ret_l. cbn [isUndefined].
  unfold retL. rewrite bindL_ret_l. cbn [isUndefined].
  cbn [formatValue stringifyValue toStringValue]. now rewrite bindL_ret_l.
Qed.

End ComposeContextEdges.

Lemma composeContext_literal_template_witness :
  composeContext demoPlatform demoState (VObj []) ∅ "Hello {world} {" =
  (Ret "Hello {world} {", []).
Proof. apply composeContext_literal_template. reflexivity. Defined.

Lemma composeContext_null_on_path_raises_witness :
  composeContext demoPlatform
    (VObj [("chat", VObj [("user", VNull)])]) (VObj []) ∅
    ("Hi " +:+ placeholderText "chat.user.name" None +:+ "!") =
  (Throw (TypeError "Cannot read properties of null (reading 'name')"), []).
Proof.
  apply (composeContext_null_on_path_raises demoPlatform ∅
           (VObj [("chat", VObj [("user", VNull)])]) (VObj [])
           "Hi " "chat.user.name" None "!" ["chat"; "user"] "name" []);
    reflexivity.
Defined.

Lemma composeContext_state_then_defaults_witness :
  composeContext demoPlatform
    (VObj [("agentName", VStr "Eliza")]) (VObj [("agentName", VStr "nobody")]) ∅
    ("I am " +:+ placeholderText "agentName" None +:+ ".") =
  (Ret "I am Eliza.", []).
Proof.
  rewrite (proj1 (composeContext_state_then_defaults demoPlatform ∅
                    [("agentName", VStr "Eliza")] [("agentName", VStr "nobody")]
                    "I am " "agentName" "agentName" "." (VStr "Eliza")
                    eq_refl eq_refl eq_refl eq_refl eq_refl
                    (or_introl eq_refl))
             "Eliza" eq_refl).
  reflexivity.
Defined.

Lemma composeContext_unresolved_kept_witness :
  composeContext demoPlatform demoState (VObj []) ∅
    ("About " +:+ placeholderText "recentMessages" None +:+ "!") =
  (Ret "About {{recentMessages}}!",
   [(LWarn, "Variable recentMessages not found in state or default values")]).
Proof.
  rewrite (composeContext_unresolved_kept demoPlatform ∅
             [("agentName", VStr "Eliza"); ("bio", VStr "A helpful agent.")] []
             "About " "recentMessages" None "recentMessages" "!")
    by reflexivity.
  reflexivity.
Defined.

(* ================================================================== *)
(** * composeRandomUser *)
(* ================================================================== *)

Lemma startsWith_append p b : startsWith (p +:+ b) p = true.
Proof.
  unfold startsWith. induction p as [|c p IH];
    [rewrite append_nil_l; now destruct b|].
  rewrite append_cons. cbn [String.prefix].
  destruct (ascii_dec c c) as [_|Hne]; [exact IH | congruence].
Qed.

Lemma startsWith_inv p : forall s,
  startsWith s p = true -> exists b, s = p +:+ b.
Proof.
  unfold startsWith. induction p as [|c p IH]; intros s Hs.
  - exists s. reflexivity.
  - destruct s as [|d s]; [discriminate Hs|]. cbn [String.prefix] in Hs.
    destruct (ascii_dec c d) as [->|Hne]; [|discriminate Hs].
    destruct (IH s Hs) as (b & ->). exists b. now rewrite append_cons.
Qed.

Lemma dropChars_append p b : dropChars (String.length p) (p +:+ b) = b.
Proof.
  induction p as [|c p IH]; [now destruct b|].
  rewrite append_cons. cbn [String.length dropChars]. exact IH.
Qed.

Lemma replaceFirst_unfold s p r :
  replaceFirst s p r =
  if startsWith s p then r +:+ dropChars (String.length p) s
  else match s with
       | EmptyString => EmptyString
       | String c rest => String c (replaceFirst rest p r)
       end.
Proof. destruct s; reflexivity. Qed.

(** [replaceFirst] replaces the leftmost occurrence and nothing else. *)
Lemma replaceFirst_leftmost p r b : forall a s,
  s = a +:+ p +:+ b ->
  (forall a' b', s = a' +:+ p +:+ b' ->
                 (String.length a <= String.length a')%nat) ->
  replaceFirst s p r = a +:+ r +:+ b.
Proof.
  induction a as [|c a IH]; intros s Hs Hmin; rewrite replaceFirst_unfold.
  - rewrite append_nil_l in Hs. subst s.
    now rewrite startsWith_append, dropChars_append.
  - destruct (startsWith s p) eqn:Hstart.
    + apply startsWith_inv in Hstart. destruct Hstart as (b' & Hb').
      specialize (Hmin EmptyString b' Hb'). cbn [String.length] in Hmin. lia.
    + rewrite append_cons in Hs. subst s. rewrite append_cons. f_equal.
      apply IH; [reflexivity|].
      intros a' b' Ha'.
      specialize (Hmin (String c a') b').
      rewrite append_cons, Ha' in Hmin. specialize (Hmin eq_refl).
      cbn [String.length] in Hmin. lia.
Qed.

Section RandomUsers.

Context {World : Type} (env : Env World).

Lemma nth_in_range {A : Type} (l : list A) (d : A) (n : nat) :
  l <> [] -> In (nth (n mod List.length l)%nat l d) l.
Proof.
  intros Hl. apply nth_In. apply Nat.mod_upper_bound.
  destruct l; [congruence | discriminate].
Qed.

Lemma randomUser_draws (s : ClientState World) :
  exists adjective noun s',
    randomUser env s = (Ret (adjective +:+ " " +:+ noun), s') /\
    In adjective adjectives /\ In noun nouns /\
    trace s' = trace s /\ interestChats s' = interestChats s.
Proof.
  unfold randomUser. run_steps.
  destruct (randomBelow env (List.length adjectives) (world s)) as [a w1].
  run_steps.
  destruct (randomBelow env (List.length nouns) w1) as [n w2].
  eexists _, _, _. split; [reflexivity|].
  split; [apply nth_in_range; discriminate|].
  split; [apply nth_in_range; discriminate|].
  split; reflexivity.
Qed.

(** X12.  With one user, [composeRandomUser] replaces the leftmost
    [{{user1}}] of the template by an adjective and a noun of its two lists
    and leaves the rest of the template alone, later occurrences of
    [{{user1}}] included; it writes no diagnostic and leaves the chat states
    as they are. *)
Theorem composeRandomUser_replaces_leftmost_only :
  forall (template before after : string) (s : ClientState World),
    template = before +:+ "{{user1}}" +:+ after ->
    (forall before' after',
       template = before' +:+ "{{user1}}" +:+ after' ->
       (String.length before <= String.length before')%nat) ->
    exists adjective noun s',
      In adjective adjectives /\ In noun nouns /\
      composeRandomUser env template 1 s =
        (Ret (before +:+ (adjective +:+ " " +:+ noun) +:+ after), s') /\
      trace s' = trace s /\ interestChats s' = interestChats s.
Proof.
  intros template before after s Hshape Hleft.
  destruct (randomUser_draws s) as (adjective & noun & s' & Hdraw & Ha & Hn & Htr & Hic).
  exists adjective, noun, s'.
  split; [exact Ha|]. split; [exact Hn|]. split; [|split; assumption].
  unfold composeRandomUser. cbn [randomUsers]. unfold bind at 1 2.
  rewrite Hdraw. unfold bind, ret. cbn [fillUsers].
  change ("{{user" +:+ ofZ (Z.of_nat 0 + 1) +:+ "}}") with "{{user1}}".
  now rewrite (replaceFirst_leftmost "{{user1}}" _ after before template).
Qed.

End RandomUsers.

Lemma composeRandomUser_replaces_leftmost_only_witness :
  exists adjective noun s',
    In adjective adjectives /\ In noun nouns /\
    composeRandomUser (demoEnv (demoAnswer "IGNORE"))
      ("{{user1}} met {{user1}}") 1 demoStart =
      (Ret (EmptyString +:+ (adjective +:+ " " +:+ noun) +:+ " met {{user1}}"), s') /\
    trace s' = trace demoStart /\ interestChats s' = interestChats demoStart.
Proof.
  apply (composeRandomUser_replaces_leftmost_only (demoEnv (demoAnswer "IGNORE"))
           "{{user1}} met {{user1}}" EmptyString " met {{user1}}" demoStart);
    [reflexivity | intros; cbn [String.length]; lia].
Defined.

Section BuiltInTemplate.

Context {World : Type} (env : Env World).



End BuiltInTemplate.


(* ================================================================== *)
(** * More about the decision: generateShouldRespond and _shouldRespond *)
(* ================================================================== *)

Section DecisionEdges.

Context {World : Type} (env : Env World).

Implicit Types (s : ClientState World) (message : Message) (state : value).

(** X14.  [generateShouldRespond] never raises, whatever its collaborators
    do, and its answer is one of the two tokens. *)
Theorem generateShouldRespond_never_raises :
  forall context s,
    exists decision s',
      generateShouldRespond env context s = (Ret decision, s') /\
      (decision = "RESPOND" \/ decision = "IGNORE").
Proof. intros context s. apply generateShouldRespond_total. Qed.

Lemma orIgnore_respond output :
  orIgnore output = "RESPOND" -> output = Some "RESPOND".
Proof.
  destruct output as [text|]; cbn [orIgnore]; [|discriminate].
  destruct (truthy text); [now intros -> | discriminate].
Qed.

(** X15.  The answer is RESPOND in one case only: the three awaited calls
    returned and the text of the first memory found, trimmed and
    upper-cased, is exactly RESPOND; the only diagnostic is then the debug
    line of the decision. *)
Theorem generateShouldRespond_respond_iff :
  forall context s s',
    generateShouldRespond env context s = (Ret "RESPOND", s') <->
    exists response s1,
      askModel env context s = (Ret response, s1) /\
      modelOutput response = Some "RESPOND" /\
      s' = afterLog s1 LDebug "Should respond decision: RESPOND".
Proof.
  intros context s s'. unfold generateShouldRespond, tryCatch. unfold bind at 1.
  split.
  - destruct (askModel env context s) as [[response|e] s1];
      [|unfold bind, logM, emit, ret; intros H; discriminate H].
    unfold readDecision.
    destruct (String.eqb_spec (orIgnore (modelOutput response)) "RESPOND")
      as [Hr|Hr]; cbn [negb andb].
    + unfold bind, logM, emit, ret. rewrite Hr. intros H. injection H as <-.
      exists response, s1. split; [reflexivity|].
      split; [now apply orIgnore_respond | reflexivity].
    + destruct (String.eqb (orIgnore (modelOutput response)) "IGNORE") eqn:Hi;
        cbn [negb]; unfold bind, logM, emit, ret; intros H.
      * injection H as Hd _. congruence.
      * discriminate H.
  - intros (response & s1 & Hask & Hout & ->). rewrite Hask.
    unfold readDecision. rewrite Hout. reflexivity.
Qed.

(** X16.  Rules 2 and 3 of [_shouldRespond] need no collaborator.  A
    message with text and without a mention gets [true] in a private chat;
    in any other chat that has a chat state it gets [true] exactly when the
    handler of the chat is [telegramMessageHandler].  In both cases nothing
    is logged or called and the state is unchanged. *)
Theorem shouldRespond_rules_2_and_3 :
  forall message state s text,
    message_text message = Some text ->
    includes text ("@" +:+ botUsername env) = false ->
    (chat_type (message_chat message) = "private" ->
     _shouldRespond env message state s = (Ret true, s)) /\
    (forall chatState,
       chat_type (message_chat message) <> "private" ->
       interestChats s !! ofZ (chat_id (message_chat message)) = Some chatState ->
       _shouldRespond env message state s =
         (Ret (bool_decide (currentHandler chatState = Some "telegramMessageHandler")),
          s)).
Proof.
  intros message state s text Htext Hmention.
  unfold _shouldRespond, _isMessageForMe, bind, ret, getChat. rewrite Htext.
  cbv beta iota zeta. rewrite Hmention. split.
  - intros ->. reflexivity.
  - intros chatState Hgroup Hchat. apply String.eqb_neq in Hgroup.
    rewrite Hgroup, Hchat.
    f_equal. f_equal. unfold _shouldRespondBasedOnContext.
    destruct (currentHandler chatState) as [handler|];
      [|now rewrite bool_decide_eq_false_2].
    destruct (String.eqb_spec handler "telegramMessageHandler") as [->|Hne].
    + now rewrite bool_decide_eq_true_2.
    + rewrite bool_decide_eq_false_2; [reflexivity | congruence].
Qed.

(** X17.  [_shouldRespond] answers [true] for one of four reasons only: the
    text mentions the agent; the chat is private; the chat has a state whose
    handler is [telegramMessageHandler]; or the chat has no state, the text
    is not empty and the generation service answered RESPOND. *)
Theorem shouldRespond_true_only_by_a_rule :
  forall message state s s',
    _shouldRespond env message state s = (Ret true, s') ->
    exists text,
      message_text message = Some text /\
      (includes text ("@" +:+ botUsername env) = true \/
       chat_type (message_chat message) = "private" \/
       (exists chatState,
          interestChats s !! ofZ (chat_id (message_chat message)) = Some chatState /\
          currentHandler chatState = Some "telegramMessageHandler") \/
       (interestChats s !! ofZ (chat_id (message_chat message)) = None /\
        truthy text = true /\
        exists context s1,
          shouldRespondContext env state s = (Ret context, s1) /\
          generateShouldRespond env context s1 = (Ret "RESPOND", s'))).
Proof.
  intros message state s s'.
  unfold _shouldRespond, _isMessageForMe. unfold bind at 1.
  destruct (message_text message) as [text|] eqn:Htext;
    [|unfold throw; intros H; discriminate H].
  unfold ret at 1. cbv beta iota zeta.
  intros H. exists text. split; [reflexivity|].
  destruct (includes text ("@" +:+ botUsername env)); [now left|]. right.
  destruct (String.eqb_spec (chat_type (message_chat message)) "private")
    as [Hprivate|Hgroup]; [now left|]. right.
  cbv zeta in H. unfold bind at 1, getChat in H.
  destruct (interestChats s !! ofZ (chat_id (message_chat message)))
    as [chatState|] eqn:Hchat.
  - left. exists chatState. split; [reflexivity|].
    unfold ret, _shouldRespondBasedOnContext in H.
    destruct (currentHandler chatState) as [handler|]; [|discriminate H].
    injection H as Heq _. apply String.eqb_eq in Heq. now subst handler.
  - right. split; [reflexivity|].
    unfold messageTextOf in H. rewrite Htext in H.
    destruct (truthy text); [|discriminate H]. split; [reflexivity|].
    unfold bind at 1 in H.
    destruct (shouldRespondContext env state s) as [[context|e] s1];
      [|discriminate H].
    exists context, s1. split; [reflexivity|].
    unfold bind at 1 in H.
    destruct (generateShouldRespond env context s1) as [[response|e] s2];
      [|discriminate H].
    unfold ret in H. injection H as Heq <-.
    apply String.eqb_eq in Heq. now subst response.
Qed.

End DecisionEdges.

Lemma shouldRespond_rules_2_and_3_witness :
  _shouldRespond (demoEnv (demoAnswer "IGNORE"))
    {| message_id := 1; message_date := 0;
       message_chat := {| chat_id := 9; chat_type := "private" |};
       message_text := Some "hello"; message_caption := None;
       message_photo := None; message_document := None;
       message_reply_to := None |} demoState demoStart =
  (Ret true, demoStart).
Proof.
  apply (proj1 (shouldRespond_rules_2_and_3 (demoEnv (demoAnswer "IGNORE"))
                  {| message_id := 1; message_date := 0;
                     message_chat := {| chat_id := 9; chat_type := "private" |};
                     message_text := Some "hello"; message_caption := None;
                     message_photo := None; message_document := None;
                     message_reply_to := None |}
                  demoState demoStart "hello" eq_refl eq_refl)).
  reflexivity.
Defined.

Lemma shouldRespond_true_only_by_a_rule_witness :
  exists text,
    message_text (demoMessage (Some "hi @agentbot") None) = Some text /\
    (includes text ("@" +:+ botUsername (demoEnv (demoAnswer "IGNORE"))) = true \/
     chat_type (message_chat (demoMessage (Some "hi @agentbot") None)) = "private" \/
     (exists chatState,
        interestChats demoStart
          !! ofZ (chat_id (message_chat (demoMessage (Some "hi @agentbot") None)))
          = Some chatState /\
        currentHandler chatState = Some "telegramMessageHandler") \/
     (interestChats demoStart
        !! ofZ (chat_id (message_chat (demoMessage (Some "hi @agentbot") None)))
        = None /\
      truthy text = true /\
      exists context s1,
        shouldRespondContext (demoEnv (demoAnswer "IGNORE")) demoState demoStart
          = (Ret context, s1) /\
        generateShouldRespond (demoEnv (demoAnswer "IGNORE")) context s1
          = (Ret "RESPOND", afterLog demoStart LInfo "Bot mentioned"))).
Proof.
  apply (shouldRespond_true_only_by_a_rule (demoEnv (demoAnswer "IGNORE"))
           (demoMessage (Some "hi @agentbot") None) demoState demoStart
           (afterLog demoStart LInfo "Bot mentioned")).
  reflexivity.
Defined.

(* ================================================================== *)
(** * More about the dispatch pipeline *)
(* ================================================================== *)

(** Takes a computation apart along its binds, its handlers and its
    branches. *)
Ltac confine :=
  repeat first
    [ apply confined_ret
    | apply confined_throw
    | apply confined_observe
    | apply confined_getChat
    | apply confined_call; reflexivity
    | apply confined_emit; reflexivity
    | apply confined_liftLogged; reflexivity
    | apply confined_bind; [|intros ?]
    | apply confined_tryCatch; [|intros ?]
    | match goal with
      | |- confined _ _ (if ?c then _ else _) => destruct c
      | |- confined _ _ (match ?x with _ => _ end) => destruct x
      end ].

Section ChatStatesKept.

Context {World : Type} (env : Env World).

Variable P : gmap string ChatState -> Prop.

Abbreviation kept := (confined (World := World) P (fun _ => false)).

Lemma kept_randomUsers count : kept (randomUsers env count).
Proof.
  induction count as [|count IH]; cbn [randomUsers]; [confine|].
  apply confined_bind; [unfold randomUser; confine|]. intros user.
  apply confined_bind; [exact IH|]. intros users. confine.
Qed.

Lemma kept_shouldRespondContext state : kept (shouldRespondContext env state).
Proof.
  unfold shouldRespondContext, shouldRespondTemplate.
  apply confined_bind; [|intros template; confine].
  destruct (orElse _ _); [confine|].
  unfold composeRandomUser.
  apply confined_bind; [apply kept_randomUsers | intros users; confine].
Qed.

Lemma kept_generateShouldRespond context :
  kept (generateShouldRespond env context).
Proof. unfold generateShouldRespond, askModel, readDecision. cbv zeta. confine. Qed.

Lemma kept_shouldRespond message state : kept (_shouldRespond env message state).
Proof.
  unfold _shouldRespond, _isMessageForMe. cbv zeta.
  apply confined_bind; [confine|]. intros mentioned.
  destruct mentioned; [confine|].
  destruct (String.eqb _ _); [confine|].
  apply confined_bind; [confine|]. intros chatState.
  destruct chatState; [confine|].
  destruct (truthy _); [|confine].
  apply confined_bind; [apply kept_shouldRespondContext|]. intros context.
  apply confined_bind; [apply kept_generateShouldRespond|]. intros response.
  confine.
Qed.

Lemma kept_sendChunks ctx replyTo chunks : forall i sent,
  kept (sendChunks env ctx replyTo i chunks sent).
Proof.
  induction chunks as [|chunk chunks IH]; intros i sent; cbn [sendChunks];
    [confine|].
  destruct (ctx_chat ctx); [|confine].
  apply confined_bind; [confine|]. intros sentMessage. apply IH.
Qed.

Lemma kept_recordSent content roomId messageId total sentMessages :
  forall i memories,
    kept (recordSent env content roomId messageId total i sentMessages memories).
Proof.
  induction sentMessages as [|m rest IH]; intros i memories; cbn [recordSent];
    [confine|].
  apply confined_bind; [confine|]. intros _. apply IH.
Qed.

Lemma kept_callback ctx message roomId messageId content :
  kept (callback env ctx message roomId messageId content).
Proof.
  unfold callback, sendMessageInChunks. cbv zeta.
  apply confined_bind; [apply kept_sendChunks|]. intros sentMessages.
  apply kept_recordSent.
Qed.

Lemma kept_generateResponse memory state context :
  kept (_generateResponse env memory state context).
Proof. unfold _generateResponse. cbv zeta. confine. Qed.

Lemma kept_processMessage ctx message from chatId messageText :
  kept (processMessage env ctx message from chatId messageText).
Proof.
  unfold processMessage. cbv zeta.
  apply confined_bind; [confine|]. intros _.
  apply confined_bind; [apply confined_processImage; reflexivity|].
  intros imageInfo.
  match goal with |- confined _ _ (if ?c then _ else _) => destruct c end;
    [confine|].
  apply confined_bind; [confine|]. intros _.
  apply confined_bind; [confine|]. intros state0.
  apply confined_bind; [confine|]. intros state.
  apply confined_bind; [apply kept_shouldRespond|]. intros shouldRespond.
  destruct shouldRespond; [|confine].
  apply confined_bind; [confine|]. intros context.
  apply confined_bind; [apply kept_generateResponse|]. intros responseContent.
  destruct responseContent as [responseContent|]; [|confine].
  match goal with |- confined _ _ (if ?c then _ else _) => destruct c end;
    [confine|].
  apply confined_bind; [apply kept_callback|]. intros responseMessages.
  confine.
Qed.

End ChatStatesKept.

Section HandleMessageFrame.

Context {World : Type} (env : Env World).

Implicit Types (s : ClientState World).

(** What the tracking does to the chat states: it keeps every handler and
    touches the chat of the message only. *)
Lemma trackMessage_effect from chatId messageText s :
  exists s',
    trackMessage env from chatId messageText s = (Ret tt, s') /\
    trace s' = trace s /\
    (forall c, (interestChats s' !! c) ≫= currentHandler =
               (interestChats s !! c) ≫= currentHandler) /\
    (forall c, chatId <> Some c ->
               interestChats s' !! c = interestChats s !! c).
Proof.
  unfold trackMessage.
  destruct chatId as [chatId|]; [|exists s; auto].
  destruct (truthy chatId && truthy messageText); [|exists s; auto].
  run_steps. destruct (Date_now env (world s)) as [now w].
  eexists. split; [reflexivity|]. cbn [trace interestChats].
  split; [reflexivity|]. split.
  - intros c. destruct (decide (chatId = c)) as [->|Hne].
    + rewrite lookup_insert_eq. cbn.
      now destruct (interestChats s !! c).
    + now rewrite lookup_insert_ne.
  - intros c Hc. rewrite lookup_insert_ne; [reflexivity | congruence].
Qed.

(** X18.  [handleMessage] changes the chat states at one place only, the
    chat of the message, and it never sets or changes the handler of any
    chat: a chat that has no handler before has none after. *)
Theorem handleMessage_keeps_handlers :
  forall (ctx : Context) s (chatId : string),
    let s' := snd (handleMessage env ctx s) in
    (interestChats s' !! chatId) ≫= currentHandler =
      (interestChats s !! chatId) ≫= currentHandler /\
    (option_map (fun chat => ofZ (chat_id chat)) (ctx_chat ctx) <> Some chatId ->
     interestChats s' !! chatId = interestChats s !! chatId).
Proof.
  intros ctx s chatId. cbv zeta.
  destruct (handleMessage env ctx s) as [r s'] eqn:Hrun. cbn [snd].
  revert Hrun. unfold handleMessage.
  destruct (ctx_message ctx) as [message|];
    [|intros H; injection H as _ <-; auto].
  destruct (ctx_from ctx) as [from|];
    [|intros H; injection H as _ <-; auto].
  destruct (_ && is_bot from); [intros H; injection H as _ <-; auto|].
  destruct (_ && _); [intros H; injection H as _ <-; auto|].
  cbv zeta. unfold bind at 1.
  match goal with |- context [trackMessage env ?f ?c ?t s] =>
    destruct (trackMessage_effect f c t s) as (s1 & -> & _ & Hhandlers & Hframe)
  end.
  intros Hrun.
  match type of Hrun with tryCatch ?body ?handler s1 = _ =>
    assert (Hkept : confined (fun chats => chats = interestChats s1)
                      (fun _ => false) (tryCatch body handler))
  end.
  { apply confined_tryCatch; [apply kept_processMessage|]. intros e. confine. }
  destruct (Hkept s1 r s' eq_refl Hrun) as (Heq & _).
  rewrite Heq. split; [apply Hhandlers | apply Hframe].
Qed.

End HandleMessageFrame.

Section PipelineEdges.

Context {World : Type} (env : Env World).

Implicit Types (s : ClientState World) (message : Message).

(** X19.  [handleMessage] always returns normally: whatever a collaborator
    raises while the message is processed ends in its catch-all. *)
Theorem handleMessage_never_raises :
  forall (ctx : Context) s,
    exists s', handleMessage env ctx s = (Ret tt, s').
Proof. intros ctx s. apply handleMessage_returns. Qed.

(** X20.  A message that has neither text nor caption nor image is dropped
    after the connection of its sender: the chat states are unchanged, no
    memory is created, no decision is taken and nothing is sent. *)
Theorem handleMessage_without_content :
  forall (ctx : Context) message s,
    ctx_message ctx = Some message ->
    messageTextOf message = EmptyString ->
    imageFileId message = None ->
    let s' := snd (handleMessage env ctx s) in
    interestChats s' = interestChats s /\
    exists evs, trace s' = trace s ++ evs /\ noneOf beyondConnection evs.
Proof.
  intros ctx message s Hmsg Htext Himage. cbv zeta.
  destruct (handleMessage env ctx s) as [r s'] eqn:Hrun. cbn [snd].
  revert Hrun. unfold handleMessage. rewrite Hmsg.
  assert (Hsame : (Ret tt, s) = (r, s') ->
            interestChats s' = interestChats s /\
            exists evs, trace s' = trace s ++ evs /\ noneOf beyondConnection evs).
  { intros H. injection H as _ <-.
    split; [reflexivity | exists []; now rewrite app_nil_r]. }
  destruct (ctx_from ctx) as [from|]; [|exact Hsame].
  destruct (_ && is_bot from); [exact Hsame|].
  destruct (_ && _); [exact Hsame|].
  clear Hsame. cbv zeta. rewrite Htext.
  assert (Htrack : forall chatId,
            trackMessage env from chatId EmptyString s = (Ret tt, s)).
  { intros [chatId|]; [|reflexivity]. unfold trackMessage. cbn [truthy].
    now rewrite andb_false_r. }
  unfold bind at 1. rewrite Htrack.
  unfold tryCatch, processMessage. cbv zeta. unfold bind at 1.
  unfold call at 1, bind at 1, emit at 1. cbn [world interestChats trace].
  destruct (ensureConnection env _ _ _ _ _ (world s)) as [[[]|e] w].
  - unfold bind at 1, processImage, tryCatch. rewrite Himage.
    unfold ret at 1. cbn [truthy negb]. unfold ret.
    intros H. injection H as _ <-. cbn [interestChats trace].
    split; [reflexivity|]. eexists. split; reflexivity.
  - unfold bind, logM, emit. cbn [interestChats trace].
    intros H. injection H as _ <-. cbn [interestChats trace].
    split; [reflexivity|]. eexists. rewrite <- !app_assoc.
    split; reflexivity.
Qed.

Lemma processImage_returns message s :
  exists r s', processImage env message s = (Ret r, s').
Proof.
  unfold processImage, tryCatch.
  match goal with |- context [match ?m s with _ => _ end] =>
    destruct (m s) as [[r|e] s1]
  end; [now eexists _, _|].
  unfold bind, logM, emit, ret. now eexists _, _.
Qed.

Lemma generateResponse_returns memory state context s :
  exists r s', _generateResponse env memory state context s = (Ret r, s').
Proof.
  unfold _generateResponse, tryCatch.
  match goal with |- context [match ?m s with _ => _ end] =>
    destruct (m s) as [[r|e] s1]
  end; [now eexists _, _|].
  unfold bind, logM, emit, ret. now eexists _, _.
Qed.

(** X21.  The two helpers of [handleMessage] keep their failures to
    themselves: [processImage] and [_generateResponse] return normally
    whatever the file service, the description service, the store and the
    search do; and a message without an image gives no description without
    any call or diagnostic. *)
Theorem helpers_never_raise :
  (forall message s,
     (exists r s', processImage env message s = (Ret r, s')) /\
     (imageFileId message = None ->
      processImage env message s = (Ret None, s))) /\
  (forall memory state context s,
     exists r s', _generateResponse env memory state context s = (Ret r, s')).
Proof.
  split.
  - intros message s. split; [apply processImage_returns|].
    intros Himage. unfold processImage, tryCatch. now rewrite Himage.
  - intros memory state context s. apply generateResponse_returns.
Qed.

End PipelineEdges.

Lemma handleMessage_without_content_witness :
  interestChats
    (snd (handleMessage (demoEnv (demoAnswer "RESPOND"))
            (demoContext (demoMessage None None)) demoStart)) =
  interestChats demoStart.
Proof.
  apply (proj1 (handleMessage_without_content (demoEnv (demoAnswer "RESPOND"))
                  (demoContext (demoMessage None None)) (demoMessage None None)
                  demoStart eq_refl eq_refl eq_refl)).
Defined.

Section SendingEdges.

Context {World : Type} (env : Env World).

Implicit Types (s : ClientState World) (message : Message).



Lemma sendChunks_sends ctx replyTo (Q : string -> Prop) :
  forall chunks i sent s,
    Forall Q chunks ->
    exists evs,
      trace (snd (sendChunks env ctx replyTo i chunks sent s)) = trace s ++ evs /\
      forallb isSend evs = true /\
      Forall (fun e => exists text, sentText e = Some text /\ Q text) evs.
Proof.
  induction chunks as [|chunk chunks IH]; intros i sent s Hall; cbn [sendChunks].
  - exists []. cbn. now rewrite app_nil_r.
  - inversion Hall as [|? ? Hchunk Hrest]; subst.
    destruct (ctx_chat ctx) as [chat|];
      [|exists []; cbn; now rewrite app_nil_r].
    unfold bind at 1, call, bind, emit. cbn [world interestChats trace].
    destruct (sendMessage env (chat_id chat) chunk (replyParameters replyTo i)
                (world s)) as [[sentMessage|e] w].
    + match goal with |- context [sendChunks env ctx replyTo ?j chunks ?acc ?s1] =>
        destruct (IH j acc s1 Hrest) as (evs & Htr & Hsend & Htexts)
      end.
      cbn [trace] in Htr.
      exists (EvSendMessage (chat_id chat) chunk (replyParameters replyTo i) :: evs).
      split; [rewrite Htr; now rewrite <- app_assoc|].
      split; [exact Hsend|].
      constructor; [now exists chunk | exact Htexts].
    + exists [EvSendMessage (chat_id chat) chunk (replyParameters replyTo i)].
      cbn [snd trace]. split; [reflexivity|]. split; [reflexivity|].
      constructor; [now exists chunk | constructor].
Qed.

(** X24.  Every text that [sendMessageInChunks] hands to the transport is a
    chunk of the response: it is never empty, and it has at most 4096
    characters unless it is one whole line of the response that is longer
    than that, which is sent as it is. *)
Theorem sent_texts_are_chunks :
  forall (ctx : Context) (content : Content) (replyTo : option Z) s,
    let responseText := firstTruthy (content_text content) EmptyString in
    let s' := snd (sendMessageInChunks env ctx content replyTo s) in
    exists evs,
      trace s' = trace s ++ evs /\
      Forall (fun e =>
                exists text,
                  sentText e = Some text /\ text <> EmptyString /\
                  chunkWithinLimit (split newline responseText) 4096 text)
             evs.
Proof.
  intros ctx content replyTo s responseText s'.
  destruct (sendChunks_sends ctx replyTo
              (fun text => text <> EmptyString /\
                           chunkWithinLimit (split newline responseText) 4096 text)
              (splitMessage_client responseText 4096) 0%nat [] s)
    as (evs & Htr & _ & Htexts).
  { apply Forall_and. split.
    - unfold splitMessage_client. apply fold_splitStep_nonempty. constructor.
    - exact (splitMessage_within responseText 4096). }
  exists evs. split; [exact Htr | exact Htexts].
Qed.

Lemma recordSent_records content roomId messageId total :
  forall sentMessages i memories s,
    exists evs,
      trace (snd (recordSent env content roomId messageId total i
                    sentMessages memories s)) = trace s ++ evs /\
      forallb isCreateMemory evs = true.
Proof.
  induction sentMessages as [|m rest IH]; intros i memories s; cbn [recordSent].
  - exists []. cbn. now rewrite app_nil_r.
  - unfold bind at 1, call, bind, emit. cbn [world interestChats trace].
    match goal with |- context [createMemory env ?mem (world s)] =>
      destruct (createMemory env mem (world s)) as [[[]|e] w];
      [|exists [EvCreateMemory mem]; cbn [snd trace]; now split]
    end.
    match goal with |- context [recordSent env _ _ _ _ ?j rest ?acc ?s1] =>
      destruct (IH j acc s1) as (evs & Htr & Hrec)
    end.
    cbn [trace] in Htr. eexists (_ :: evs).
    split; [rewrite Htr; now rewrite <- app_assoc | exact Hrec].
Qed.

(** X25.  The callback of [handleMessage] records memories only after the
    sending is over: its events are the sends followed by the memories of
    the sent chunks, and when a send raises the callback raises with it and
    records nothing. *)
Theorem callback_records_after_sending :
  forall (ctx : Context) message (roomId messageId : string) (content : Content) s,
    let run := callback env ctx message roomId messageId content s in
    exists sends records,
      trace (snd run) = trace s ++ sends ++ records /\
      forallb isSend sends = true /\
      forallb isCreateMemory records = true /\
      (forall e s1,
         sendMessageInChunks env ctx content (Some (message_id message)) s
           = (Throw e, s1) ->
         fst run = Throw e /\ records = []).
Proof.
  intros ctx message roomId messageId content s. cbv zeta.
  unfold callback, sendMessageInChunks. unfold bind at 1.
  destruct (sendChunks_sends ctx (Some (message_id message)) (fun _ => True)
              (splitMessage_client (firstTruthy (content_text content) EmptyString) 4096)
              0%nat [] s) as (sends & Htr & Hsends & _).
  { apply Forall_forall. intros ? _. exact I. }
  destruct (sendChunks env ctx (Some (message_id message)) 0 _ [] s)
    as [[sentMessages|e] s1] eqn:Hrun; cbn [snd] in Htr.
  - destruct (recordSent_records content roomId messageId
                (List.length sentMessages) sentMessages 0%nat [] s1)
      as (records & Htr2 & Hrec).
    exists sends, records. rewrite Htr2, Htr, app_assoc.
    split; [reflexivity|]. split; [exact Hsends|]. split; [exact Hrec|].
    intros e s2 H. discriminate H.
  - exists sends, []. cbn [snd fst]. rewrite app_nil_r.
    split; [exact Htr|]. split; [exact Hsends|]. split; [reflexivity|].
    intros e' s2 H. injection H as -> _.
    split; [unfold bind; now rewrite Hrun | reflexivity].
Qed.

End SendingEdges.


Lemma group_text_never_reaches_generation_witness :
  exists s' evs,
    handleMessage (demoEnv (demoAnswer "RESPOND"))
      (demoContext (demoMessage (Some "hello everyone") None)) demoStart
      = (Ret tt, s') /\
    trace s' = trace demoStart ++ evs /\ noneOf asksOrSends evs.
Proof.
  apply (group_text_never_reaches_generation (demoEnv (demoAnswer "RESPOND"))
           (demoContext (demoMessage (Some "hello everyone") None))
           (demoMessage (Some "hello everyone") None) demoUser demoStart
           "hello everyone");
    try reflexivity.
  intros chatId chatState H. cbn in H. rewrite lookup_empty in H. discriminate H.
Defined.

(* ================================================================== *)
(** * Properties of escapeMarkdown *)
(* ================================================================== *)

Example escapeMarkdown_samples :
  escapeMarkdown "a*b_c" = "a\*b\_c" /\
  escapeMarkdown "see ```x*y``` and *z*" = "see ```x*y``` and \*z\*" /\
  escapeMarkdown "```x``` *b* ```y```" = "```x``` *b* ```y```" /\
  escapeMarkdown "run `ls` now" = "run \`ls\` now".
Proof. repeat split; vm_compute; reflexivity. Qed.

Lemma includes_cons c rest p :
  includes (String c rest) p = false ->
  startsWith (String c rest) p = false /\ includes rest p = false.
Proof. cbn [includes]. intros H. now apply orb_false_elim in H. Qed.

Lemma includes_startsWith s p : includes s p = false -> startsWith s p = false.
Proof.
  destruct s as [|c rest]; cbn [includes]; intros H;
    now apply orb_false_elim in H.
Qed.

Lemma escapeParts_without_fence text :
  includes text codeFence = false -> escapeParts 0 text = escapeSpecials text.
Proof.
  induction text as [|c rest IH]; intros Hnone; [reflexivity|].
  apply includes_cons in Hnone. destruct Hnone as [Hstart Hrest].
  cbn [escapeParts escapeSpecials]. unfold codeBlockLength. rewrite Hstart.
  now rewrite IH.
Qed.

(** X26.  In a text without a code fence every [*], [_], backtick and
    backslash gets a backslash in front and nothing else changes; the
    backticks of an inline code span are escaped like the others. *)
Theorem escapeMarkdown_without_fence :
  forall text : string,
    includes text codeFence = false ->
    escapeMarkdown text = escapeSpecials text.
Proof.
  intros text Hnone. unfold escapeMarkdown.
  rewrite (includes_startsWith text codeFence Hnone). cbn [andb].
  now apply escapeParts_without_fence.
Qed.

Lemma escapeMarkdown_without_fence_witness :
  escapeMarkdown "run `ls` on *both*" = "run \`ls\` on \*both\*".
Proof.
  rewrite (escapeMarkdown_without_fence "run `ls` on *both*" eq_refl).
  reflexivity.
Defined.

Lemma noBacktick_not_fence c rest :
  negb (Ascii.eqb c "`"%char) = true ->
  startsWith (String c rest) codeFence = false.
Proof.
  intros Hc. apply negb_true_iff, Ascii.eqb_neq in Hc.
  unfold startsWith, codeFence. cbn [String.prefix].
  destruct (ascii_dec "`"%char c) as [<-|_]; [congruence | reflexivity].
Qed.

Lemma escapeParts_plain a : forall rest,
  noBacktick a = true ->
  escapeParts 0 (a +:+ rest) = escapeSpecials a +:+ escapeParts 0 rest.
Proof.
  induction a as [|c a IH]; intros rest Ha; [now rewrite !append_nil_l|].
  unfold noBacktick in Ha. cbn [allChars] in Ha. apply andb_prop in Ha.
  destruct Ha as [Hc Ha].
  rewrite append_cons. cbn [escapeParts escapeSpecials].
  unfold codeBlockLength. rewrite (noBacktick_not_fence c _ Hc).
  rewrite (IH rest Ha).
  destruct (isMarkdownSpecial c); now rewrite ?append_cons.
Qed.

Lemma startsWith_fence rest :
  startsWith (String "`" (String "`" (String "`" rest))) codeFence = true.
Proof. now destruct rest. Qed.

Lemma findFence_behind code : forall rest,
  noBacktick code = true ->
  findFence (code +:+ codeFence +:+ rest) = Some (String.length code).
Proof.
  induction code as [|c code IH]; intros rest Hcode.
  - rewrite append_nil_l.
    change (codeFence +:+ rest) with (String "`" (String "`" (String "`" rest))).
    cbn [findFence]. now rewrite startsWith_fence.
  - unfold noBacktick in Hcode. cbn [allChars] in Hcode. apply andb_prop in Hcode.
    destruct Hcode as [Hc Hcode].
    rewrite append_cons. cbn [findFence].
    rewrite (noBacktick_not_fence c _ Hc), (IH rest Hcode). reflexivity.
Qed.

Lemma escapeParts_skip block : forall rest,
  escapeParts (String.length block) (block +:+ rest) = block +:+ escapeParts 0 rest.
Proof.
  induction block as [|c block IH]; intros rest.
  - rewrite !append_nil_l. now destruct rest.
  - rewrite !append_cons. cbn [String.length escapeParts]. now rewrite IH.
Qed.

Lemma escapeParts_unfold c rest :
  escapeParts 0 (String c rest) =
  match codeBlockLength (String c rest) with
  | Some n => String c (escapeParts (n - 1) rest)
  | None =>
      if isMarkdownSpecial c
      then String "\"%char (String c (escapeParts 0 rest))
      else String c (escapeParts 0 rest)
  end.
Proof. reflexivity. Qed.

Lemma codeBlockLength_block code rest :
  noBacktick code = true ->
  codeBlockLength (String "`" (String "`" (String "`" (code +:+ codeFence +:+ rest))))
  = Some (3 + String.length code + 3)%nat.
Proof.
  intros Hcode. unfold codeBlockLength. rewrite startsWith_fence.
  cbn [dropChars]. now rewrite (findFence_behind code rest Hcode).
Qed.

Lemma escapeParts_block code rest :
  noBacktick code = true ->
  escapeParts 0 (codeFence +:+ code +:+ codeFence +:+ rest) =
  codeFence +:+ code +:+ codeFence +:+ escapeParts 0 rest.
Proof.
  intros Hcode.
  change (codeFence +:+ code +:+ codeFence +:+ rest)
    with (String "`" (String "`" (String "`" (code +:+ codeFence +:+ rest)))).
  rewrite escapeParts_unfold, (codeBlockLength_block code rest Hcode).
  assert (Hblock : String "`" (String "`" (code +:+ codeFence +:+ rest)) =
                   ("``" +:+ code +:+ codeFence) +:+ rest)
    by (now rewrite !append_assoc).
  assert (Hlen : (3 + String.length code + 3 - 1)%nat =
                 String.length ("``" +:+ code +:+ codeFence))
    by (rewrite !append_length; cbn [String.length codeFence]; lia).
  rewrite Hblock, Hlen, escapeParts_skip.
  now rewrite !append_assoc.
Qed.

(** X27.  A code block between two fences is copied as it is and the text
    around it is escaped: for a text that begins with ordinary characters,
    the part in front of the first fence is escaped character by character,
    the block up to the next fence is kept verbatim, and the escaping
    resumes behind it. *)
Theorem escapeMarkdown_keeps_code_block :
  forall before code after : string,
    before <> EmptyString ->
    noBacktick before = true ->
    noBacktick code = true ->
    escapeMarkdown (before +:+ codeFence +:+ code +:+ codeFence +:+ after) =
    escapeSpecials before +:+ codeFence +:+ code +:+ codeFence +:+
    escapeParts 0 after.
Proof.
  intros before code after Hnonempty Hbefore Hcode. unfold escapeMarkdown.
  assert (Hguard : startsWith (before +:+ codeFence +:+ code +:+ codeFence +:+ after)
                     codeFence = false).
  { destruct before as [|c before]; [congruence|].
    rewrite append_cons. apply noBacktick_not_fence.
    unfold noBacktick in Hbefore. cbn [allChars] in Hbefore.
    now apply andb_prop in Hbefore. }
  rewrite Hguard. cbn [andb].
  rewrite (escapeParts_plain before _ Hbefore).
  now rewrite (escapeParts_block code after Hcode).
Qed.

Lemma escapeMarkdown_keeps_code_block_witness :
  escapeMarkdown ("see " +:+ codeFence +:+ "x*y" +:+ codeFence +:+ " and *z*") =
  escapeSpecials "see " +:+ codeFence +:+ "x*y" +:+ codeFence +:+
  escapeParts 0 " and *z*".
Proof.
  apply escapeMarkdown_keeps_code_block; [discriminate | reflexivity | reflexivity].
Defined.

(* ================================================================== *)
(** * Properties of the handlers of the updates *)
(* ================================================================== *)


Section UpdateProperties.

Context {World : Type} (bot : Bot World).

Implicit Types (ctx : UpdateContext) (s : UpdateState World).






End UpdateProperties.


(** The allowed group reaches the message manager, and a 403 raised there
    is logged without a reply. *)
Example forbidden_is_not_reported :
  up_trace (snd (onMessage (demoBot (Throw (ServiceError 403 "Forbidden")))
                   (demoUpdate demoGroup) demoUpdateStart)) =
  [UpHandleMessage; UpLog LError "❌ Error handling message:"].
Proof. vm_compute. reflexivity. Qed.
